(** * A from-scratch HTTP/1.x server on raw sockets: model and properties

    Shallow embedding of [src/index.ts] (with the declarations of
    [types.ts] and [HTTPError.ts]).  Node [Buffer]s are lists of bytes,
    JavaScript numbers that count bytes are integers in [Z], JavaScript
    strings are [string]s.  The socket is a script of the reads still to
    come together with the log of the writes made so far; stateful code is
    written in a small state-and-failure monad over that world. *)

From Stdlib Require Import ZArith List Lia Bool String Ascii.
From Stdlib Require Import Strings.Byte.
From Stdlib Require Import DecimalString HexadecimalString.
From Stdlib Require HexadecimalPos HexadecimalN.
Import ListNotations.

Local Open Scope Z_scope.

(** ** Node buffers *)

Definition Buffer := list byte.

(** [b.length] *)
Definition blen (b : Buffer) : Z := Z.of_nat (List.length b).

(** [Buffer.from(s)] and [b.toString()], read byte by byte: a byte is a
    code unit, as [toString("latin1")] has it (the chunk-size line of
    [readChunks] is read that way in the source).  Elsewhere Node encodes
    and decodes UTF-8, which is the same on 7-bit input and differs above
    0x7f: a byte sequence that is not valid UTF-8 is decoded to U+FFFD and
    a multi-byte sequence to one character.  The properties that say what
    was decoded or encoded are therefore stated for 7-bit strings
    ([ascii7] below). *)
Definition Buffer_from (s : string) : Buffer := list_byte_of_string s.
Definition toString (b : Buffer) : string := string_of_list_byte b.

(** [Buffer.alloc(n)]: [n] zero bytes. *)
Definition Buffer_alloc (n : Z) : Buffer := repeat x00 (Z.to_nat n).

(** How a typed array reads a relative index: a negative index counts from
    the end, and the result is clamped to [0, len]. *)
Definition relIndex (len i : Z) : Z :=
  if i <? 0 then Z.max (len + i) 0 else Z.min i len.

(** [b.subarray(s, e)] *)
Definition subarray (b : Buffer) (s e : Z) : Buffer :=
  let from := relIndex (blen b) s in
  let to := relIndex (blen b) e in
  firstn (Z.to_nat (to - from)) (skipn (Z.to_nat from) b).

(** [b.copyWithin(target, start, end)] *)
Definition copyWithin (b : Buffer) (target start end_ : Z) : Buffer :=
  let len := blen b in
  let to := relIndex len target in
  let from := relIndex len start in
  let final := relIndex len end_ in
  let count := Z.min (final - from) (len - to) in
  if 0 <? count
  then firstn (Z.to_nat to) b
       ++ firstn (Z.to_nat count) (skipn (Z.to_nat from) b)
       ++ skipn (Z.to_nat (to + count)) b
  else b.

(** [src.copy(target, targetStart, 0)]: the new contents of [target].
    Node raises a RangeError for a negative [targetStart] ([None]); it
    copies nothing when [targetStart] is past the end of [target]. *)
Definition copy (src target : Buffer) (targetStart : Z) : option Buffer :=
  if targetStart <? 0 then None
  else if blen target <=? targetStart then Some target
  else
    let n := Z.min (blen src) (blen target - targetStart) in
    Some (firstn (Z.to_nat targetStart) target
          ++ firstn (Z.to_nat n) src
          ++ skipn (Z.to_nat (targetStart + n)) target).

Definition beq (a b : byte) : bool := Byte.eqb a b.

Fixpoint starts_with (needle hay : Buffer) : bool :=
  match needle, hay with
  | [], _ => true
  | _ :: _, [] => false
  | n :: needle', h :: hay' => beq n h && starts_with needle' hay'
  end.

(** [hay.indexOf(needle)]: the first offset at which [needle] occurs, or
    [-1]. *)
Fixpoint indexOf_from (needle hay : Buffer) (i : Z) : Z :=
  if starts_with needle hay then i
  else match hay with
       | [] => -1
       | _ :: hay' => indexOf_from needle hay' (i + 1)
       end.

Definition indexOf (hay needle : Buffer) : Z := indexOf_from needle hay 0.

(** ** The dynamic buffer ([DynBuf] of types.ts) *)

Record DynBuf := mkDynBuf { buf_data : Buffer; buf_length : Z }.

(** [while (cap < newLen) cap *= 2], for at most [fuel] rounds. *)
Fixpoint grow (fuel : nat) (cap newLen : Z) : Z :=
  match fuel with
  | O => cap
  | S fuel' => if cap <? newLen then grow fuel' (cap * 2) newLen else cap
  end.

(** [bufPush(buf, data)]: whether it returned, and the buffer it leaves.
    When the last [copy] raises its RangeError ([false]) the store may
    already have been replaced by the grown one; the length is not yet
    updated. *)
Definition bufPush (buf : DynBuf) (d : Buffer) : bool * DynBuf :=
  let newLen := buf_length buf + blen d in
  let data1 :=
    if blen (buf_data buf) <? newLen then
      let cap := grow (Z.to_nat newLen) (Z.max (blen (buf_data buf)) 32) newLen in
      let grown := Buffer_alloc cap in
      match copy (buf_data buf) grown 0 with
      | Some g => g
      | None => grown
      end
    else buf_data buf in
  match copy d data1 (buf_length buf) with
  | Some data2 => (true, mkDynBuf data2 newLen)
  | None => (false, mkDynBuf data1 (buf_length buf))
  end.

(** [bufPop(buf, len)] *)
Definition bufPop (buf : DynBuf) (len : Z) : DynBuf :=
  mkDynBuf (copyWithin (buf_data buf) 0 len (buf_length buf))
           (buf_length buf - len).

(** The unread bytes [buf.data.subarray(0, buf.length)]. *)
Definition unread (buf : DynBuf) : Buffer :=
  subarray (buf_data buf) 0 (buf_length buf).

Definition capacity (buf : DynBuf) : Z := blen (buf_data buf).

(** The invariant of the data model: the logical length lies within the
    store. *)
Definition buf_wf (buf : DynBuf) : Prop :=
  0 <= buf_length buf <= capacity buf.

Definition emptyBuf : DynBuf := mkDynBuf (Buffer_alloc 0) 0.

(** Sequences of buffer operations and their reference model. *)
Inductive BufOp :=
| Append (d : Buffer)
| Consume (n : Z).

Definition apply_op (op : BufOp) (buf : DynBuf) : option DynBuf :=
  match op with
  | Append d =>
      match bufPush buf d with
      | (true, buf') => Some buf'
      | (false, _) => None
      end
  | Consume n => Some (bufPop buf n)
  end.

Fixpoint run_ops (ops : list BufOp) (buf : DynBuf) : option DynBuf :=
  match ops with
  | [] => Some buf
  | op :: ops' =>
      match apply_op op buf with
      | Some buf' => run_ops ops' buf'
      | None => None
      end
  end.

(** Reference model: concatenation and prefix removal on byte sequences. *)
Definition model_op (op : BufOp) (s : list byte) : list byte :=
  match op with
  | Append d => s ++ d
  | Consume n => skipn (Z.to_nat n) s
  end.

Fixpoint model_ops (ops : list BufOp) (s : list byte) : list byte :=
  match ops with
  | [] => s
  | op :: ops' => model_ops ops' (model_op op s)
  end.

(** Every [Consume n] asks for at most the bytes then unread. *)
Fixpoint consumes_ok (ops : list BufOp) (s : list byte) : Prop :=
  match ops with
  | [] => True
  | op :: ops' =>
      match op with
      | Append _ => True
      | Consume n => 0 <= n <= blen s
      end /\ consumes_ok ops' (model_op op s)
  end.

(** One step of capacity growth: unchanged, or the old capacity raised to
    the floor of 32 and doubled [k] times, the least [k] that fits. *)
Definition cap_step (c newLen c' : Z) : Prop :=
  (newLen <= c /\ c' = c) \/
  (c < newLen /\
   exists k : nat, c' = Z.max c 32 * 2 ^ Z.of_nat k /\ newLen <= c' /\
                   (k = O \/ Z.max c 32 * 2 ^ (Z.of_nat k - 1) < newLen)).

(** What an operation may do to the store's size. *)
Definition cap_ok (op : BufOp) (buf buf' : DynBuf) : Prop :=
  match op with
  | Append d => cap_step (capacity buf) (buf_length buf + blen d) (capacity buf')
  | Consume _ => capacity buf' = capacity buf
  end.

(** The run of [ops] from [buf] agrees with the reference model started at
    [s]: no operation fails, and after each one the unread bytes are the
    model's, the invariant holds and the store grew by doubling only. *)
Fixpoint run_agrees (ops : list BufOp) (buf : DynBuf) (s : list byte) : Prop :=
  match ops with
  | [] => True
  | op :: ops' =>
      match apply_op op buf with
      | None => False
      | Some buf' =>
          unread buf' = model_op op s /\ buf_wf buf' /\ cap_ok op buf buf' /\
          run_agrees ops' buf' (model_op op s)
      end
  end.

(** ** JavaScript strings and numbers *)

Definition CR : ascii := "013"%char.
Definition LF : ascii := "010"%char.
Definition CRLF : string := String CR (String LF EmptyString).
Definition crlf : Buffer := Buffer_from CRLF.

Definition streq (a b : string) : bool := String.eqb a b.
Definition strcat (a b : string) : string := String.append a b.
Definition strlen (s : string) : Z := Z.of_nat (String.length s).

Definition char_code (c : ascii) : Z := Z.of_N (N_of_ascii c).

(** The white space and line terminators of ECMAScript that fit one
    8-bit code unit: TAB, LF, VT, FF, CR, SP and NBSP.  This is the white
    space of a 7-bit string; above 0x7f the source sees decoded characters
    (U+00A0 is the two bytes C2 A0, a lone A0 is no white space). *)
Definition is_space (c : ascii) : bool :=
  let n := char_code c in
  ((9 <=? n) && (n <=? 13)) || (n =? 32) || (n =? 160).

Fixpoint trimStart (s : string) : string :=
  match s with
  | EmptyString => EmptyString
  | String c s' => if is_space c then trimStart s' else s
  end.

Definition str_rev (s : string) : string :=
  string_of_list_ascii (rev (list_ascii_of_string s)).

(** [s.trim()] *)
Definition trim (s : string) : string :=
  str_rev (trimStart (str_rev (trimStart s))).

(** [s.substring(n)] and [s.substr(n)] for [n >= 0]. *)
Fixpoint str_drop (n : nat) (s : string) : string :=
  match n, s with
  | O, _ => s
  | S n', EmptyString => EmptyString
  | S n', String _ s' => str_drop n' s'
  end.

(** [s.toLocaleLowerCase()] on the letters A-Z, byte by byte.  This is
    the lower case of a 7-bit string in every locale but for the capital
    I, which Turkish and Azeri lower to the dotless i; the lower case of
    other letters is not modelled. *)
Definition lower_char (c : ascii) : ascii :=
  let n := N_of_ascii c in
  if ((65 <=? n) && (n <=? 90))%N then ascii_of_N (n + 32) else c.

Fixpoint toLowerCase (s : string) : string :=
  match s with
  | EmptyString => EmptyString
  | String c s' => String (lower_char c) (toLowerCase s')
  end.

(** [s.split(sep)] for a separator of one character; the result is never
    empty. *)
Fixpoint split (sep : ascii) (s : string) : list string :=
  match s with
  | EmptyString => [EmptyString]
  | String c s' =>
      if Ascii.eqb c sep then EmptyString :: split sep s'
      else match split sep s' with
           | p :: ps => String c p :: ps
           | [] => [String c EmptyString]
           end
  end.

(** The value of a digit in the radixes up to 36. *)
Definition digit_value (c : ascii) : option Z :=
  let n := char_code c in
  if (48 <=? n) && (n <=? 57) then Some (n - 48)
  else if (97 <=? n) && (n <=? 122) then Some (n - 87)
  else if (65 <=? n) && (n <=? 90) then Some (n - 55)
  else None.

(** The value of the longest prefix of [s] made of digits of radix [R];
    [acc] is the value read so far, [None] while no digit was read. *)
Fixpoint parse_digits (R : Z) (s : string) (acc : option Z) : option Z :=
  match s with
  | EmptyString => acc
  | String c s' =>
      match digit_value c with
      | Some d =>
          if d <? R
          then parse_digits R s'
                 (Some (match acc with Some a => a * R + d | None => d end))
          else acc
      | None => acc
      end
  end.

(** The sign that leads [s1], and what follows it. *)
Definition parse_sign (s1 : string) : bool * string :=
  match s1 with
  | String c r =>
      if Ascii.eqb c "-" then (true, r)
      else if Ascii.eqb c "+" then (false, r)
      else (false, s1)
  | EmptyString => (false, s1)
  end.

(** The radix to read [s2] in, and [s2] without the prefix 0x that
    selects radix 16 when the call gives no radix or gives 16. *)
Definition parse_radix (radix : Z) (s2 : string) : Z * string :=
  let R0 := if radix =? 0 then 10 else radix in
  if (radix =? 0) || (radix =? 16) then
    match s2 with
    | String c0 (String c1 r) =>
        if Ascii.eqb c0 "0" && (Ascii.eqb c1 "x" || Ascii.eqb c1 "X")
        then (16, r) else (R0, s2)
    | _ => (R0, s2)
    end
  else (R0, s2).

(** [parseInt(s, radix)], with [radix = 0] for a call without radix;
    [None] is NaN.  A JavaScript number is a double: the result is exact
    below 2^53, which this model extends to all integers. *)
Definition parseInt (s : string) (radix : Z) : option Z :=
  let '(neg, s2) := parse_sign (trimStart s) in
  if negb (radix =? 0) && ((radix <? 2) || (36 <? radix)) then None
  else
    let '(R, s3) := parse_radix radix s2 in
    match parse_digits R s3 None with
    | Some v => Some (if neg then - v else v)
    | None => None
    end.

(** [String(n)] for an integer, and [n.toString(16)] for a length. *)
Definition decimal (n : Z) : string :=
  DecimalString.NilZero.string_of_int (Z.to_int n).
Definition hex (n : Z) : string :=
  HexadecimalString.NilZero.string_of_uint (N.to_hex_uint (Z.to_N n)).

(** ** Failures *)

(** [HTTPError] of HTTPError.ts carries a status code; every other
    exception ([Error], RangeError) carries none. *)
Inductive Failure :=
| HTTPError (code : Z) (message : string)
| Error (message : string).

Definition RangeError : Failure := Error "ERR_OUT_OF_RANGE".

(** ** Parsing a request header *)

Record HTTPReq := mkHTTPReq {
  method : string;
  uri : Buffer;
  version : string;
  headers : list Buffer;
}.

(** [splitLines(data)].  [cur] holds, reversed, the bytes from [start] up
    to the scanning position; a CR LF pair closes the line and is skipped;
    what follows the last pair is pushed when it is not empty. *)
Fixpoint splitLines_from (cur rest : Buffer) : list Buffer :=
  match rest with
  | [] => match cur with [] => [] | _ :: _ => [rev cur] end
  | b :: rest' =>
      match rest' with
      | b' :: rest'' =>
          if beq b x0d && beq b' x0a
          then rev cur :: splitLines_from [] rest''
          else splitLines_from (b :: cur) rest'
      | [] => [rev (b :: cur)]
      end
  end.

Definition splitLines (data : Buffer) : list Buffer := splitLines_from [] data.

Definition is_empty_string (s : string) : bool :=
  match s with EmptyString => true | String _ _ => false end.

(** [parseRequestLine(line)] *)
Definition parseRequestLine (line : Buffer)
  : Failure + (string * Buffer * string) :=
  match split " " (toString line) with
  | [p0; p1; p2] =>
      if is_empty_string p0 || is_empty_string p1 || is_empty_string p2
      then inl (HTTPError 400 "Invalid request line.")
      else inr (p0, Buffer_from p1, p2)
  | _ => inl (HTTPError 400 "Invalid request line.")
  end.

(** [validateHeader(header)] *)
Definition validateHeader (header : Buffer) : bool :=
  0 <? indexOf header (Buffer_from ":").

(** The loop of [parseHTTPReq] over the lines after the first. *)
Fixpoint parseFields (lines : list Buffer) : Failure + list Buffer :=
  match lines with
  | [] => inr []
  | line :: lines' =>
      if 0 <? blen line then
        if validateHeader line then
          match parseFields lines' with
          | inr hs => inr (line :: hs)
          | inl e => inl e
          end
        else inl (HTTPError 400 "bad field.")
      else parseFields lines'
  end.

(** [parseHTTPReq(data)].  The test [!firstLine] never fires: a Buffer is
    an object, and objects are truthy. *)
Definition parseHTTPReq (data : Buffer) : Failure + HTTPReq :=
  match splitLines data with
  | [] => inl (HTTPError 400 "empty request.")
  | firstLine :: lines =>
      match parseRequestLine firstLine with
      | inl e => inl e
      | inr (m, u, v) =>
          match parseFields lines with
          | inl e => inl e
          | inr hs => inr (mkHTTPReq m u v hs)
          end
      end
  end.

(** [fieldGet(headers, key)] *)
Fixpoint fieldGet (hs : list Buffer) (key : string) : option Buffer :=
  match hs with
  | [] => None
  | h :: hs' =>
      let idx := indexOf h (Buffer_from ":") in
      if (0 <? idx)
         && streq (toLowerCase (toString (subarray h 0 idx))) (toLowerCase key)
      then Some (Buffer_from
                   (trim (str_drop (S (String.length key)) (toString h))))
      else fieldGet hs' key
  end.

(** ** Body readers *)

(** Where the generator [readChunks] stands between two calls of
    [next()]: at the test of its [for] loop (with the local [last]), at the
    test of its [while] loop (where it also resumes after a [yield], with
    the locals [last] and [remain]), or finished (returned or threw). *)
Inductive ChunkPC :=
| AtFor (last : bool)
| AtWhile (last : bool) (remain : Z)
| Finished.

(** The generators behind [readerFromGenerator]: the chunked decoder, the
    demo [countSheep] (its delays left out) at its counter [i], and, for
    the producers a caller may inject, one that yields given buffers in
    order and returns. *)
Inductive BufferGenerator :=
| ReadChunks (pc : ChunkPC)
| CountSheep (i : Z)
| Yields (items : list Buffer).

(** The four shapes of [BodyReader] with the variables their closures
    capture.  A file handle is the list of what its next [read()] calls
    return; past the list it reports end of file. *)
Inductive BodyReader :=
| ConnLengthReader (length remain : Z)
| MemoryReader (data : Buffer) (done : bool)
| GeneratorReader (gen : BufferGenerator)
| StaticFileReader (size got : Z) (fp : list Buffer).

(** The property [length] of a reader: -1 if unknown. *)
Definition reader_length (r : BodyReader) : Z :=
  match r with
  | ConnLengthReader len _ => len
  | MemoryReader d _ => blen d
  | GeneratorReader _ => -1
  | StaticFileReader size _ _ => size
  end.

(** ** The world: socket, receive buffer, reader objects, file system *)

Inductive FsEntry :=
| NoEntry
| NotAFile
| RegularFile (size : Z) (reads : list Buffer).

(** A reader is an object that several variables may name ([resp = body]
    in [handleReq]): readers live in a store and are passed by address. *)
Definition Ref := nat.

Record World := mkWorld {
  incoming : list Buffer;     (* what the coming [soRead] calls resolve with *)
  outgoing : list Buffer;     (* the buffers written, oldest first *)
  destroyed : bool;           (* [socket.destroy()] was called *)
  buf : DynBuf;               (* the receive buffer of [serverClient] *)
  store : Ref -> BodyReader;
  next_ref : Ref;
  files : string -> FsEntry;
}.

Definition set_incoming (w : World) (i : list Buffer) : World :=
  mkWorld i (outgoing w) (destroyed w) (buf w) (store w) (next_ref w) (files w).
Definition set_outgoing (w : World) (o : list Buffer) : World :=
  mkWorld (incoming w) o (destroyed w) (buf w) (store w) (next_ref w) (files w).
Definition set_destroyed (w : World) : World :=
  mkWorld (incoming w) (outgoing w) true (buf w) (store w) (next_ref w) (files w).
Definition set_buf (w : World) (b : DynBuf) : World :=
  mkWorld (incoming w) (outgoing w) (destroyed w) b (store w) (next_ref w) (files w).
Definition set_reader (w : World) (r : Ref) (v : BodyReader) : World :=
  mkWorld (incoming w) (outgoing w) (destroyed w) (buf w)
          (fun r' => if Nat.eqb r' r then v else store w r') (next_ref w) (files w).
Definition new_reader (w : World) (v : BodyReader) : Ref * World :=
  (next_ref w,
   mkWorld (incoming w) (outgoing w) (destroyed w) (buf w)
           (fun r' => if Nat.eqb r' (next_ref w) then v else store w r')
           (S (next_ref w)) (files w)).

(** ** The monad of the server's code *)

(** A computation ends with a value, with an exception, or has not ended
    when the fuel of its loops ran out. *)
Inductive Res (A : Type) :=
| Ok (a : A)
| Throw (e : Failure)
| OutOfFuel.
Arguments Ok {A} a.
Arguments Throw {A} e.
Arguments OutOfFuel {A}.

Definition M (A : Type) : Type := World -> Res A * World.

Definition ret {A} (a : A) : M A := fun w => (Ok a, w).
Definition throw {A} (e : Failure) : M A := fun w => (Throw e, w).
Definition out_of_fuel {A} : M A := fun w => (OutOfFuel, w).
Definition bind {A B} (m : M A) (k : A -> M B) : M B :=
  fun w =>
    match m w with
    | (Ok a, w') => k a w'
    | (Throw e, w') => (Throw e, w')
    | (OutOfFuel, w') => (OutOfFuel, w')
    end.
Definition liftE {A} (r : Failure + A) : M A :=
  match r with inl e => throw e | inr a => ret a end.
Definition get_buf : M DynBuf := fun w => (Ok (buf w), w).
Definition put_buf (b : DynBuf) : M unit := fun w => (Ok tt, set_buf w b).

Declare Scope monad_scope.
Delimit Scope monad_scope with monad.
Notation "x <- m ;; k" := (bind m (fun x => k))
  (at level 100, m at next level, right associativity) : monad_scope.
Notation "m ;; k" := (bind m (fun _ => k))
  (at level 100, right associativity) : monad_scope.
Local Open Scope monad_scope.

(** ** The socket *)

(** The peer's side of the socket is the list of the chunks it sends
    before it ends the stream; errors of the transport are left out, so a
    write always succeeds. *)

(** [soRead(conn)]: the next chunk of the peer, empty at end of stream. *)
Definition soRead : M Buffer :=
  fun w =>
    match incoming w with
    | [] => (Ok [], w)
    | d :: rest => (Ok d, set_incoming w rest)
    end.

(** [soWrite(conn, data)]; its [console.assert] only logs. *)
Definition soWrite (d : Buffer) : M unit :=
  fun w => (Ok tt, set_outgoing w (outgoing w ++ [d])).

(** [bufPush] and [bufPop] on the connection's buffer. *)
Definition push (d : Buffer) : M unit :=
  fun w =>
    match bufPush (buf w) d with
    | (true, b) => (Ok tt, set_buf w b)
    | (false, b) => (Throw RangeError, set_buf w b)
    end.
Definition pop (n : Z) : M unit :=
  fun w => (Ok tt, set_buf w (bufPop (buf w) n)).

(** [bufExpectMore(conn, buf, context)] *)
Definition bufExpectMore (context : string) : M unit :=
  d <- soRead ;;
  push d ;;
  if blen d =? 0
  then throw (Error (strcat "Unexpected EOF while reading "
                            (strcat context ".")))
  else ret tt.

Definition kMaxHeaderLen : Z := 1024 * 8.

(** [cutMessage(buf)] *)
Definition cutMessage : M (option HTTPReq) :=
  b <- get_buf ;;
  let idx := indexOf (unread b) (Buffer_from (strcat CRLF CRLF)) in
  if idx <? 0 then
    if kMaxHeaderLen <=? buf_length b
    then throw (HTTPError 413 "header is too large")
    else ret None
  else
    msg <- liftE (parseHTTPReq (subarray (buf_data b) 0 (idx + 4))) ;;
    pop (idx + 4) ;;
    ret (Some msg).

(** ** Reading a body *)

(** One call of [next()] on the generator [readChunks(conn, buf)]: the
    code runs from where it stands to its next [yield] ([Some data]), to
    its end ([None]) or to an exception.  Every test of a loop takes one
    unit of fuel. *)
Fixpoint readChunks_next (fuel : nat) (pc : ChunkPC) (w : World)
  : Res (option Buffer) * ChunkPC * World :=
  match fuel with
  | O => (OutOfFuel, pc, w)
  | S fuel' =>
      match pc with
      | Finished => (Ok None, Finished, w)
      | AtFor last =>
          if last then (Ok None, Finished, w)
          else
            let idx := indexOf (unread (buf w)) crlf in
            if idx <? 0 then
              (* need more data, omitted ... continue *)
              readChunks_next fuel' (AtFor last) w
            else
              let chunkSizeLine := toString (subarray (buf_data (buf w)) 0 idx) in
              match parseInt chunkSizeLine 16 with
              | None => (Throw (Error "Invalid chunk size"), Finished, w)
              | Some remain =>
                  readChunks_next fuel' (AtWhile (remain =? 0) remain)
                    (set_buf w (bufPop (buf w) (idx + 2)))
              end
      | AtWhile last remain =>
          if 0 <? remain then
            match (if buf_length (buf w) =? 0
                   then bufExpectMore "chunk data" else ret tt) w with
            | (Ok _, w1) =>
                let consume := Z.min remain (buf_length (buf w1)) in
                let data := subarray (buf_data (buf w1)) 0 consume in
                (Ok (Some data), AtWhile last (remain - consume),
                 set_buf w1 (bufPop (buf w1) consume))
            | (Throw e, w1) => (Throw e, Finished, w1)
            | (OutOfFuel, w1) => (OutOfFuel, pc, w1)
            end
          else
            (* the chunk data is followed by CRLF; omitted ... *)
            readChunks_next fuel' (AtFor last) (set_buf w (bufPop (buf w) 2))
      end
  end.

(** [gen.next()] *)
Definition gen_next (fuel : nat) (g : BufferGenerator) (w : World)
  : Res (option Buffer) * BufferGenerator * World :=
  match g with
  | ReadChunks pc =>
      let '(r, pc', w') := readChunks_next fuel pc w in (r, ReadChunks pc', w')
  | CountSheep i =>
      if i <? 100
      then (Ok (Some (Buffer_from (strcat (decimal i) (String LF EmptyString)))),
            CountSheep (i + 1), w)
      else (Ok None, g, w)
  | Yields [] => (Ok None, g, w)
  | Yields (d :: rest) => (Ok (Some d), Yields rest, w)
  end.

Definition readerFromConnLength (remain : Z) : BodyReader :=
  ConnLengthReader remain remain.
Definition readerFromMemory (d : Buffer) : BodyReader := MemoryReader d false.
Definition readerFromGenerator (g : BufferGenerator) : BodyReader :=
  GeneratorReader g.
Definition readerFromStaticFile (fp : list Buffer) (size : Z) : BodyReader :=
  StaticFileReader size 0 fp.

(** [fp.read()]: the bytes read, empty at end of file. *)
Definition fp_read (fp : list Buffer) : Buffer * list Buffer :=
  match fp with
  | [] => ([], [])
  | d :: rest => (d, rest)
  end.

(** One call of [read()] on a reader in state [r]: the result, the
    reader's next state, and the world. *)
Definition readerRead (fuel : nat) (r : BodyReader) (w : World)
  : Res Buffer * BodyReader * World :=
  match r with
  | ConnLengthReader len remain =>
      if remain =? 0 then (Ok [], r, w)
      else
        match (if buf_length (buf w) =? 0
               then (d <- soRead ;;
                     push d ;;
                     if blen d =? 0
                     then throw (Error "Unexpected EOF from HTTP body")
                     else ret tt)
               else ret tt) w with
        | (Ok _, w1) =>
            let consume := Z.min (buf_length (buf w1)) remain in
            let data := subarray (buf_data (buf w1)) 0 consume in
            (Ok data, ConnLengthReader len (remain - consume),
             set_buf w1 (bufPop (buf w1) consume))
        | (Throw e, w1) => (Throw e, r, w1)
        | (OutOfFuel, w1) => (OutOfFuel, r, w1)
        end
  | MemoryReader d done =>
      if done then (Ok [], r, w) else (Ok d, MemoryReader d true, w)
  | GeneratorReader g =>
      match gen_next fuel g w with
      | (Ok None, g', w') => (Ok [], GeneratorReader g', w')
      | (Ok (Some v), g', w') => (Ok v, GeneratorReader g', w')
      | (Throw e, g', w') => (Throw e, GeneratorReader g', w')
      | (OutOfFuel, g', w') => (OutOfFuel, GeneratorReader g', w')
      end
  | StaticFileReader size got fp =>
      let '(bytes, fp') := fp_read fp in
      let got' := got + blen bytes in
      if (size <? got') || ((got' <? size) && (blen bytes =? 0))
      then (Throw (Error "file size changed, abandon it!"),
            StaticFileReader size got' fp', w)
      else (Ok bytes, StaticFileReader size got' fp', w)
  end.

(** Creating a reader object, and calling [read()] on one. *)
Definition alloc (v : BodyReader) : M Ref :=
  fun w => let '(r, w') := new_reader w v in (Ok r, w').

Definition read (fuel : nat) (r : Ref) : M Buffer :=
  fun w =>
    let '(res, v, w') := readerRead fuel (store w r) w in
    (res, set_reader w' r v).

Fixpoint buffer_eqb (a b : Buffer) : bool :=
  match a, b with
  | [], [] => true
  | x :: a', y :: b' => beq x y && buffer_eqb a' b'
  | _, _ => false
  end.

(** [readerFromReq(conn, buf, req)]: which reader a request gets. *)
Definition readerFromReq (req : HTTPReq) : Failure + BodyReader :=
  match
    match fieldGet (headers req) "Content-Length" with
    | Some contentLen =>
        match parseInt (toString contentLen) 0 with
        | Some n => inr n
        | None => inl (HTTPError 400 "Invalid Content-Length.")
        end
    | None => inr (-1)
    end
  with
  | inl e => inl e
  | inr bodyLen =>
      let bodyAllowed :=
        negb (streq (method req) "GET" || streq (method req) "HEAD") in
      let chunked :=
        match fieldGet (headers req) "Transfer-Encoding" with
        | Some v => buffer_eqb v (Buffer_from "chunked")
        | None => false
        end in
      if negb bodyAllowed && ((0 <? bodyLen) || chunked)
      then inl (HTTPError 400 "Body not allowed for this method.")
      else
        let bodyLen := if bodyAllowed then bodyLen else 0 in
        if 0 <=? bodyLen then inr (readerFromConnLength bodyLen)
        else if chunked then inr (readerFromGenerator (ReadChunks (AtFor false)))
        else inl (HTTPError 400 "Missing Content-Length or Transfer-Encoding.")
  end.

(** ** Responses *)

Record HTTPRes := mkHTTPRes {
  code : Z;
  resHeaders : list Buffer;
  body : Ref;
}.

(** [respError(code, message)] of HTTPError.ts *)
Definition respError (c : Z) (message : string) : M HTTPRes :=
  b <- alloc (readerFromMemory
                (Buffer_from (strcat (decimal c)
                   (strcat " " (strcat message (String LF EmptyString)))))) ;;
  ret (mkHTTPRes c [Buffer_from "Content-Type: text/plain"] b).

(** [serveStaticFile(path)]: a path that cannot be opened, one that is not
    a regular file, and a file with its size and the reads to come. *)
Definition serveStaticFile (path : string) : M HTTPRes :=
  fun w =>
    match files w path with
    | NoEntry => respError 400 "Not Found" w
    | NotAFile => respError 404 "Not a file" w
    | RegularFile size reads =>
        (b <- alloc (readerFromStaticFile reads size) ;;
         ret (mkHTTPRes 200 [] b)) w
    end.

(** [handleReq(req, body)].  The case ["/sheep"] has no [break]: its reader
    is created and the default case then replaces it. *)
Definition handleReq (req : HTTPReq) (reqBody : Ref) : M HTTPRes :=
  let u := toString (uri req) in
  if String.prefix "/files/" u then serveStaticFile (str_drop 7 u)
  else
    resp <- (if streq u "/echo" then ret reqBody
             else
               (if streq u "/sheep"
                then alloc (readerFromGenerator (CountSheep 0))
                else ret reqBody) ;;
               alloc (readerFromMemory
                        (Buffer_from (String.append "hello world."
                                        (String LF EmptyString))))) ;;
    ret (mkHTTPRes 200 [Buffer_from "Server: my_first_http_server"] resp).

(** [getStatusText(code)] *)
Definition getStatusText (c : Z) : string :=
  if c =? 200 then "OK"
  else if c =? 400 then "Bad Request"
  else if c =? 404 then "Not Found"
  else if c =? 413 then "Payload Too Large"
  else if c =? 500 then "Internal Server Error"
  else "Unknown".

(** [encodeHTTPResp(resp)], from the code and the header lines. *)
Definition encodeHTTPResp (c : Z) (hs : list Buffer) : Buffer :=
  let statusLine :=
    strcat "HTTP/1.1 "
      (strcat (decimal c) (strcat " " (strcat (getStatusText c) CRLF))) in
  Buffer_from
    (strcat (fold_left (fun acc h => strcat acc (strcat (toString h) CRLF))
                       hs statusLine)
            CRLF).

(** The loop of [writeHTTPResp] over the chunks of the body; [len] is
    [resp.body.length]. *)
Fixpoint writeBody (fuel : nat) (b : Ref) (len : Z) : M unit :=
  match fuel with
  | O => out_of_fuel
  | S fuel' =>
      d <- read fuel' b ;;
      let last := blen d =? 0 in
      let d' :=
        if len <? 0
        then Buffer_from (hex (blen d)) ++ crlf ++ d ++ crlf
        else d in
      (if negb (blen d' =? 0) then soWrite d' else ret tt) ;;
      if last then ret tt else writeBody fuel' b len
  end.

(** [writeHTTPResp(conn, resp)] *)
Definition writeHTTPResp (fuel : nat) (resp : HTTPRes) : M unit :=
  fun w =>
    let len := reader_length (store w (body resp)) in
    let hs :=
      resHeaders resp ++
      [if len <? 0
       then Buffer_from "Transfer-Encoding: chunked"
       else Buffer_from (strcat "Content-Length: " (decimal len))] in
    (soWrite (encodeHTTPResp (code resp) hs) ;;
     writeBody fuel (body resp) len) w.

(** ** The connection driver *)

(** [try { m } finally { f }] *)
Definition finally_ {A} (m : M A) (f : M unit) : M A :=
  fun w =>
    let '(r, w') := m w in
    match f w' with
    | (Ok _, w'') => (r, w'')
    | (Throw e, w'') => (Throw e, w'')
    | (OutOfFuel, w'') => (OutOfFuel, w'')
    end.

(** [res.body.close?.()]: only the file reader has a [close], which gives
    its handle back; the world keeps no account of open handles. *)
Definition closeReader (r : Ref) : M unit := ret tt.

(** [while ((await reqBody.read()).length > 0) {}] *)
Fixpoint drain (fuel : nat) (r : Ref) : M unit :=
  match fuel with
  | O => out_of_fuel
  | S fuel' =>
      d <- read fuel' r ;;
      if 0 <? blen d then drain fuel' r else ret tt
  end.

Inductive LoopCtl := Continue | Return.

(** One round of the [while (true)] of [serverClient]. *)
Definition serverClient_iter (fuel : nat) : M LoopCtl :=
  msg <- cutMessage ;;
  match msg with
  | None =>
      d <- soRead ;;
      push d ;;
      b <- get_buf ;;
      if (blen d =? 0) && (buf_length b =? 0) then ret Return
      else if blen d =? 0 then throw (HTTPError 400 "Unexpected EOF.")
      else ret Continue
  | Some msg =>
      rb <- liftE (readerFromReq msg) ;;
      reqBody <- alloc rb ;;
      res <- handleReq msg reqBody ;;
      finally_ (writeHTTPResp fuel res) (closeReader (body res)) ;;
      if streq (version msg) "1.0" then ret Return
      else (drain fuel reqBody ;; ret Continue)
  end.

Fixpoint serverClient_loop (fuel : nat) : M unit :=
  match fuel with
  | O => out_of_fuel
  | S fuel' =>
      c <- serverClient_iter fuel' ;;
      match c with
      | Return => ret tt
      | Continue => serverClient_loop fuel'
      end
  end.

(** [serverClient(conn)] *)
Definition serverClient (fuel : nat) : M unit :=
  put_buf (mkDynBuf (Buffer_alloc 0) 0) ;;
  serverClient_loop fuel.

(** The [catch] of [newConn]: a failure with a status code is answered on
    a best effort, and a failure of that answer is ignored. *)
Definition newConn_catch (fuel : nat) (e : Failure) : M unit :=
  match e with
  | HTTPError c message =>
      fun w =>
        match (b <- alloc (readerFromMemory
                             (Buffer_from (strcat message (String LF EmptyString)))) ;;
               writeHTTPResp fuel (mkHTTPRes c [] b)) w with
        | (OutOfFuel, w') => (OutOfFuel, w')
        | (_, w') => (Ok tt, w')
        end
  | Error _ => ret tt
  end.

(** What [newConn] does once [serverClient] has ended: the [catch], and
    [socket.destroy()] in the [finally]. *)
Definition newConn_finish (fuel : nat) (r : Res unit * World)
  : Res unit * World :=
  match r with
  | (Ok _, w1) => (Ok tt, set_destroyed w1)
  | (Throw e, w1) =>
      match newConn_catch fuel e w1 with
      | (OutOfFuel, w2) => (OutOfFuel, w2)
      | (r', w2) => (r', set_destroyed w2)
      end
  | (OutOfFuel, w1) => (OutOfFuel, w1)
  end.

(** [newConn(socket)] *)
Definition newConn (fuel : nat) : M unit :=
  fun w => newConn_finish fuel (serverClient fuel w).

(** A fresh connection on which the peer will send [reads]. *)
Definition connect (reads : list Buffer) (fs : string -> FsEntry) : World :=
  mkWorld reads [] false emptyBuf (fun _ => readerFromMemory []) O fs.

Definition no_files : string -> FsEntry := fun _ => NoEntry.

(** ** Harness: worlds, repeated reads, and the inputs of the examples *)

(** The world [w] once [d] has arrived in its receive buffer. *)
Definition with_buffered (w : World) (d : Buffer) : World :=
  set_buf w (snd (bufPush (buf w) d)).

(** [k] calls of [read()] in a row on a reader: the results in order, the
    reader's last state and the world. *)
Fixpoint readMany (fuel : nat) (k : nat) (r : BodyReader) (w : World)
  : list (Res Buffer) * BodyReader * World :=
  match k with
  | O => ([], r, w)
  | S k' =>
      let '(res, r1, w1) := readerRead fuel r w in
      let '(rs, r2, w2) := readMany fuel k' r1 w1 in
      (res :: rs, r2, w2)
  end.

(** The number of bytes a list of results handed out. *)
Fixpoint yielded (rs : list (Res Buffer)) : Z :=
  match rs with
  | [] => 0
  | Ok d :: rs' => blen d + yielded rs'
  | _ :: rs' => yielded rs'
  end.

(** Pulling a body to its end: the chunks before the first empty one. *)
Fixpoint pullAll (fuel : nat) (r : Ref) : M (list Buffer) :=
  match fuel with
  | O => out_of_fuel
  | S fuel' =>
      d <- read fuel' r ;;
      if blen d =? 0 then ret []
      else (rest <- pullAll fuel' r ;; ret (d :: rest))
  end.

(** The bytes [writeHTTPResp] puts on the wire after the header block for
    a body of unknown length that yields [items]. *)
Definition chunked_encode (fuel : nat) (items : list Buffer)
  : Res unit * list Buffer :=
  let '(r, w) :=
    (b <- alloc (readerFromGenerator (Yields items)) ;;
     writeHTTPResp fuel (mkHTTPRes 200 [] b)) (connect [] no_files) in
  (r, tl (outgoing w)).

(** The chunks the decoder of [readChunks] hands out when [bytes] are in
    the receive buffer. *)
Definition chunked_decode (fuel : nat) (bytes : Buffer)
  : Res (list Buffer) :=
  fst ((b <- alloc (readerFromGenerator (ReadChunks (AtFor false))) ;;
        pullAll fuel b)
       (with_buffered (connect [] no_files) bytes)).

(** A non-negative decimal numeral, in the words of the specification: one
    or more of the digits 0-9, read in base ten. *)
Definition is_digit (c : ascii) : bool :=
  (48 <=? char_code c) && (char_code c <=? 57).

Fixpoint all_digits (s : string) : bool :=
  match s with
  | EmptyString => true
  | String c s' => is_digit c && all_digits s'
  end.

Fixpoint digits_value (s : string) (acc : Z) : Z :=
  match s with
  | EmptyString => acc
  | String c s' => digits_value s' (acc * 10 + (char_code c - 48))
  end.

Definition decimal_numeral (s : string) : option Z :=
  if negb (is_empty_string s) && all_digits s
  then Some (digits_value s 0) else None.

(** The separator of header block and body. *)
Definition boundary : Buffer := Buffer_from (strcat CRLF CRLF).

Definition line (s : string) : string := strcat s CRLF.

(** Two HTTP/1.0 requests arriving in one read. *)
Definition two_http10_requests : Buffer :=
  Buffer_from (strcat (line "GET / HTTP/1.0") (strcat CRLF
              (strcat (line "GET / HTTP/1.0") CRLF))).

Definition hello_response : list Buffer :=
  [ Buffer_from (strcat (line "HTTP/1.1 200 OK")
       (strcat (line "Server: my_first_http_server")
       (strcat (line "Content-Length: 13") CRLF)));
    Buffer_from (strcat "hello world." (String LF EmptyString)) ].

(** A chunked body whose first size line is cut by the end of a read:
    ["5"] is buffered, and CR LF "hello" CR LF "0" CR LF CR LF comes next. *)
Definition split_size_line : World :=
  with_buffered
    (connect [Buffer_from (strcat CRLF (strcat (line "hello")
                            (strcat (line "0") CRLF)))] no_files)
    (Buffer_from "5").

(** A chunked body cut after the data of its first chunk: ["1" CR LF "a"]
    is buffered, and CR LF "0" CR LF CR LF comes next. *)
Definition split_after_data : World :=
  with_buffered
    (connect [Buffer_from (strcat CRLF (strcat (line "0") CRLF))] no_files)
    (Buffer_from (strcat (line "1") "a")).

Definition chunked_reader : BodyReader :=
  readerFromGenerator (ReadChunks (AtFor false)).

Definition post_with_length (m : string) (v : string) : HTTPReq :=
  mkHTTPReq m (Buffer_from "/") "HTTP/1.1"
            [Buffer_from (strcat "Content-Length: " v)].


(** A file of three bytes that grows by two after its end was reached. *)
Definition growing_file : BodyReader :=
  readerFromStaticFile [Buffer_from "abc"; []; Buffer_from "de"] 3.

(** A run of buffer operations that makes the store grow. *)
Definition sample_ops : list BufOp :=
  [ Append (Buffer_from "hello");
    Consume 2;
    Append (Buffer_from "0123456789012345678901234567890123456789");
    Consume 43;
    Append (Buffer_from "tail") ].

(** A buffer of 8191 unread bytes and one of 8192, without a boundary. *)
Definition zeros_buffered (n : Z) : World :=
  with_buffered (connect [] no_files) (Buffer_alloc n).

(** A peer that sends ["ab"], then ["cdefg"], then closes. *)
Definition seven_bytes_then_eof : World :=
  connect [Buffer_from "ab"; Buffer_from "cdefg"] no_files.

(** What [parseInt] leaves of [s] once leading white space and a sign are
    gone does not begin with a decimal digit. *)
Definition strip_sign (s : string) : string :=
  match s with
  | String c r => if Ascii.eqb c "-" || Ascii.eqb c "+" then r else s
  | EmptyString => s
  end.

Definition leads_with_digit (s : string) : bool :=
  match s with
  | String c _ => is_digit c
  | EmptyString => false
  end.

Definition starts_numeric (s : string) : bool :=
  leads_with_digit (strip_sign (trimStart s)).

(** A generator that has reported [done]. *)
Definition gen_done (g : BufferGenerator) : Prop :=
  match g with
  | ReadChunks pc => pc = Finished
  | CountSheep i => 100 <= i
  | Yields items => items = []
  end.

(** [read()] on [r] in world [w] returned the empty buffer that stands for
    the end of the body, leaving the reader as [r'] and the world as [w']:
    for a reader over a generator, the generator reported [done]. *)
Definition read_ended (fuel : nat) (r : BodyReader) (w : World)
           (r' : BodyReader) (w' : World) : Prop :=
  match r with
  | GeneratorReader g =>
      exists g', gen_next fuel g w = (Ok None, g', w') /\ r' = GeneratorReader g'
  | _ => readerRead fuel r w = (Ok [], r', w')
  end.

(** The file behind a file reader has no more bytes to give: its handle
    reports end of file from now on. *)
Definition file_at_rest (r : BodyReader) : Prop :=
  match r with
  | StaticFileReader _ _ fp => Forall (fun d => d = []) fp
  | _ => True
  end.

(** The state of a reader that has reached the end of its body. *)
Definition at_eof (r : BodyReader) : Prop :=
  match r with
  | ConnLengthReader _ remain => remain = 0
  | MemoryReader _ done => done = true
  | GeneratorReader g => gen_done g
  | StaticFileReader size got fp => got = size /\ Forall (fun d => d = []) fp
  end.

Definition small_file : BodyReader :=
  readerFromStaticFile [Buffer_from "abc"] 3.

(** ** What a computation does to the log of writes *)

(** [m] writes nothing. *)
Definition quiet {A} (m : M A) : Prop :=
  forall w r w', m w = (r, w') -> outgoing w' = outgoing w.




(** A chunked request to /echo whose first chunk-size line is not
    hexadecimal. *)
Definition bad_chunk_size_request : Buffer :=
  Buffer_from (strcat (line "POST /echo HTTP/1.1")
              (strcat (line "Transfer-Encoding: chunked")
              (strcat CRLF (line "zz")))).

(** ** Further vocabulary for the properties of parser, writer and driver *)

(** Whether CR LF occurs in a buffer. *)
Fixpoint has_crlf (l : Buffer) : bool :=
  match l with
  | [] => false
  | b :: t =>
      match t with
      | [] => false
      | b' :: _ => (beq b x0d && beq b' x0a) || has_crlf t
      end
  end.

(** Whether the character [c] occurs in a string. *)
Fixpoint has_char (c : ascii) (s : string) : bool :=
  match s with
  | EmptyString => false
  | String c' s' => Ascii.eqb c' c || has_char c s'
  end.

(** Lines joined for the wire: each followed by CR LF. *)
Definition join_lines (lines : list Buffer) : Buffer :=
  List.concat (map (fun l => l ++ crlf) lines).

(** A request header with a blank line after it, and bytes that follow. *)
Definition get_then_rest : World :=
  with_buffered (connect [] no_files)
    (Buffer_from (strcat (line "GET / HTTP/1.1")
                 (strcat (line "Host: x") (strcat CRLF "rest")))).

(** The request line and the header block of a request, as sent. *)
Definition request_line (m u v : string) : Buffer :=
  Buffer_from (strcat m (String " " (strcat u (String " " v)))).

Definition header_block (m u v : string) (fields : list Buffer) : Buffer :=
  join_lines (request_line m u v :: fields) ++ crlf.

(** A string of 7-bit characters.  On these, decoding a buffer as UTF-8
    and encoding a string as UTF-8 move no byte, and white space and
    letters are those of ASCII. *)
Fixpoint ascii7 (s : string) : bool :=
  match s with
  | EmptyString => true
  | String c s' => (char_code c <? 128) && ascii7 s'
  end.

(** A 7-bit string whose lower case is the same in every locale: one
    without the capital I. *)
Definition locale_free (s : string) : bool :=
  ascii7 s && negb (has_char "I" s).

(** A line that has a colon, and not as its first byte. *)
Definition colon_inside (l : Buffer) : bool :=
  match l with
  | [] => false
  | h :: t => negb (beq h x3a) && existsb (fun b => beq b x3a) t
  end.

(** What the loop over the header lines of [parseHTTPReq] asks of the
    lines: each is empty or has a colon that is not its first byte. *)
Definition fields_ok (lines : list Buffer) : bool :=
  forallb (fun l => (blen l =? 0) || colon_inside l) lines.

Definition nonempty_lines (lines : list Buffer) : list Buffer :=
  filter (fun l => 0 <? blen l) lines.

(** A header line [name ":" value]. *)
Definition field (name value : string) : Buffer :=
  Buffer_from (strcat name (String ":" value)).

(** A field name as [fieldGet] can find it: not empty, without colon. *)
Definition field_name_ok (name : string) : bool :=
  negb (is_empty_string name) && negb (has_char ":" name).

(** Two characters that are the same up to the case of a letter: equal,
    or both letters of A-Z, a-z whose codes are 32 apart. *)
Definition is_letter (c : ascii) : bool :=
  let n := char_code c in
  ((65 <=? n) && (n <=? 90)) || ((97 <=? n) && (n <=? 122)).

Definition same_letter (a b : ascii) : bool :=
  Ascii.eqb a b
  || (is_letter a && is_letter b
      && (Z.abs (char_code a - char_code b) =? 32)).

Fixpoint same_letters (a b : string) : bool :=
  match a, b with
  | EmptyString, EmptyString => true
  | String x a', String y b' => same_letter x y && same_letters a' b'
  | _, _ => false
  end.

(** The white space of ASCII: TAB, LF, VT, FF, CR and SP. *)
Definition is_white (c : ascii) : bool :=
  let n := char_code c in ((9 <=? n) && (n <=? 13)) || (n =? 32).

Fixpoint all_white (s : string) : bool :=
  match s with
  | EmptyString => true
  | String c s' => is_white c && all_white s'
  end.

(** A string with no white space at either end. *)
Fixpoint ends_white (s : string) : bool :=
  match s with
  | EmptyString => false
  | String c EmptyString => is_white c
  | String _ s' => ends_white s'
  end.

Definition tight (s : string) : bool :=
  match s with
  | EmptyString => true
  | String c _ => negb (is_white c) && negb (ends_white s)
  end.

(** A header field as it is sent: the name, a colon, and the value with
    white space before and after it. *)
Record HeaderField := mkHeaderField {
  f_name : string;
  f_lead : string;
  f_value : string;
  f_trail : string;
}.

Definition field_line (f : HeaderField) : Buffer :=
  field (f_name f) (strcat (f_lead f) (strcat (f_value f) (f_trail f))).

Definition field_ok (f : HeaderField) : bool :=
  field_name_ok (f_name f) && locale_free (f_name f)
  && all_white (f_lead f) && all_white (f_trail f)
  && ascii7 (f_value f) && tight (f_value f).

(** The value of the first field whose name is [key] up to the case of
    letters. *)
Fixpoint find_field (fs : list HeaderField) (key : string) : option string :=
  match fs with
  | [] => None
  | f :: rest =>
      if same_letters (f_name f) key then Some (f_value f)
      else find_field rest key
  end.

Definition sample_fields : list HeaderField :=
  [ mkHeaderField "Host" " " "example.org" EmptyString;
    mkHeaderField "content-length" (String "009" " ") "5" " ";
    mkHeaderField "Content-Length" EmptyString "7" EmptyString ].

(** [m] adds only buffers that are not empty to the log of writes: the
    assertion of [soWrite] holds at every call. *)
Definition writes_nonempty {A} (m : M A) : Prop :=
  forall w r w', m w = (r, w') ->
  exists more, outgoing w' = outgoing w ++ more /\
               Forall (fun d => 0 < blen d) more.

(** A chunk on the wire, as [writeHTTPResp] frames it. *)
Definition chunk (d : Buffer) : Buffer :=
  Buffer_from (hex (blen d)) ++ crlf ++ d ++ crlf.

(** The chunks of a body before its first empty one. *)
Fixpoint sent_chunks (items : list Buffer) : list Buffer :=
  match items with
  | [] => []
  | d :: rest => if blen d =? 0 then [] else d :: sent_chunks rest
  end.

(** A world with a response whose body is a reader in the store. *)
Definition world_with_reader (v : BodyReader) : World :=
  snd (new_reader (connect [] no_files) v).

Definition three_chunks : list Buffer :=
  [Buffer_from "ab"; Buffer_from "cde"; []; Buffer_from "never sent"].

(** The bytes of a list of chunks. *)
Definition total_bytes (chunks : list Buffer) : Z := blen (List.concat chunks).

(** A world whose file system holds one entry, at [path]. *)
Definition one_file (path : string) (e : FsEntry) : string -> FsEntry :=
  fun p => if streq p path then e else NoEntry.

Definition file_chunks : list Buffer :=
  [Buffer_from "<html>"; Buffer_from "hi"; Buffer_from "</html>"].

(** A reader that does not touch socket or receive buffer: every reader
    but the two over the connection. *)
Definition detached (v : BodyReader) : Prop :=
  match v with
  | ConnLengthReader _ _ => False
  | GeneratorReader (ReadChunks _) => False
  | _ => True
  end.

(** A reader that keeps the receive buffer within its invariant: every
    reader but the chunked decoder (the length-bounded one with a count
    that is not negative). *)
Definition calm (v : BodyReader) : Prop :=
  match v with
  | ConnLengthReader _ remain => 0 <= remain
  | GeneratorReader (ReadChunks _) => False
  | _ => True
  end.

(** The invariant of a round whose readers are calm. *)
Definition calm_round (b0 b1 : Ref) (w : World) : Prop :=
  buf_wf (buf w) /\ calm (store w b0) /\ calm (store w b1).


(** The bytes a connection still has to deliver, in order: those unread in
    the receive buffer, then those of the reads to come. *)
Definition stream (w : World) : Buffer :=
  unread (buf w) ++ List.concat (incoming w).

(** The bytes a list of results handed out, in order. *)
Fixpoint handed_out (rs : list (Res Buffer)) : Buffer :=
  match rs with
  | [] => []
  | Ok d :: rs' => d ++ handed_out rs'
  | _ :: rs' => handed_out rs'
  end.

(** A chunk as it may come on the wire: a size line [s], CR LF, the data
    and CR LF.  The chunk that [writeHTTPResp] writes for [d] is
    [wire_chunk (hex (blen d)) d]. *)
Definition wire_chunk (s : string) (d : Buffer) : Buffer :=
  Buffer_from s ++ crlf ++ d ++ crlf.

(** A size line that holds no CR and that [parseInt] reads, in radix 16,
    as [n]. *)
Definition size_line_ok (s : string) (n : Z) : Prop :=
  parseInt s 16 = Some n /\ has_char CR s = false.

(** A chunked body: chunks with data, then the terminal chunk with size
    line [s0]. *)
Definition chunked_body (chunks : list (string * Buffer)) (s0 : string)
  : Buffer :=
  List.concat (map (fun p => wire_chunk (fst p) (snd p)) chunks)
  ++ wire_chunk s0 [].

(** Where the decoder of [readChunks] stands between two chunks: at the
    head of its [for] loop before [body], or behind the data of a chunk
    with that chunk's CR LF and [body] still unread. *)
Definition at_chunk (pc : ChunkPC) (u body : Buffer) : Prop :=
  (pc = AtFor false /\ u = body) \/ (pc = AtWhile false 0 /\ u = crlf ++ body).

(** The value of a hexadecimal numeral read from the left, [acc] being the
    value of the digits already read. *)
Fixpoint uint_value (u : Hexadecimal.uint) (acc : Z) : Z :=
  match u with
  | Hexadecimal.Nil => acc
  | Hexadecimal.D0 l => uint_value l (acc * 16 + 0)
  | Hexadecimal.D1 l => uint_value l (acc * 16 + 1)
  | Hexadecimal.D2 l => uint_value l (acc * 16 + 2)
  | Hexadecimal.D3 l => uint_value l (acc * 16 + 3)
  | Hexadecimal.D4 l => uint_value l (acc * 16 + 4)
  | Hexadecimal.D5 l => uint_value l (acc * 16 + 5)
  | Hexadecimal.D6 l => uint_value l (acc * 16 + 6)
  | Hexadecimal.D7 l => uint_value l (acc * 16 + 7)
  | Hexadecimal.D8 l => uint_value l (acc * 16 + 8)
  | Hexadecimal.D9 l => uint_value l (acc * 16 + 9)
  | Hexadecimal.Da l => uint_value l (acc * 16 + 10)
  | Hexadecimal.Db l => uint_value l (acc * 16 + 11)
  | Hexadecimal.Dc l => uint_value l (acc * 16 + 12)
  | Hexadecimal.Dd l => uint_value l (acc * 16 + 13)
  | Hexadecimal.De l => uint_value l (acc * 16 + 14)
  | Hexadecimal.Df l => uint_value l (acc * 16 + 15)
  end.

(** A chunked body of two chunks, the second with a chunk extension, and
    the first bytes of a next request behind it. *)
Definition two_chunks : list (string * Buffer) :=
  [("5"%string, Buffer_from "hello"); ("A;x=1"%string, Buffer_from "0123456789")].

Definition two_chunks_buffered : World :=
  with_buffered (connect [] no_files)
                (chunked_body two_chunks "0" ++ Buffer_from "GET").

(** A request for /sheep with a body of three bytes, all in the buffer,
    and the first bytes of a next request behind it. *)
Definition post_sheep_buffered : World :=
  with_buffered (connect [] no_files)
    (Buffer_from (strcat (line "POST /sheep HTTP/1.1")
                 (strcat (line "Content-Length: 3") (strcat CRLF "abcGET")))).

(** A request for /echo with a body of five bytes, all in the buffer, and
    the first bytes of a next request behind it. *)
Definition post_echo_buffered : World :=
  with_buffered (connect [] no_files)
    (Buffer_from (strcat (line "POST /echo HTTP/1.1")
                 (strcat (line "Content-Length: 5") (strcat CRLF "helloGET")))).

(** The two writes of the answer that [respError] builds for status [c]
    and message [message]: header block and body. *)
Definition respError_writes (c : Z) (message : string) : list Buffer :=
  let b := Buffer_from (strcat (decimal c)
             (strcat " " (strcat message (String LF EmptyString)))) in
  [ encodeHTTPResp c
      [Buffer_from "Content-Type: text/plain";
       Buffer_from (strcat "Content-Length: " (decimal (blen b)))];
    b ].

(** A request for the file a.html in the buffer, the file system holding
    entry [e] for that name. *)
Definition get_file_buffered (e : FsEntry) : World :=
  with_buffered (connect [] (one_file "a.html" e))
    (Buffer_from (strcat (line "GET /files/a.html HTTP/1.1") CRLF)).



(** * The line echo server of echo.ts

    echo.ts has its own copies of [bufPush], [bufPop], [soRead] and
    [soWrite], the same as those of index.ts, and its own [cutMessage],
    [serverClient] and [newConn]. *)

Module Echo.

(** [cutMessage(buf)]: a line with its line feed, if one is complete. *)
Definition cutMessage : M (option Buffer) :=
  b <- get_buf ;;
  let idx := indexOf (unread b) (Buffer_from (String LF EmptyString)) in
  if idx <? 0 then ret None
  else
    let msg := subarray (buf_data b) 0 (idx + 1) in
    pop (idx + 1) ;;
    ret (Some msg).

(** [socket.destroy()] *)
Definition destroy : M unit := fun w => (Ok tt, set_destroyed w).

(** One round of the [while (true)] of [serverClient]. *)
Definition serverClient_iter : M LoopCtl :=
  msg <- cutMessage ;;
  match msg with
  | None =>
      d <- soRead ;;
      push d ;;
      if blen d =? 0 then ret Return else ret Continue
  | Some msg =>
      if buffer_eqb msg (Buffer_from (strcat "quit" (String LF EmptyString)))
      then (soWrite (Buffer_from (strcat "Bye." (String LF EmptyString))) ;;
            destroy ;;
            ret Return)
      else (soWrite (Buffer_from "Echo: " ++ msg) ;;
            ret Continue)
  end.

Fixpoint serverClient_loop (fuel : nat) : M unit :=
  match fuel with
  | O => out_of_fuel
  | S fuel' =>
      c <- serverClient_iter ;;
      match c with
      | Return => ret tt
      | Continue => serverClient_loop fuel'
      end
  end.

(** [serverClient(socket)] *)
Definition serverClient (fuel : nat) : M unit :=
  put_buf (mkDynBuf (Buffer_alloc 0) 0) ;;
  serverClient_loop fuel.

(** [newConn(socket)]: a failure is logged, and the socket destroyed in
    any case. *)
Definition newConn (fuel : nat) : M unit :=
  fun w =>
    match serverClient fuel w with
    | (OutOfFuel, w1) => (OutOfFuel, w1)
    | (_, w1) => (Ok tt, set_destroyed w1)
    end.

End Echo.






(** A chunked request for /echo with its body of two chunks in the buffer,
    and the first bytes of a next request behind it. *)
Definition chunked_echo_buffered : World :=
  with_buffered (connect [] no_files)
    (Buffer_from (strcat (line "POST /echo HTTP/1.1")
                 (strcat (line "Transfer-Encoding: chunked") CRLF))
     ++ chunked_body two_chunks "0" ++ Buffer_from "GET").




(** * Properties *)

(** Splitting a conjunction without unfolding what it is made of. *)
Ltac splits := repeat match goal with |- _ /\ _ => split end.

(** ** Buffers *)

Lemma blen_nonneg (b : Buffer) : 0 <= blen b.
Proof. unfold blen; lia. Qed.

Lemma blen_app (a b : Buffer) : blen (a ++ b) = blen a + blen b.
Proof. unfold blen; rewrite length_app; lia. Qed.

Lemma blen_firstn (n : nat) (b : Buffer) :
  blen (firstn n b) = Z.min (Z.of_nat n) (blen b).
Proof. unfold blen; rewrite length_firstn; lia. Qed.

Lemma blen_skipn (n : nat) (b : Buffer) :
  blen (skipn n b) = Z.max 0 (blen b - Z.of_nat n).
Proof. unfold blen; rewrite length_skipn; lia. Qed.

Lemma blen_alloc (n : Z) : blen (Buffer_alloc n) = Z.max 0 n.
Proof. unfold blen, Buffer_alloc; rewrite repeat_length; lia. Qed.

Lemma relIndex_in (len i : Z) : 0 <= i <= len -> relIndex len i = i.
Proof. unfold relIndex; intros H; destruct (Z.ltb_spec i 0); lia. Qed.

Lemma copy_fits (src tgt : Buffer) (ts : Z) :
  0 <= ts -> ts + blen src <= blen tgt ->
  copy src tgt ts =
  Some (firstn (Z.to_nat ts) tgt ++ src
        ++ skipn (Z.to_nat (ts + blen src)) tgt).
Proof.
  intros H0 H1; unfold copy.
  destruct (Z.ltb_spec ts 0); [lia|].
  pose proof (blen_nonneg src) as Hs.
  destruct (Z.leb_spec (blen tgt) ts) as [Hle|Hlt].
  - assert (Hsrc : src = []).
    { destruct src; [reflexivity|]. unfold blen in *; simpl in *; lia. }
    subst src; simpl. rewrite Z.add_0_r.
    now rewrite firstn_skipn.
  - rewrite Z.min_l by lia.
    unfold blen at 1. rewrite Nat2Z.id, firstn_all. reflexivity.
Qed.

Lemma unread_wf (buf : DynBuf) :
  buf_wf buf -> unread buf = firstn (Z.to_nat (buf_length buf)) (buf_data buf).
Proof.
  unfold buf_wf, capacity, unread, subarray; intros H.
  rewrite (relIndex_in _ 0), relIndex_in by lia.
  now rewrite Z.sub_0_r.
Qed.

Lemma blen_unread (buf : DynBuf) : buf_wf buf -> blen (unread buf) = buf_length buf.
Proof.
  intros H; rewrite unread_wf by assumption.
  unfold buf_wf, capacity in H. rewrite blen_firstn; lia.
Qed.

Lemma grow_spec (fuel : nat) :
  forall cap newLen, 1 <= cap -> newLen - cap <= Z.of_nat fuel ->
  exists k : nat,
    grow fuel cap newLen = cap * 2 ^ Z.of_nat k /\
    newLen <= grow fuel cap newLen /\
    (k = O \/ cap * 2 ^ (Z.of_nat k - 1) < newLen).
Proof.
  induction fuel as [|fuel IH]; intros cap newLen Hc Hf; simpl.
  - exists O; simpl; lia.
  - destruct (Z.ltb_spec cap newLen) as [Hlt|Hge].
    + destruct (IH (cap * 2) newLen) as (k & Hk & Hfit & Hmin); [lia|lia|].
      exists (S k). rewrite Hk. repeat split.
      * rewrite Nat2Z.inj_succ, Z.pow_succ_r by lia. ring.
      * rewrite <- Hk; exact Hfit.
      * right. replace (Z.of_nat (S k) - 1) with (Z.of_nat k) by lia.
        destruct k as [|k']; [simpl; lia|].
        destruct Hmin as [Hk0|Hmin]; [discriminate|].
        replace (Z.of_nat (S k') - 1) with (Z.of_nat k') in Hmin by lia.
        rewrite Nat2Z.inj_succ, Z.pow_succ_r by lia.
        replace (cap * (2 * 2 ^ Z.of_nat k')) with (cap * 2 * 2 ^ Z.of_nat k') by ring.
        exact Hmin.
    + exists O; simpl; lia.
Qed.

(** [bufPush] on a well-formed buffer: it does not fail, appends to the
    unread bytes, and grows the store by doubling only. *)
Lemma bufPush_spec (buf : DynBuf) (d : Buffer) :
  buf_wf buf ->
  exists buf', bufPush buf d = (true, buf') /\ buf_wf buf' /\
    unread buf' = unread buf ++ d /\
    buf_length buf' = buf_length buf + blen d /\
    cap_step (capacity buf) (buf_length buf + blen d) (capacity buf').
Proof.
  intros Hwf. pose proof Hwf as [Hl0 Hl1]. unfold capacity in Hl1.
  pose proof (blen_nonneg d) as Hd.
  unfold bufPush.
  set (newLen := buf_length buf + blen d).
  set (data1 := if blen (buf_data buf) <? newLen then _ else _).
  assert (H1 : firstn (Z.to_nat (buf_length buf)) data1
               = firstn (Z.to_nat (buf_length buf)) (buf_data buf)
             /\ newLen <= blen data1
             /\ cap_step (blen (buf_data buf)) newLen (blen data1)).
  { subst data1. destruct (Z.ltb_spec (blen (buf_data buf)) newLen) as [Hlt|Hge].
    - destruct (grow_spec (Z.to_nat newLen) (Z.max (blen (buf_data buf)) 32) newLen)
        as (k & Hk & Hfit & Hmin); [lia|lia|].
      set (cap := grow _ _ _) in *.
      rewrite (copy_fits (buf_data buf) (Buffer_alloc cap) 0)
        by (rewrite ?blen_alloc; lia).
      simpl firstn. simpl app. repeat split.
      + rewrite firstn_app.
        replace (Z.to_nat (buf_length buf) - List.length (buf_data buf))%nat with O
          by (unfold blen in *; lia).
        simpl. now rewrite app_nil_r.
      + rewrite blen_app, blen_skipn, blen_alloc. lia.
      + right. split; [exact Hlt|]. exists k.
        rewrite blen_app, blen_skipn, blen_alloc.
        split; [lia|split; [lia|]].
        destruct Hmin as [->|Hmin]; [now left|right; lia].
    - repeat split; try lia. left; lia. }
  destruct H1 as (Hpre & Hfit & Hcap).
  rewrite (copy_fits d data1 (buf_length buf)) by (fold newLen; lia).
  eexists; split; [reflexivity|].
  assert (Hlen : blen (firstn (Z.to_nat (buf_length buf)) data1 ++ d
                       ++ skipn (Z.to_nat (buf_length buf + blen d)) data1)
                 = blen data1).
  { rewrite !blen_app, blen_firstn, blen_skipn. fold newLen. lia. }
  repeat split; simpl.
  - lia.
  - unfold capacity; simpl. rewrite Hlen. fold newLen; lia.
  - rewrite !unread_wf; simpl.
    + rewrite Hpre, app_assoc, firstn_app.
      rewrite firstn_all2.
      2:{ rewrite length_app, length_firstn. unfold blen in *; lia. }
      replace (_ - _)%nat with O.
      2:{ rewrite length_app, length_firstn. unfold blen in *. lia. }
      simpl. now rewrite app_nil_r.
    + exact Hwf.
    + unfold buf_wf, capacity; simpl. rewrite Hlen. fold newLen; lia.
  - unfold capacity; simpl. rewrite Hlen. exact Hcap.
Qed.

(** [bufPop] within the unread bytes removes a prefix and keeps the store's
    size. *)
Lemma bufPop_spec (buf : DynBuf) (n : Z) :
  buf_wf buf -> 0 <= n <= buf_length buf ->
  buf_wf (bufPop buf n) /\
  unread (bufPop buf n) = skipn (Z.to_nat n) (unread buf) /\
  buf_length (bufPop buf n) = buf_length buf - n /\
  capacity (bufPop buf n) = capacity buf.
Proof.
  intros Hwf Hn. pose proof Hwf as [Hl0 Hl1]. unfold capacity in Hl1.
  assert (Hcw : blen (copyWithin (buf_data buf) 0 n (buf_length buf))
                = blen (buf_data buf)
              /\ firstn (Z.to_nat (buf_length buf - n))
                   (copyWithin (buf_data buf) 0 n (buf_length buf))
                 = skipn (Z.to_nat n)
                     (firstn (Z.to_nat (buf_length buf)) (buf_data buf))).
  { unfold copyWithin.
    rewrite (relIndex_in _ 0), (relIndex_in _ n), (relIndex_in _ (buf_length buf))
      by lia.
    rewrite Z.sub_0_r, Z.min_l by lia.
    destruct (Z.ltb_spec 0 (buf_length buf - n)) as [Hpos|Hz].
    - simpl. split.
      + rewrite blen_app, blen_firstn, !blen_skipn. lia.
      + rewrite firstn_app, firstn_firstn, Nat.min_id.
        rewrite length_firstn, length_skipn.
        replace (_ - _)%nat with O by (unfold blen in *; lia).
        simpl. rewrite app_nil_r.
        rewrite skipn_firstn_comm. f_equal. lia.
    - split; [reflexivity|].
      replace (buf_length buf - n) with 0 by lia. simpl.
      rewrite skipn_all2; [reflexivity|].
      rewrite length_firstn. lia. }
  destruct Hcw as [Hlen Hpre].
  assert (Hwf' : buf_wf (bufPop buf n)).
  { unfold buf_wf, capacity, bufPop; simpl. rewrite Hlen; lia. }
  repeat split; try (apply Hwf').
  - rewrite !unread_wf by assumption. simpl. exact Hpre.
  - unfold capacity, bufPop; simpl. exact Hlen.
Qed.

(** C8.  For every sequence of append and consume operations in which each
    consume asks for at most the bytes then unread, no operation fails and
    after each one the buffer's logical contents are those of the reference
    model (concatenation for append, prefix removal for consume); the store
    keeps its size on a consume and on an append that fits, and otherwise
    becomes the old size raised to the floor of 32 and doubled the least
    number of times that makes the data fit. *)
Theorem bufPush_bufPop_follow_model (ops : list BufOp) :
  forall buf : DynBuf,
  buf_wf buf -> consumes_ok ops (unread buf) ->
  run_agrees ops buf (unread buf).
Proof.
  induction ops as [|op ops IH]; intros buf Hwf Hok; simpl; [exact I|].
  destruct Hok as [Hop Hok].
  destruct op as [d|n]; simpl in *.
  - destruct (bufPush_spec buf d Hwf) as (buf' & -> & Hwf' & Hun & _ & Hcap).
    split; [assumption|split; [assumption|split; [assumption|]]].
    rewrite <- Hun. apply IH; [assumption|]. now rewrite Hun.
  - rewrite blen_unread in Hop by assumption.
    destruct (bufPop_spec buf n Hwf Hop) as (Hwf' & Hun & _ & Hcap).
    split; [assumption|split; [assumption|split; [assumption|]]].
    rewrite <- Hun. apply IH; [assumption|]. now rewrite Hun.
Qed.

Lemma bufPush_bufPop_follow_model_witness :
  buf_wf emptyBuf /\ consumes_ok sample_ops (unread emptyBuf) /\
  run_agrees sample_ops emptyBuf (unread emptyBuf).
Proof.
  assert (Hwf : buf_wf emptyBuf) by (vm_compute; intuition discriminate).
  assert (Hok : consumes_ok sample_ops (unread emptyBuf))
    by (vm_compute; intuition discriminate).
  split; [exact Hwf|split; [exact Hok|]].
  exact (bufPush_bufPop_follow_model sample_ops emptyBuf Hwf Hok).
Defined.

(** ** The chunked decoder *)

(** With no CR LF among the unread bytes the [for] loop of [readChunks]
    takes its [continue] without touching buffer or socket, so it comes
    back to the same test in the same state, whatever the fuel. *)
Lemma readChunks_next_no_line (fuel : nat) (w : World) :
  indexOf (unread (buf w)) crlf < 0 ->
  readChunks_next fuel (AtFor false) w = (OutOfFuel, AtFor false, w).
Proof.
  intros H. induction fuel as [|fuel IH]; simpl; [reflexivity|].
  destruct (Z.ltb_spec (indexOf (unread (buf w)) crlf) 0); [exact IH|lia].
Qed.

(** C1 (the code departs from the claim).  With the size line ["5"] of a
    well-formed chunked body buffered and its CR LF still to come, a call
    of [read()] on the chunked reader does not end, whatever the fuel, and
    leaves the world as it was: nothing is pulled from the connection. *)
Theorem readChunks_split_size_line_never_reads (fuel : nat) :
  readerRead fuel chunked_reader split_size_line
  = (OutOfFuel, chunked_reader, split_size_line)
  /\ incoming split_size_line <> [].
Proof.
  split; [|discriminate].
  unfold chunked_reader, readerFromGenerator, readerRead, gen_next.
  rewrite readChunks_next_no_line; [reflexivity|].
  vm_compute. reflexivity.
Qed.

(** After the data of a chunk the decoder pops two bytes whatever the
    buffer holds: with fewer than two unread bytes the logical length
    becomes negative. *)
Lemma readChunks_next_pops_unchecked (fuel : nat) (last : bool) (remain : Z)
      (w : World) :
  remain <= 0 -> buf_length (buf w) < 2 ->
  readChunks_next (S fuel) (AtWhile last remain) w
  = readChunks_next fuel (AtFor last) (set_buf w (bufPop (buf w) 2))
  /\ buf_length (buf (set_buf w (bufPop (buf w) 2))) < 0.
Proof.
  intros Hr Hl. cbn [readChunks_next].
  destruct (Z.ltb_spec 0 remain); [lia|].
  split; [reflexivity|]. simpl. lia.
Qed.

(** C5 (the code departs from the claim).  With ["1" CR LF "a"] buffered
    and the rest of the body still to come, the first [read()] hands out
    ["a"] and empties the buffer; the second one begins with
    [bufPop(buf, 2)] on that empty buffer, which leaves the logical length
    at -2 (seen with fuel for one loop test), and then hands out 27 bytes
    of the store instead of the body's end. *)
Theorem readChunks_pops_crlf_from_empty_buffer :
  let '(res1, r1, w1) := readerRead 5 chunked_reader split_after_data in
  let '(_, _, w2) := readerRead 1 r1 w1 in
  let '(res3, _, _) := readerRead 9 r1 w1 in
  res1 = Ok (Buffer_from "a") /\
  buf_length (buf w1) = 0 /\
  r1 = GeneratorReader (ReadChunks (AtWhile false 0)) /\
  buf_length (buf w2) = -2 /\
  ~ buf_wf (buf w2) /\
  exists garbage, res3 = Ok garbage /\ blen garbage = 27.
Proof.
  vm_compute. repeat split.
  - intros [H _]. apply H. reflexivity.
  - eexists. split; reflexivity.
Qed.

(** C4, as stated, fails: the bytes written for the body
    ["ab"], [""], ["cde"] do not decode to ["ab"], ["cde"]. *)
Lemma chunked_roundtrip_loses_cde :
  chunked_decode 20
    (List.concat (snd (chunked_encode 10
                    [Buffer_from "ab"; []; Buffer_from "cde"])))
  <> Ok [Buffer_from "ab"; Buffer_from "cde"].
Proof. vm_compute. discriminate. Qed.

(** C4, amended.  For the body ["ab"], [""], ["cde"] the chunked writer
    sends the chunk of ["ab"] and then, taking the empty chunk for the end
    of the body, the terminal chunk; ["cde"] is never sent.  Decoding
    these bytes hands out ["ab"] and then the end of the body. *)
Theorem chunked_roundtrip_stops_at_empty_chunk :
  chunked_encode 10 [Buffer_from "ab"; []; Buffer_from "cde"]
  = (Ok tt, [Buffer_from (strcat (line "2") (line "ab"));
             Buffer_from (strcat (line "0") CRLF)])
  /\ chunked_decode 20
       (List.concat (snd (chunked_encode 10
                       [Buffer_from "ab"; []; Buffer_from "cde"])))
     = Ok [Buffer_from "ab"].
Proof. split; vm_compute; reflexivity. Qed.

(** ** The connection driver *)

(** C2 (the code departs from the claim).  The parser stores the version
    token as it is on the wire, ["HTTP/1.0"], and the driver compares it
    with ["1.0"]: of two HTTP/1.0 requests that arrive in one read, both
    are answered on the same connection. *)
Theorem http10_connection_is_kept_open :
  option_map version
    (match parseHTTPReq (Buffer_from (strcat (line "GET / HTTP/1.0") CRLF)) with
     | inr req => Some req
     | inl _ => None
     end) = Some "HTTP/1.0"%string
  /\ streq "HTTP/1.0" "1.0" = false
  /\ let '(r, w) := newConn 20 (connect [two_http10_requests] no_files) in
     r = Ok tt /\ outgoing w = hello_response ++ hello_response.
Proof. vm_compute. repeat split. Qed.

(** ** Finding the end of the header block *)

Lemma beq_eq (a b : byte) : beq a b = true <-> a = b.
Proof.
  unfold beq; split; [apply Byte.byte_dec_bl|apply Byte.byte_dec_lb].
Qed.

Lemma starts_with_spec (needle hay : Buffer) :
  starts_with needle hay = true <-> exists post, hay = needle ++ post.
Proof.
  revert hay; induction needle as [|n needle IH]; intros hay; simpl.
  - split; [intros _; now exists hay|reflexivity].
  - destruct hay as [|h hay].
    + split; [discriminate|intros [post H]; discriminate].
    + rewrite andb_true_iff, beq_eq, IH. split.
      * intros [-> [post ->]]. now exists post.
      * intros [post H]. injection H as -> ->. split; [reflexivity|now exists post].
Qed.

Lemma indexOf_from_range (needle hay : Buffer) :
  forall i, 0 <= i ->
  indexOf_from needle hay i = -1 \/
  i <= indexOf_from needle hay i <= i + blen hay.
Proof.
  induction hay as [|h hay IH]; intros i Hi; simpl.
  - destruct (starts_with needle []); [right; unfold blen; simpl; lia|now left].
  - destruct (starts_with needle (h :: hay)).
    + right. pose proof (blen_nonneg (h :: hay)). lia.
    + destruct (IH (i + 1)) as [H|H]; [lia|now left|right].
      unfold blen in *; simpl List.length. lia.
Qed.

Lemma indexOf_from_none (needle hay : Buffer) :
  forall i, 0 <= i ->
  (indexOf_from needle hay i < 0 <->
   forall pre post, hay <> pre ++ needle ++ post).
Proof.
  induction hay as [|h hay IH]; intros i Hi; simpl.
  - destruct (starts_with needle []) eqn:E.
    + split; [lia|]. intros H. exfalso.
      apply starts_with_spec in E as [post E]. apply (H [] post). exact E.
    + split; [|lia]. intros _ pre post H.
      assert (E' : starts_with needle [] = true).
      { apply starts_with_spec. destruct pre; [now exists post|discriminate]. }
      congruence.
  - destruct (starts_with needle (h :: hay)) eqn:E.
    + split; [lia|]. intros H. exfalso.
      apply starts_with_spec in E as [post E]. apply (H [] post). exact E.
    + rewrite (IH (i + 1)) by lia. split.
      * intros H pre post Heq. destruct pre as [|p pre].
        -- assert (E' : starts_with needle (h :: hay) = true)
             by (apply starts_with_spec; now exists post).
           congruence.
        -- injection Heq as _ Heq. exact (H pre post Heq).
      * intros H pre post Heq. apply (H (h :: pre) post).
        simpl. now rewrite Heq.
Qed.

(** [indexOf] answers -1 exactly when the needle occurs nowhere. *)
Lemma indexOf_none (needle hay : Buffer) :
  indexOf hay needle < 0 <->
  forall pre post, hay <> pre ++ needle ++ post.
Proof. unfold indexOf. apply indexOf_from_none. lia. Qed.

(** C7.  For every well-formed buffer whose unread bytes hold no
    CR LF CR LF, [cutMessage] fails with the 413 error when at least 8192
    bytes are unread, and otherwise answers [null] (need more data); in
    both cases it leaves the buffer as it was. *)
Theorem cutMessage_without_boundary (w : World) :
  buf_wf (buf w) ->
  (forall pre post, unread (buf w) <> pre ++ boundary ++ post) ->
  cutMessage w =
  (if 8192 <=? blen (unread (buf w))
   then (Throw (HTTPError 413 "header is too large"), w)
   else (Ok None, w)).
Proof.
  intros Hwf Hno. apply indexOf_none in Hno.
  rewrite blen_unread by assumption.
  unfold cutMessage, bind, get_buf. fold boundary.
  destruct (Z.ltb_spec (indexOf (unread (buf w)) boundary) 0); [|lia].
  change kMaxHeaderLen with 8192.
  destruct (8192 <=? buf_length (buf w)); reflexivity.
Qed.

Lemma cutMessage_without_boundary_witness :
  cutMessage (zeros_buffered 8191) = (Ok None, zeros_buffered 8191) /\
  cutMessage (zeros_buffered 8192)
  = (Throw (HTTPError 413 "header is too large"), zeros_buffered 8192).
Proof.
  assert (Hwf : forall n, n = 8191 \/ n = 8192 -> buf_wf (buf (zeros_buffered n))).
  { intros n [->| ->]; vm_compute; intuition discriminate. }
  assert (Hno : forall n, n = 8191 \/ n = 8192 ->
            forall pre post,
              unread (buf (zeros_buffered n)) <> pre ++ boundary ++ post).
  { intros n [->| ->]; apply indexOf_none; vm_compute; reflexivity. }
  split.
  - rewrite (cutMessage_without_boundary (zeros_buffered 8191)
               (Hwf _ (or_introl eq_refl)) (Hno _ (or_introl eq_refl))).
    vm_compute. reflexivity.
  - rewrite (cutMessage_without_boundary (zeros_buffered 8192)
               (Hwf _ (or_intror eq_refl)) (Hno _ (or_intror eq_refl))).
    vm_compute. reflexivity.
Defined.

(** ** The length-bounded reader *)

Lemma blen_subarray_prefix (b : Buffer) (n : Z) :
  0 <= n <= blen b -> blen (subarray b 0 n) = n.
Proof.
  intros H. unfold subarray.
  rewrite (relIndex_in _ 0), relIndex_in by lia.
  simpl. rewrite blen_firstn. lia.
Qed.

(** Reading once from the socket into the buffer, failing with [e] at end
    of stream: the shape shared by [bufExpectMore] and the length-bounded
    reader. *)
Lemma expect_more_spec (e : Failure) (w : World) :
  buf_wf (buf w) ->
  let m := (d <- soRead ;; push d ;; if blen d =? 0 then throw e else ret tt) in
  exists d b', bufPush (buf w) d = (true, b') /\ buf_wf b' /\
    buf_length b' = buf_length (buf w) + blen d /\
    d = hd [] (incoming w) /\
    m w = (if blen d =? 0 then Throw e else Ok tt,
           set_buf (set_incoming w (tl (incoming w))) b').
Proof.
  intros Hwf m. subst m. unfold bind, soRead, push.
  destruct (incoming w) as [|d rest] eqn:Ein; simpl.
  - destruct (bufPush_spec (buf w) [] Hwf) as (b' & Hp & Hwf' & _ & Hl & _).
    exists [], b'. rewrite Hp. splits; try assumption; try reflexivity.
    simpl. unfold throw. f_equal. unfold set_buf, set_incoming. simpl.
    rewrite Ein. reflexivity.
  - destruct (bufPush_spec (buf w) d Hwf) as (b' & Hp & Hwf' & _ & Hl & _).
    exists d, b'. simpl. rewrite Hp. splits; try assumption; try reflexivity.
    destruct (blen d =? 0); reflexivity.
Qed.

Section LengthBounded.

Variable fuel : nat.
Variable len : Z.

(** One [read()] of the length-bounded reader over a well-formed buffer. *)
Lemma readerRead_ConnLength (remain : Z) (w : World) :
  buf_wf (buf w) -> 0 <= remain ->
  exists res n w',
    readerRead fuel (ConnLengthReader len remain) w
    = (res, ConnLengthReader len (remain - n), w') /\
    buf_wf (buf w') /\ outgoing w' = outgoing w /\
    ((exists d, res = Ok d /\ blen d = n /\ 0 <= n <= remain /\
                (0 < remain -> 0 < n) /\
                (0 < remain -> buf_length (buf w) = 0 ->
                 0 < blen (hd [] (incoming w)))) \/
     (res = Throw (Error "Unexpected EOF from HTTP body") /\ n = 0 /\
      0 < remain /\ buf_length (buf w) = 0 /\ blen (hd [] (incoming w)) = 0)).
Proof.
  intros Hwf Hr. unfold readerRead.
  destruct (Z.eqb_spec remain 0) as [->|Hne].
  - exists (Ok []), 0, w. rewrite Z.sub_0_r.
    splits; try assumption; try reflexivity.
    left. exists []. splits; try reflexivity; lia.
  - assert (Hfill : exists r1 w1,
              (if buf_length (buf w) =? 0
               then (d <- soRead ;; push d ;;
                     if blen d =? 0
                     then throw (Error "Unexpected EOF from HTTP body")
                     else ret tt)
               else ret tt) w = (r1, w1) /\
              buf_wf (buf w1) /\ outgoing w1 = outgoing w /\
              ((r1 = Ok tt /\ 0 < buf_length (buf w1) /\
                (buf_length (buf w) = 0 -> 0 < blen (hd [] (incoming w)))) \/
               (r1 = Throw (Error "Unexpected EOF from HTTP body") /\
                buf_length (buf w) = 0 /\ blen (hd [] (incoming w)) = 0))).
    { destruct (Z.eqb_spec (buf_length (buf w)) 0) as [Hz|Hnz].
      - destruct (expect_more_spec (Error "Unexpected EOF from HTTP body") w Hwf)
          as (d & b' & _ & Hwf' & Hl & Hd & Hm).
        cbv zeta in Hm. rewrite Hm.
        eexists _, _. split; [reflexivity|].
        split; [exact Hwf'|]. split; [reflexivity|].
        pose proof (blen_nonneg d).
        destruct (Z.eqb_spec (blen d) 0) as [Hd0|Hd0].
        + right. subst d. splits; try assumption; reflexivity.
        + left. subst d. splits; [reflexivity|simpl; lia|lia].
      - exists (Ok tt), w. splits; try assumption; try reflexivity.
        left. destruct Hwf. splits; [reflexivity|lia|lia]. }
    destruct Hfill as (r1 & w1 & -> & Hwf1 & Hout & [(-> & Hpos & Hin)|(-> & Hz & Hd)]).
    + set (consume := Z.min (buf_length (buf w1)) remain).
      assert (Hc : 0 < consume <= buf_length (buf w1)) by (subst consume; lia).
      destruct (bufPop_spec (buf w1) consume Hwf1) as (Hwf2 & _); [lia|].
      eexists _, consume, _. split; [reflexivity|].
      split; [exact Hwf2|]. split; [exact Hout|].
      left. eexists. split; [reflexivity|].
      split; [|subst consume; splits; try lia; intros; apply Hin; assumption].
      apply blen_subarray_prefix. destruct Hwf1. unfold capacity in *. lia.
    + exists (Throw (Error "Unexpected EOF from HTTP body")), 0, w1.
      rewrite Z.sub_0_r. splits; try assumption; try reflexivity.
      right. splits; try assumption; try reflexivity. lia.
Qed.

(** Any number of reads of a length-bounded reader: what was handed out
    and what remains add up to the declared length. *)
Lemma readMany_ConnLength (k : nat) :
  forall remain w,
  buf_wf (buf w) -> 0 <= remain ->
  exists rs w',
    readMany fuel k (ConnLengthReader len remain) w
    = (rs, ConnLengthReader len (remain - yielded rs), w') /\
    buf_wf (buf w') /\ 0 <= yielded rs <= remain.
Proof.
  induction k as [|k IH]; intros remain w Hwf Hr; cbn [readMany].
  - exists [], w. simpl. rewrite Z.sub_0_r. splits; try assumption; try reflexivity; lia.
  - destruct (readerRead_ConnLength remain w Hwf Hr)
      as (res & n & w1 & -> & Hwf1 & _ & Hres).
    assert (Hn : 0 <= n <= remain).
    { destruct Hres as [(d & _ & _ & Hn & _)|(_ & -> & Hn & _)]; lia. }
    destruct (IH (remain - n) w1 Hwf1) as (rs & w' & -> & Hwf' & Hy); [lia|].
    exists (res :: rs), w'.
    assert (Hsum : yielded (res :: rs) = n + yielded rs).
    { destruct Hres as [(d & -> & <- & _)|(-> & -> & _)]; simpl; lia. }
    rewrite Hsum. replace (remain - (n + yielded rs)) with (remain - n - yielded rs) by lia.
    splits; try assumption; try reflexivity; lia.
Qed.

End LengthBounded.



(** ** The end of a body *)

Lemma readChunks_next_done (fuel : nat) :
  forall pc w pc' w',
  readChunks_next fuel pc w = (Ok None, pc', w') -> pc' = Finished.
Proof.
  induction fuel as [|fuel IH]; intros pc w pc' w' H; simpl in H; [discriminate|].
  destruct pc as [last|last remain|].
  - destruct last; [now inversion H|].
    destruct (indexOf (unread (buf w)) crlf <? 0); [now apply IH in H|].
    destruct (parseInt _ 16); [now apply IH in H|discriminate].
  - destruct (0 <? remain); [|now apply IH in H].
    match type of H with
    | (let (_, _) := ?X in _) = _ => destruct X as [[[]|e|] w1]
    end; discriminate.
  - now inversion H.
Qed.

Lemma gen_next_done (fuel : nat) (g : BufferGenerator) (w : World)
      (g' : BufferGenerator) (w' : World) :
  gen_next fuel g w = (Ok None, g', w') -> gen_done g'.
Proof.
  destruct g as [pc|i|items]; simpl.
  - destruct (readChunks_next fuel pc w) as [[r pc'] w1] eqn:E.
    intros H; inversion H; subst. simpl. eapply readChunks_next_done; eauto.
  - destruct (Z.ltb_spec i 100) as [Hi|Hi]; intros H; inversion H; subst.
    simpl; lia.
  - destruct items; intros H; inversion H; subst. reflexivity.
Qed.

Lemma ConnLength_empty_read (fuel : nat) (len remain : Z) (w : World)
      (r' : BodyReader) (w' : World) :
  buf_wf (buf w) ->
  readerRead fuel (ConnLengthReader len remain) w = (Ok [], r', w') ->
  r' = ConnLengthReader len 0.
Proof.
  intros Hwf H.
  destruct (Z.lt_trichotomy remain 0) as [Hneg|[->|Hpos]].
  - unfold readerRead in H.
    destruct (Z.eqb_spec remain 0); [lia|].
    assert (Hfill : forall r1 w1,
              (if buf_length (buf w) =? 0
               then (d <- soRead ;; push d ;;
                     if blen d =? 0
                     then throw (Error "Unexpected EOF from HTTP body")
                     else ret tt)
               else ret tt) w = (Ok r1, w1) -> 0 <= buf_length (buf w1)).
    { intros r1 w1. destruct (buf_length (buf w) =? 0).
      - destruct (expect_more_spec (Error "Unexpected EOF from HTTP body") w Hwf)
          as (d & b' & _ & Hwf' & _ & _ & Hm).
        cbv zeta in Hm. rewrite Hm. intros E; inversion E; subst.
        simpl. apply Hwf'.
      - intros E; inversion E; subst. apply Hwf. }
    match type of H with
    | (let (_, _) := ?X in _) = _ => destruct X as [[[]|e|] w1] eqn:E
    end; try discriminate.
    specialize (Hfill _ _ eq_refl).
    inversion H; subst. f_equal. lia.
  - simpl in H. inversion H. reflexivity.
  - destruct (readerRead_ConnLength fuel len remain w Hwf)
      as (res & n & w1 & E & _ & _ & Hres); [lia|].
    rewrite E in H. inversion H; subst.
    destruct Hres as [(d & Hd & Hn & _ & Hp & _)|(Hd & _)]; [|discriminate].
    inversion Hd; subst d. specialize (Hp Hpos).
    unfold blen in *; simpl in *. lia.
Qed.

(** A reader whose read returned the end of the body is at its end. *)
Lemma read_ended_at_eof (fuel : nat) (r : BodyReader) (w : World)
      (r' : BodyReader) (w' : World) :
  buf_wf (buf w) -> read_ended fuel r w r' w' -> file_at_rest r' -> at_eof r'.
Proof.
  intros Hwf H Hfile.
  destruct r as [len remain|d done|g|size got fp]; unfold read_ended in H.
  - apply ConnLength_empty_read in H; [|assumption]. subst. reflexivity.
  - simpl in H. destruct done; inversion H; subst; reflexivity.
  - destruct H as (g' & H & ->). simpl. eapply gen_next_done; eauto.
  - unfold readerRead in H. destruct (fp_read fp) as [bytes fp'].
    destruct ((size <? got + blen bytes)
              || ((got + blen bytes <? size) && (blen bytes =? 0))) eqn:E;
      [discriminate|].
    inversion H; subst. simpl in *. split; [|assumption].
    apply orb_false_iff in E as [E1 E2].
    apply andb_false_iff in E2.
    unfold blen in *; simpl in *. lia.
Qed.

(** At its end a reader returns the empty buffer and stays at its end. *)
Lemma at_eof_read (fuel : nat) (r : BodyReader) (w : World) :
  at_eof r ->
  exists r', readerRead (S fuel) r w = (Ok [], r', w) /\ at_eof r'.
Proof.
  destruct r as [len remain|d done|g|size got fp]; simpl; intros H.
  - subst. eexists; split; reflexivity.
  - subst. eexists; split; reflexivity.
  - destruct g as [pc|i|items]; simpl in *.
    + subst. eexists; split; reflexivity.
    + destruct (Z.ltb_spec i 100); [lia|]. eexists; split; [reflexivity|assumption].
    + subst. eexists; split; reflexivity.
  - destruct H as [-> Hfp].
    assert (E0 : blen [] = 0) by reflexivity.
    destruct fp as [|d fp']; simpl.
    + rewrite E0, Z.add_0_r, Z.ltb_irrefl. simpl.
      eexists; split; [reflexivity|]. now split.
    + inversion Hfp; subst. simpl.
      rewrite E0, Z.add_0_r, Z.ltb_irrefl. simpl.
      eexists; split; [reflexivity|]. now split.
Qed.

(** C10, as stated, fails for the file reader: after the empty buffer of
    the file's end, a file that has grown makes the next [read()] fail. *)
Lemma file_reader_fails_after_end :
  fst (fst (readMany 1 3 growing_file (connect [] no_files)))
  = [Ok (Buffer_from "abc"); Ok [];
     Throw (Error "file size changed, abandon it!")].
Proof. vm_compute. reflexivity. Qed.

(** C10, amended.  Once [read()] has returned the empty buffer that stands
    for the end of the body (for a reader over a generator: the generator
    reported done), every later [read()] returns the empty buffer, for the
    length-bounded reader over a well-formed buffer, the in-memory reader
    and the generator-backed readers, and for the file reader as long as
    the file has no more bytes to give. *)
Theorem end_of_body_is_stable (fuel : nat) (r : BodyReader) (w : World)
        (r' : BodyReader) (w' : World) :
  buf_wf (buf w) -> read_ended fuel r w r' w' -> file_at_rest r' ->
  forall (k fuel2 : nat) (w2 : World),
    Forall (fun res => res = Ok [])
           (fst (fst (readMany (S fuel2) k r' w2))).
Proof.
  intros Hwf H Hfile k fuel2 w2.
  pose proof (read_ended_at_eof fuel r w r' w' Hwf H Hfile) as Heof.
  clear - Heof. revert r' Heof.
  induction k as [|k IH]; intros r' Heof; cbn [readMany]; [constructor|].
  destruct (at_eof_read fuel2 r' w2 Heof) as (r2 & -> & Heof2).
  specialize (IH r2 Heof2).
  destruct (readMany (S fuel2) k r2 w2) as [[rs r3] w3].
  simpl in *. constructor; [reflexivity|assumption].
Qed.

Lemma end_of_body_is_stable_witness :
  let '(_, r1, w1) := readerRead 1 small_file (connect [] no_files) in
  let '(_, r2, w2) := readerRead 1 r1 w1 in
  buf_wf (buf w1) /\ read_ended 1 r1 w1 r2 w2 /\ file_at_rest r2 /\
  Forall (fun res => res = Ok [])
         (fst (fst (readMany 2 3 r2 (connect [] no_files)))).
Proof.
  cbv beta iota zeta delta [small_file readerFromStaticFile readerRead fp_read
                            fst snd blen List.length].
  simpl.
  assert (Hwf : buf_wf (buf (connect [] no_files)))
    by (vm_compute; intuition discriminate).
  assert (Hend : read_ended 1 (StaticFileReader 3 3 []) (connect [] no_files)
                   (StaticFileReader 3 3 []) (connect [] no_files))
    by reflexivity.
  assert (Hrest : file_at_rest (StaticFileReader 3 3 [])) by constructor.
  splits; try assumption.
  exact (end_of_body_is_stable 1 _ _ _ _ Hwf Hend Hrest 3%nat 1%nat
           (connect [] no_files)).
Defined.

(** ** Content-Length *)

Lemma is_digit_not_space (c : ascii) : is_digit c = true -> is_space c = false.
Proof.
  unfold is_digit, is_space. intros H.
  apply andb_true_iff in H as [H1 H2].
  apply Z.leb_le in H1, H2.
  destruct (Z.leb_spec 9 (char_code c)), (Z.leb_spec (char_code c) 13),
    (Z.eqb_spec (char_code c) 32), (Z.eqb_spec (char_code c) 160);
    simpl; try reflexivity; lia.
Qed.

Lemma is_digit_not_char (c x : ascii) :
  is_digit c = true -> is_digit x = false -> Ascii.eqb c x = false.
Proof.
  intros Hc Hx. destruct (Ascii.eqb_spec c x); [congruence|reflexivity].
Qed.

Lemma digit_value_digit (c : ascii) :
  is_digit c = true -> digit_value c = Some (char_code c - 48).
Proof. unfold is_digit, digit_value. intros ->. reflexivity. Qed.

Lemma digit_value_below_ten (c : ascii) (d : Z) :
  digit_value c = Some d -> d < 10 -> is_digit c = true.
Proof.
  unfold digit_value, is_digit.
  destruct ((48 <=? char_code c) && (char_code c <=? 57)); [reflexivity|].
  destruct ((97 <=? char_code c) && (char_code c <=? 122)) eqn:E1.
  { apply andb_true_iff in E1 as [E1 _]. apply Z.leb_le in E1.
    intros H; inversion H; lia. }
  destruct ((65 <=? char_code c) && (char_code c <=? 90)) eqn:E2; [|discriminate].
  apply andb_true_iff in E2 as [E2 _]. apply Z.leb_le in E2.
  intros H; inversion H; lia.
Qed.

Lemma parse_digits_all (s : string) :
  forall acc, all_digits s = true ->
  parse_digits 10 s acc =
  match s with
  | EmptyString => acc
  | String _ _ =>
      Some (digits_value s (match acc with Some a => a | None => 0 end))
  end.
Proof.
  induction s as [|c s IH]; intros acc H; [reflexivity|].
  cbn [all_digits] in H. apply andb_true_iff in H as [Hc Hs].
  cbn [parse_digits digits_value]. rewrite (digit_value_digit c Hc).
  assert (Hlt : (char_code c - 48 <? 10) = true).
  { apply Z.ltb_lt. unfold is_digit in Hc.
    apply andb_true_iff in Hc as [_ Hc]. apply Z.leb_le in Hc. lia. }
  rewrite Hlt, (IH _ Hs).
  destruct s; destruct acc; reflexivity.
Qed.

Lemma digits_value_nonneg (s : string) :
  forall acc, 0 <= acc -> all_digits s = true -> 0 <= digits_value s acc.
Proof.
  induction s as [|c s IH]; intros acc Ha H; cbn [digits_value]; [exact Ha|].
  cbn [all_digits] in H. apply andb_true_iff in H as [Hc Hs].
  apply IH; [|exact Hs]. unfold is_digit in Hc.
  apply andb_true_iff in Hc as [Hc _]. apply Z.leb_le in Hc. lia.
Qed.

Lemma parse_sign_digit (s : string) :
  leads_with_digit s = true -> parse_sign s = (false, s).
Proof.
  destruct s as [|c r]; [discriminate|]. simpl. intros Hc.
  now rewrite (is_digit_not_char c "-" Hc eq_refl),
              (is_digit_not_char c "+" Hc eq_refl).
Qed.

Lemma parse_sign_strip (s : string) : snd (parse_sign s) = strip_sign s.
Proof.
  destruct s as [|c r]; [reflexivity|]. simpl.
  destruct (Ascii.eqb c "-"); [reflexivity|].
  destruct (Ascii.eqb c "+"); reflexivity.
Qed.

Lemma parse_radix_all_digits (s : string) :
  all_digits s = true -> parse_radix 0 s = (10, s).
Proof.
  unfold parse_radix. cbn [Z.eqb orb].
  destruct s as [|c0 [|c1 r]]; try reflexivity.
  cbn [all_digits]. intros H.
  apply andb_true_iff in H as [_ H]. apply andb_true_iff in H as [Hc1 _].
  rewrite (is_digit_not_char c1 "x" Hc1 eq_refl),
          (is_digit_not_char c1 "X" Hc1 eq_refl).
  now rewrite andb_false_r.
Qed.

Lemma parse_radix_no_digit (s : string) :
  leads_with_digit s = false -> parse_radix 0 s = (10, s).
Proof.
  unfold parse_radix. cbn [Z.eqb orb].
  destruct s as [|c0 [|c1 r]]; try reflexivity.
  simpl leads_with_digit. intros H.
  assert (H0 : Ascii.eqb c0 "0" = false).
  { destruct (Ascii.eqb_spec c0 "0"); [subst; discriminate|reflexivity]. }
  now rewrite H0.
Qed.

Lemma parse_digits_no_digit (s : string) :
  leads_with_digit s = false -> parse_digits 10 s None = None.
Proof.
  destruct s as [|c r]; [reflexivity|]. simpl leads_with_digit. intros H.
  cbn [parse_digits]. destruct (digit_value c) as [d|] eqn:Ed; [|reflexivity].
  destruct (Z.ltb_spec d 10); [|reflexivity].
  rewrite (digit_value_below_ten c d Ed) in H by assumption. discriminate.
Qed.

(** [parseInt] reads a decimal numeral as its value. *)
Lemma parseInt_decimal_numeral (s : string) (N : Z) :
  decimal_numeral s = Some N -> parseInt s 0 = Some N /\ 0 <= N.
Proof.
  unfold decimal_numeral. destruct s as [|c s]; [discriminate|].
  simpl negb. cbn [andb]. destruct (all_digits (String c s)) eqn:Hall; [|discriminate].
  intros H.
  assert (HN : N = digits_value (String c s) 0) by congruence.
  clear H. subst N.
  split; [|apply (digits_value_nonneg (String c s) 0); [lia|exact Hall]].
  pose proof Hall as Hall'. cbn [all_digits] in Hall'.
  apply andb_true_iff in Hall' as [Hc Hs].
  unfold parseInt. cbn [trimStart]. rewrite (is_digit_not_space c Hc).
  rewrite (parse_sign_digit (String c s) Hc).
  cbn [Z.eqb negb andb].
  rewrite (parse_radix_all_digits _ Hall), (parse_digits_all _ None Hall).
  reflexivity.
Qed.

(** [parseInt] answers NaN when no digit leads. *)
Lemma parseInt_not_numeric (s : string) :
  starts_numeric s = false -> parseInt s 0 = None.
Proof.
  unfold starts_numeric, parseInt. intros H.
  rewrite <- parse_sign_strip in H.
  destruct (parse_sign (trimStart s)) as [neg s2]. simpl snd in H.
  cbn [Z.eqb negb andb].
  rewrite (parse_radix_no_digit s2 H), (parse_digits_no_digit s2 H).
  reflexivity.
Qed.

(** C6, as stated, fails: a value that is no decimal numeral can be
    accepted (["12abc"] is read as 12), and a numeral does not always give
    a length-bounded reader (GET with ["5"] is refused). *)
Lemma content_length_not_strict :
  ~ (forall req v,
       fieldGet (headers req) "Content-Length" = Some v ->
       decimal_numeral (toString v) = None ->
       exists m, readerFromReq req = inl (HTTPError 400 m))
  /\
  ~ (forall req v N,
       fieldGet (headers req) "Content-Length" = Some v ->
       decimal_numeral (toString v) = Some N ->
       readerFromReq req = inr (readerFromConnLength N)).
Proof.
  split; intros H.
  - destruct (H (post_with_length "POST" "12abc") (Buffer_from "12abc")
                eq_refl eq_refl) as [m Hm].
    vm_compute in Hm. discriminate.
  - specialize (H (post_with_length "GET" "5") (Buffer_from "5") 5
                  eq_refl eq_refl).
    vm_compute in H. discriminate.
Qed.

(** C6, amended.  When a Content-Length field is present: a value that,
    after leading white space and an optional sign, does not begin with a
    decimal digit fails with the 400 error "Invalid Content-Length."; and
    for a method other than GET and HEAD, a value that is a decimal
    numeral [N] gives a length-bounded reader over [N] bytes ([N] within
    the integers that a JavaScript number holds exactly). *)
Theorem readerFromReq_content_length (req : HTTPReq) (v : Buffer) :
  fieldGet (headers req) "Content-Length" = Some v ->
  (starts_numeric (toString v) = false ->
   readerFromReq req = inl (HTTPError 400 "Invalid Content-Length.")) /\
  (forall N, decimal_numeral (toString v) = Some N ->
             N <= 2 ^ 53 ->
             streq (method req) "GET" = false ->
             streq (method req) "HEAD" = false ->
             readerFromReq req = inr (ConnLengthReader N N)).
Proof.
  intros Hf. unfold readerFromReq. rewrite Hf. split.
  - intros H. now rewrite (parseInt_not_numeric _ H).
  - intros N HN _ Hg Hh.
    destruct (parseInt_decimal_numeral _ _ HN) as [-> HN0].
    rewrite Hg, Hh. cbn [orb negb andb].
    destruct (Z.leb_spec 0 N); [reflexivity|lia].
Qed.

Lemma readerFromReq_content_length_witness :
  readerFromReq (post_with_length "POST" "abc")
  = inl (HTTPError 400 "Invalid Content-Length.") /\
  readerFromReq (post_with_length "POST" "42") = inr (ConnLengthReader 42 42).
Proof.
  split.
  - exact (proj1 (readerFromReq_content_length
                    (post_with_length "POST" "abc") (Buffer_from "abc") eq_refl)
                 eq_refl).
  - exact (proj2 (readerFromReq_content_length
                    (post_with_length "POST" "42") (Buffer_from "42") eq_refl)
                 42 eq_refl ltac:(vm_compute; discriminate) eq_refl eq_refl).
Defined.

(** ** Failures of the driver and their answers *)

Lemma quiet_ret {A} (a : A) : quiet (ret a).
Proof. intros w r w' H; inversion H; reflexivity. Qed.

Lemma quiet_throw {A} (e : Failure) : quiet (@throw A e).
Proof. intros w r w' H; inversion H; reflexivity. Qed.

Lemma quiet_bind {A B} (m : M A) (k : A -> M B) :
  quiet m -> (forall a, quiet (k a)) -> quiet (bind m k).
Proof.
  intros Hm Hk w r w' H. unfold bind in H.
  destruct (m w) as [[a|e|] w1] eqn:E; apply Hm in E.
  - apply Hk in H. congruence.
  - inversion H; subst; assumption.
  - inversion H; subst; assumption.
Qed.

Lemma quiet_soRead : quiet soRead.
Proof.
  intros w r w' H. unfold soRead in H.
  destruct (incoming w); inversion H; reflexivity.
Qed.

Lemma quiet_push (d : Buffer) : quiet (push d).
Proof.
  intros w r w' H. unfold push in H.
  destruct (bufPush (buf w) d) as [[|] b]; inversion H; reflexivity.
Qed.

Lemma quiet_pop (n : Z) : quiet (pop n).
Proof. intros w r w' H; inversion H; reflexivity. Qed.

Lemma quiet_get_buf : quiet get_buf.
Proof. intros w r w' H; inversion H; reflexivity. Qed.

Lemma quiet_liftE {A} (x : Failure + A) : quiet (liftE x).
Proof. destruct x; [apply quiet_throw|apply quiet_ret]. Qed.

Lemma quiet_alloc (v : BodyReader) : quiet (alloc v).
Proof. intros w r w' H; inversion H; reflexivity. Qed.

Lemma quiet_if {A} (b : bool) (m1 m2 : M A) :
  quiet m1 -> quiet m2 -> quiet (if b then m1 else m2).
Proof. destruct b; auto. Qed.

Create HintDb writes.
#[local] Hint Resolve quiet_ret quiet_throw quiet_bind quiet_soRead quiet_push
  quiet_pop quiet_get_buf quiet_liftE quiet_alloc quiet_if : writes.

Lemma quiet_bufExpectMore (context : string) : quiet (bufExpectMore context).
Proof. unfold bufExpectMore. auto 8 with writes. Qed.

Lemma quiet_cutMessage : quiet cutMessage.
Proof. unfold cutMessage. auto 10 with writes. Qed.

Lemma readChunks_next_quiet (fuel : nat) :
  forall pc w r pc' w',
  readChunks_next fuel pc w = (r, pc', w') -> outgoing w' = outgoing w.
Proof.
  induction fuel as [|fuel IH]; intros pc w r pc' w' H; simpl in H.
  - inversion H; reflexivity.
  - destruct pc as [last|last remain|].
    + destruct last; [inversion H; reflexivity|].
      destruct (indexOf (unread (buf w)) crlf <? 0); [now apply IH in H|].
      destruct (parseInt _ 16); [apply IH in H; exact H|inversion H; reflexivity].
    + destruct (0 <? remain); [|apply IH in H; exact H].
      match type of H with
      | (let (_, _) := ?X in _) = _ => destruct X as [[[]|e|] w1] eqn:E
      end;
        (assert (Hq : outgoing w1 = outgoing w);
         [ revert E; apply quiet_if; [apply quiet_bufExpectMore|apply quiet_ret]
         | inversion H; subst; exact Hq ]).
    + inversion H; reflexivity.
Qed.

Lemma readerRead_quiet (fuel : nat) (v : BodyReader) (w : World)
      (r : Res Buffer) (v' : BodyReader) (w' : World) :
  readerRead fuel v w = (r, v', w') -> outgoing w' = outgoing w.
Proof.
  destruct v as [len remain|d done|g|size got fp]; simpl; intros H.
  - destruct (remain =? 0); [inversion H; reflexivity|].
    match type of H with
    | (let (_, _) := ?X in _) = _ => destruct X as [[[]|e|] w1] eqn:E
    end;
      (assert (Hq : outgoing w1 = outgoing w);
       [ revert E; apply quiet_if; [|apply quiet_ret];
         apply quiet_bind; [apply quiet_soRead|intros d];
         apply quiet_bind; [apply quiet_push|intros _];
         apply quiet_if; [apply quiet_throw|apply quiet_ret]
       | inversion H; subst; exact Hq ]).
  - destruct done; inversion H; reflexivity.
  - destruct g as [pc|i|items]; simpl in H.
    + destruct (readChunks_next fuel pc w) as [[r0 pc'] w0] eqn:E.
      apply readChunks_next_quiet in E.
      destruct r0 as [[x|]|e|]; inversion H; subst; exact E.
    + destruct (i <? 100); inversion H; reflexivity.
    + destruct items; inversion H; reflexivity.
  - destruct (fp_read fp) as [bytes fp'].
    destruct ((size <? got + blen bytes) || _); inversion H; reflexivity.
Qed.

Lemma quiet_read (fuel : nat) (r : Ref) : quiet (read fuel r).
Proof.
  intros w res w' H. unfold read in H.
  destruct (readerRead fuel (store w r) w) as [[r0 v] w0] eqn:E.
  apply readerRead_quiet in E. inversion H; subst. exact E.
Qed.

Lemma quiet_drain (fuel : nat) (r : Ref) : quiet (drain fuel r).
Proof.
  induction fuel as [|fuel IH]; simpl.
  - intros w res w' H; inversion H; reflexivity.
  - apply quiet_bind; [apply quiet_read|intros d].
    apply quiet_if; [exact IH|apply quiet_ret].
Qed.







Lemma respError_ok (c : Z) (message : string) (w : World) :
  exists res w', respError c message w = (Ok res, w') /\ outgoing w' = outgoing w.
Proof. eexists _, _. split; reflexivity. Qed.

(** [handleReq] returns a response and writes nothing. *)
Lemma handleReq_ok (req : HTTPReq) (reqBody : Ref) (w : World) :
  exists res w', handleReq req reqBody w = (Ok res, w') /\
                 outgoing w' = outgoing w.
Proof.
  unfold handleReq.
  destruct (String.prefix "/files/" (toString (uri req))).
  - unfold serveStaticFile. destruct (files w _).
    + apply respError_ok.
    + apply respError_ok.
    + eexists _, _. split; reflexivity.
  - destruct (streq (toString (uri req)) "/echo").
    + eexists _, _. split; reflexivity.
    + destruct (streq (toString (uri req)) "/sheep");
        eexists _, _; split; reflexivity.
Qed.








Lemma read_memory (fuel : nat) (r : Ref) (d : Buffer) (done : bool) (w : World) :
  store w r = MemoryReader d done ->
  read fuel r w = (Ok (if done then [] else d),
                   set_reader w r (MemoryReader d true)).
Proof.
  intros Hs. unfold read. rewrite Hs. destruct done; reflexivity.
Qed.

(** Writing the body of an in-memory reader that holds [d]: one write of
    [d], then the empty read that ends the loop. *)
Lemma writeBody_memory (fuel : nat) (r : Ref) (d : Buffer) (len : Z) (w : World) :
  store w r = MemoryReader d false -> 0 < blen d -> 0 <= len ->
  exists w', writeBody (S (S fuel)) r len w = (Ok tt, w') /\
             outgoing w' = outgoing w ++ [d].
Proof.
  intros Hs Hd Hlen.
  assert (Hlt : (len <? 0) = false) by (apply Z.ltb_ge; lia).
  assert (Hz : (blen d =? 0) = false) by (apply Z.eqb_neq; lia).
  cbn [writeBody]. unfold bind at 1.
  rewrite (read_memory (S fuel) r d false w Hs). cbn iota.
  rewrite Hlt, Hz. cbn [negb]. unfold bind at 1. unfold soWrite at 1.
  set (w1 := set_outgoing _ _).
  assert (Hs1 : store w1 r = MemoryReader d true).
  { subst w1. cbn [set_outgoing set_reader store]. now rewrite Nat.eqb_refl. }
  unfold bind at 1.
  rewrite (read_memory fuel r d true w1 Hs1). cbn iota.
  rewrite ?Hlt. change (blen [] =? 0) with true. cbn [negb].
  unfold bind, ret. eexists. split; [reflexivity|].
  subst w1. reflexivity.
Qed.




(** An invalid chunk size is found when the body is pulled, after the
    header block of the response has been written, and is raised as an
    [Error] without status: the peer gets the 200 header block and the
    connection is closed without further answer. *)
Lemma invalid_chunk_size_has_no_status :
  let '(r, w) := newConn 20 (connect [bad_chunk_size_request] no_files) in
  r = Ok tt /\ destroyed w = true /\
  map toString (outgoing w)
  = [strcat (line "HTTP/1.1 200 OK")
       (strcat (line "Server: my_first_http_server")
       (strcat (line "Transfer-Encoding: chunked") CRLF))]
  /\ readerRead 5 chunked_reader
       (with_buffered (connect [] no_files) (Buffer_from (line "zz")))
     = (Throw (Error "Invalid chunk size"),
        GeneratorReader (ReadChunks Finished),
        with_buffered (connect [] no_files) (Buffer_from (line "zz"))).
Proof. vm_compute. splits; reflexivity. Qed.

(** * Further properties of the code *)

(** ** Searching, and cutting a request off the buffer *)

(** A hit of [indexOf] is an occurrence, and the first one. *)
Lemma indexOf_from_found (needle hay : Buffer) :
  forall k i, 0 <= k -> indexOf_from needle hay k = i -> 0 <= i ->
  exists pre post,
    hay = pre ++ needle ++ post /\ i = k + blen pre /\
    forall pre' post', hay = pre' ++ needle ++ post' -> blen pre <= blen pre'.
Proof.
  induction hay as [|h hay IH]; intros k i Hk Hi Hi0; simpl in Hi.
  - destruct (starts_with needle []) eqn:E; [|lia].
    apply starts_with_spec in E as [post E].
    exists [], post. splits; [exact E|unfold blen; simpl; lia|].
    intros pre' post' _. apply blen_nonneg.
  - destruct (starts_with needle (h :: hay)) eqn:E.
    + apply starts_with_spec in E as [post E].
      exists [], post. splits; [exact E|unfold blen; simpl; lia|].
      intros pre' post' _. apply blen_nonneg.
    + destruct (IH (k + 1) i) as (pre & post & Hh & Hpre & Hmin);
        [lia|exact Hi|exact Hi0|].
      exists (h :: pre), post. splits.
      * simpl. now rewrite Hh.
      * unfold blen in *; simpl List.length. lia.
      * intros pre' post' Heq. destruct pre' as [|p pre'].
        -- assert (E' : starts_with needle (h :: hay) = true)
             by (apply starts_with_spec; now exists post').
           congruence.
        -- injection Heq as _ Heq. specialize (Hmin pre' post' Heq).
           unfold blen in *; simpl List.length. lia.
Qed.

Lemma subarray_prefix_unread (b : DynBuf) (n : Z) :
  buf_wf b -> 0 <= n <= buf_length b ->
  subarray (buf_data b) 0 n = firstn (Z.to_nat n) (unread b).
Proof.
  intros Hwf Hn. rewrite unread_wf by assumption.
  destruct Hwf as [H0 H1]. unfold capacity in H1. unfold subarray.
  rewrite (relIndex_in _ 0), relIndex_in by lia.
  simpl. rewrite Z.sub_0_r, firstn_firstn. f_equal. lia.
Qed.

Lemma firstn_blen_app (a b : Buffer) : firstn (Z.to_nat (blen a)) (a ++ b) = a.
Proof.
  unfold blen. rewrite Nat2Z.id.
  rewrite firstn_app, Nat.sub_diag, firstn_all. simpl. apply app_nil_r.
Qed.

Lemma skipn_blen_app (a b : Buffer) : skipn (Z.to_nat (blen a)) (a ++ b) = b.
Proof.
  unfold blen. rewrite Nat2Z.id.
  rewrite skipn_app, Nat.sub_diag, skipn_all. reflexivity.
Qed.

(** What a successful [cutMessage] did. *)
Lemma cutMessage_some (w : World) (msg : HTTPReq) (w' : World) :
  buf_wf (buf w) ->
  cutMessage w = (Ok (Some msg), w') ->
  exists hdr,
    unread (buf w) = hdr ++ boundary ++ unread (buf w') /\
    parseHTTPReq (hdr ++ boundary) = inr msg /\
    (forall pre post, unread (buf w) = pre ++ boundary ++ post ->
                      blen hdr <= blen pre) /\
    buf_wf (buf w') /\
    w' = set_buf w (bufPop (buf w) (blen hdr + 4)).
Proof.
  intros Hwf. unfold cutMessage, bind, get_buf. fold boundary.
  destruct (Z.ltb_spec (indexOf (unread (buf w)) boundary) 0) as [Hlt|Hge].
  { destruct (kMaxHeaderLen <=? buf_length (buf w)); discriminate. }
  destruct (indexOf_from_found boundary (unread (buf w)) 0 _ (Z.le_refl 0)
              eq_refl Hge) as (hdr & post & Hu & Hidx & Hmin).
  fold (indexOf (unread (buf w)) boundary) in Hidx. rewrite Hidx.
  simpl Z.add.
  assert (Hlen : blen hdr + 4 <= buf_length (buf w)).
  { rewrite <- (blen_unread (buf w) Hwf), Hu, !blen_app.
    pose proof (blen_nonneg post). change (blen boundary) with 4. lia. }
  pose proof (blen_nonneg hdr) as Hh.
  rewrite subarray_prefix_unread by (try assumption; lia).
  assert (Hpre : firstn (Z.to_nat (blen hdr + 4)) (unread (buf w))
                 = hdr ++ boundary).
  { rewrite Hu, app_assoc.
    replace (blen hdr + 4) with (blen (hdr ++ boundary))
      by (rewrite blen_app; reflexivity).
    apply firstn_blen_app. }
  rewrite Hpre.
  destruct (parseHTTPReq (hdr ++ boundary)) as [e|m] eqn:Ep; simpl; [discriminate|].
  unfold pop, ret. intros H. inversion H; subst; clear H.
  destruct (bufPop_spec (buf w) (blen hdr + 4) Hwf) as (Hwf' & Hun & _);
    [lia|].
  assert (Hrest : unread (bufPop (buf w) (blen hdr + 4)) = post).
  { rewrite Hun, Hu, app_assoc.
    replace (blen hdr + 4) with (blen (hdr ++ boundary))
      by (rewrite blen_app; reflexivity).
    apply skipn_blen_app. }
  exists hdr. splits; try assumption; try reflexivity.
  cbn [set_buf buf]. rewrite Hrest. exact Hu.
Qed.

(** X1.  When [cutMessage] returns a request from a buffer within its
    invariant, the unread bytes were a header block up to and including
    the first CR LF CR LF, which is what was parsed, followed by exactly
    the bytes left unread afterwards; socket and log are untouched. *)
Theorem cutMessage_takes_first_header_block
        (w : World) (msg : HTTPReq) (w' : World) :
  buf_wf (buf w) ->
  cutMessage w = (Ok (Some msg), w') ->
  exists hdr,
    unread (buf w) = hdr ++ boundary ++ unread (buf w') /\
    parseHTTPReq (hdr ++ boundary) = inr msg /\
    (forall pre post, unread (buf w) = pre ++ boundary ++ post ->
                      blen hdr <= blen pre) /\
    buf_wf (buf w') /\
    incoming w' = incoming w /\ outgoing w' = outgoing w.
Proof.
  intros Hwf H.
  destruct (cutMessage_some w msg w' Hwf H) as (hdr & Hu & Hp & Hmin & Hwf' & ->).
  exists hdr. splits; try assumption; reflexivity.
Qed.

Lemma cutMessage_takes_first_header_block_witness :
  exists msg w',
    cutMessage get_then_rest = (Ok (Some msg), w') /\
    exists hdr,
      unread (buf get_then_rest) = hdr ++ boundary ++ unread (buf w') /\
      parseHTTPReq (hdr ++ boundary) = inr msg /\
      (forall pre post, unread (buf get_then_rest) = pre ++ boundary ++ post ->
                        blen hdr <= blen pre) /\
      buf_wf (buf w') /\
      incoming w' = incoming get_then_rest /\
      outgoing w' = outgoing get_then_rest.
Proof.
  assert (Hwf : buf_wf (buf get_then_rest))
    by (vm_compute; intuition discriminate).
  destruct (cutMessage get_then_rest) as [[[msg|]|e|] w'] eqn:E;
    try (vm_compute in E; discriminate E).
  exists msg, w'. split; [reflexivity|].
  exact (cutMessage_takes_first_header_block get_then_rest msg w' Hwf E).
Defined.

(** ** Lines, the request line and the header fields *)

Lemma splitLines_from_line (l : Buffer) :
  forall cur rest, has_crlf l = false ->
  splitLines_from cur (l ++ crlf ++ rest)
  = (rev cur ++ l) :: splitLines_from [] rest.
Proof.
  induction l as [|b l IH]; intros cur rest H.
  - cbn. now rewrite app_nil_r.
  - cbn [app splitLines_from].
    destruct (l ++ crlf ++ rest) as [|b' t] eqn:E.
    { destruct l; discriminate. }
    assert (Hpair : beq b x0d && beq b' x0a = false /\ has_crlf l = false).
    { destruct l as [|b2 l2].
      - cbn in E. injection E as <- _. split; [|reflexivity].
        apply andb_false_r.
      - cbn in E. injection E as <- _.
        cbn [has_crlf] in H. apply orb_false_iff in H. exact H. }
    destruct Hpair as [-> Hl]. rewrite <- E, (IH (b :: cur) rest Hl).
    cbn [rev]. now rewrite <- app_assoc.
Qed.

Lemma splitLines_from_tail (tail : Buffer) :
  forall cur, has_crlf tail = false ->
  splitLines_from cur tail
  = match rev cur ++ tail with [] => [] | _ :: _ => [rev cur ++ tail] end.
Proof.
  induction tail as [|b t IH]; intros cur H.
  - cbn. rewrite app_nil_r. destruct cur as [|c cur]; [reflexivity|].
    cbn [rev]. destruct (rev cur ++ [c]) eqn:E; [|reflexivity].
    destruct (rev cur); discriminate.
  - cbn [splitLines_from]. destruct t as [|b' t'].
    + cbn [rev].
      destruct (rev cur ++ [b]) eqn:E; [|reflexivity].
      destruct (rev cur); discriminate.
    + cbn [has_crlf] in H. apply orb_false_iff in H as [-> Ht].
      rewrite (IH (b :: cur) Ht). cbn [rev]. now rewrite <- app_assoc.
Qed.

Lemma splitLines_join (lines : list Buffer) (tail : Buffer) :
  Forall (fun l => has_crlf l = false) lines -> has_crlf tail = false ->
  splitLines (join_lines lines ++ tail)
  = lines ++ match tail with [] => [] | _ :: _ => [tail] end.
Proof.
  unfold splitLines, join_lines. intros Hl Ht.
  induction Hl as [|l lines Hl _ IH]; cbn [map List.concat app].
  - now rewrite (splitLines_from_tail tail [] Ht).
  - rewrite <- !app_assoc, (splitLines_from_line l [] _ Hl). cbn [rev app].
    now rewrite IH.
Qed.

(** X2.  [splitLines] undoes the joining of lines with CR LF: of lines
    that hold no CR LF, each followed by CR LF, and a last piece without
    terminator, it returns the lines in order and then that piece when it
    is not empty.  No byte is lost and no line is split. *)
Theorem splitLines_inverts_join (lines : list Buffer) (tail : Buffer) :
  Forall (fun l => has_crlf l = false) lines -> has_crlf tail = false ->
  splitLines (join_lines lines ++ tail)
  = lines ++ match tail with [] => [] | _ :: _ => [tail] end.
Proof. exact (splitLines_join lines tail). Qed.

Lemma splitLines_inverts_join_witness :
  splitLines (join_lines [Buffer_from "a"; []; [x0d]] ++ Buffer_from "z")
  = [Buffer_from "a"; []; [x0d]] ++ [Buffer_from "z"].
Proof.
  apply (splitLines_inverts_join [Buffer_from "a"; []; [x0d]] (Buffer_from "z")).
  - repeat constructor.
  - reflexivity.
Defined.

Lemma toString_Buffer_from (s : string) : toString (Buffer_from s) = s.
Proof. apply string_of_list_byte_of_string. Qed.

Lemma Buffer_from_toString (b : Buffer) : Buffer_from (toString b) = b.
Proof. apply list_byte_of_string_of_list_byte. Qed.

Lemma Buffer_from_cons (c : ascii) (s : string) :
  Buffer_from (String c s) = byte_of_ascii c :: Buffer_from s.
Proof. reflexivity. Qed.

Lemma Buffer_from_app (a b : string) :
  Buffer_from (strcat a b) = Buffer_from a ++ Buffer_from b.
Proof.
  induction a as [|c a IH]; [reflexivity|].
  cbn [strcat String.append]. rewrite !Buffer_from_cons.
  unfold strcat in IH. now rewrite IH.
Qed.

Lemma blen_Buffer_from (s : string) : blen (Buffer_from s) = strlen s.
Proof.
  unfold blen, strlen. induction s as [|c s IH]; [reflexivity|].
  rewrite Buffer_from_cons. cbn [List.length String.length]. lia.
Qed.

Lemma split_no_sep (sep : ascii) (s : string) :
  has_char sep s = false -> split sep s = [s].
Proof.
  induction s as [|c s IH]; [reflexivity|]. cbn [has_char split].
  intros H. apply orb_false_iff in H as [-> H]. now rewrite (IH H).
Qed.

Lemma split_app_sep (sep : ascii) (a b : string) :
  has_char sep a = false ->
  split sep (strcat a (String sep b)) = a :: split sep b.
Proof.
  induction a as [|c a IH]; cbn [strcat String.append has_char split].
  - intros _. now rewrite Ascii.eqb_refl.
  - intros H. apply orb_false_iff in H as [-> H].
    unfold strcat in IH. now rewrite (IH H).
Qed.

Lemma parseRequestLine_tokens (m u v : string) :
  is_empty_string m = false -> is_empty_string u = false ->
  is_empty_string v = false ->
  has_char " " m = false -> has_char " " u = false -> has_char " " v = false ->
  parseRequestLine (request_line m u v) = inr (m, Buffer_from u, v).
Proof.
  intros Hm Hu Hv Sm Su Sv. unfold parseRequestLine, request_line.
  rewrite toString_Buffer_from.
  rewrite (split_app_sep " " m _ Sm), (split_app_sep " " u _ Su),
          (split_no_sep " " v Sv).
  now rewrite Hm, Hu, Hv.
Qed.

(** X3.  [parseRequestLine] reads back a request line made of three
    tokens of 7-bit characters that are not empty and hold no space,
    separated by single spaces: the method and the version as strings,
    the target as bytes.  (The code decodes the line as UTF-8 and encodes
    the target again; on 7-bit characters that moves no byte.) *)
Theorem parseRequestLine_reads_three_tokens (m u v : string) :
  ascii7 m = true -> ascii7 u = true -> ascii7 v = true ->
  is_empty_string m = false -> is_empty_string u = false ->
  is_empty_string v = false ->
  has_char " " m = false -> has_char " " u = false -> has_char " " v = false ->
  parseRequestLine (request_line m u v) = inr (m, Buffer_from u, v).
Proof. intros _ _ _. exact (parseRequestLine_tokens m u v). Qed.

Lemma parseRequestLine_reads_three_tokens_witness :
  parseRequestLine (request_line "POST" "/echo?x=1" "HTTP/1.1")
  = inr ("POST"%string, Buffer_from "/echo?x=1", "HTTP/1.1"%string).
Proof.
  apply (parseRequestLine_reads_three_tokens "POST" "/echo?x=1" "HTTP/1.1");
    reflexivity.
Defined.

Lemma beq_refl (b : byte) : beq b b = true.
Proof. now apply beq_eq. Qed.

Lemma beq_sym (a b : byte) : beq a b = beq b a.
Proof.
  destruct (beq a b) eqn:E1, (beq b a) eqn:E2; try reflexivity.
  - apply beq_eq in E1. subst. now rewrite beq_refl in E2.
  - apply beq_eq in E2. subst. now rewrite beq_refl in E1.
Qed.

(** [indexOf] for a needle of one byte. *)
Lemma indexOf_from_byte (c : byte) (t : Buffer) :
  forall k,
  (existsb (fun b => beq b c) t = false -> indexOf_from [c] t k = -1) /\
  (existsb (fun b => beq b c) t = true -> k <= indexOf_from [c] t k).
Proof.
  induction t as [|h t IH]; intros k; cbn [existsb indexOf_from starts_with].
  - split; [reflexivity|discriminate].
  - rewrite (beq_sym c h). destruct (beq h c); cbn [orb andb].
    + split; [discriminate|lia].
    + destruct (IH (k + 1)) as [IH0 IH1]. split; [exact IH0|].
      intros H. specialize (IH1 H). lia.
Qed.

(** [validateHeader] asks for a colon, and not as the first byte. *)
Lemma validateHeader_colon_inside (l : Buffer) :
  validateHeader l = colon_inside l.
Proof.
  unfold validateHeader, indexOf. change (Buffer_from ":") with [x3a].
  destruct l as [|h t]; [reflexivity|].
  cbn [colon_inside indexOf_from starts_with].
  rewrite (beq_sym x3a h). destruct (beq h x3a); cbn [negb andb]; [reflexivity|].
  destruct (indexOf_from_byte x3a t (0 + 1)) as [H0 H1].
  destruct (existsb (fun b => beq b x3a) t).
  - specialize (H1 eq_refl). apply Z.ltb_lt. lia.
  - now rewrite (H0 eq_refl).
Qed.

Lemma parseFields_closed (lines : list Buffer) :
  parseFields lines =
  if fields_ok lines then inr (nonempty_lines lines)
  else inl (HTTPError 400 "bad field.").
Proof.
  unfold fields_ok, nonempty_lines.
  induction lines as [|l lines IH]; [reflexivity|].
  cbn [parseFields forallb filter]. rewrite IH, validateHeader_colon_inside.
  destruct (Z.ltb_spec 0 (blen l)) as [Hpos|Hz].
  - destruct (Z.eqb_spec (blen l) 0); [lia|]. cbn [orb].
    destruct (colon_inside l); cbn [andb]; [|reflexivity].
    destruct (forallb _ lines); reflexivity.
  - pose proof (blen_nonneg l).
    destruct (Z.eqb_spec (blen l) 0); [|lia]. reflexivity.
Qed.

(** X4.  The loop of [parseHTTPReq] over the header lines accepts a block
    exactly when every line that is not empty holds a colon and does not
    begin with one (so ":a:b" is refused); it then keeps the lines that
    are not empty, in order, and otherwise fails with the 400 error
    "bad field.". *)
Theorem parseFields_accepts_lines_with_colon (lines : list Buffer) :
  parseFields lines =
  if fields_ok lines then inr (nonempty_lines lines)
  else inl (HTTPError 400 "bad field.").
Proof. exact (parseFields_closed lines). Qed.

Lemma fields_ok_valid (fields : list Buffer) :
  Forall (fun f => colon_inside f = true) fields ->
  fields_ok (fields ++ [[]]) = true /\ nonempty_lines (fields ++ [[]]) = fields.
Proof.
  unfold fields_ok, nonempty_lines.
  induction 1 as [|f fields Hf _ [IH1 IH2]]; [split; reflexivity|].
  cbn [app forallb filter].
  rewrite Hf, orb_true_r, IH1, IH2.
  destruct f as [|h t]; [discriminate Hf|]. split; reflexivity.
Qed.

Lemma join_lines_app (a b : list Buffer) :
  join_lines (a ++ b) = join_lines a ++ join_lines b.
Proof. unfold join_lines. now rewrite map_app, concat_app. Qed.

(** X5.  [parseHTTPReq] reads back a header block as sent: a request line
    of three tokens of 7-bit characters, header lines that each hold a
    colon and do not begin with one, every line followed by CR LF and
    free of CR LF inside, then the blank line.  It returns the three
    tokens and the header lines in order, the header lines byte for
    byte. *)
Theorem parseHTTPReq_reads_header_block
        (m u v : string) (fields : list Buffer) :
  ascii7 m = true -> ascii7 u = true -> ascii7 v = true ->
  is_empty_string m = false -> is_empty_string u = false ->
  is_empty_string v = false ->
  has_char " " m = false -> has_char " " u = false -> has_char " " v = false ->
  has_crlf (request_line m u v) = false ->
  Forall (fun f => has_crlf f = false) fields ->
  Forall (fun f => colon_inside f = true) fields ->
  parseHTTPReq (header_block m u v fields)
  = inr (mkHTTPReq m (Buffer_from u) v fields).
Proof.
  intros _ _ _ Hm Hu Hv Sm Su Sv Hrl Hcr Hval'.
  unfold parseHTTPReq, header_block.
  replace (join_lines (request_line m u v :: fields) ++ crlf)
    with (join_lines ((request_line m u v :: fields) ++ [[]]) ++ []).
  2:{ rewrite app_nil_r, join_lines_app. reflexivity. }
  rewrite splitLines_join.
  2:{ apply Forall_app. split; [now constructor|repeat constructor]. }
  2:{ reflexivity. }
  rewrite app_nil_r. cbn [app].
  rewrite (parseRequestLine_tokens m u v Hm Hu Hv Sm Su Sv).
  rewrite parseFields_closed.
  destruct (fields_ok_valid fields Hval') as [-> ->]. reflexivity.
Qed.

Lemma parseHTTPReq_reads_header_block_witness :
  parseHTTPReq
    (header_block "GET" "/" "HTTP/1.1"
       [Buffer_from "Host: x"; Buffer_from "Accept: */*"])
  = inr (mkHTTPReq "GET" (Buffer_from "/") "HTTP/1.1"
           [Buffer_from "Host: x"; Buffer_from "Accept: */*"]).
Proof.
  apply (parseHTTPReq_reads_header_block "GET" "/" "HTTP/1.1"
           [Buffer_from "Host: x"; Buffer_from "Accept: */*"]);
    try reflexivity; repeat constructor.
Defined.

Lemma byte_of_ascii_inj (a b : ascii) : byte_of_ascii a = byte_of_ascii b -> a = b.
Proof.
  intros H. rewrite <- (ascii_of_byte_of_ascii a), <- (ascii_of_byte_of_ascii b).
  now rewrite H.
Qed.

Lemma beq_byte_of_ascii (a b : ascii) :
  beq (byte_of_ascii a) (byte_of_ascii b) = Ascii.eqb a b.
Proof.
  destruct (Ascii.eqb_spec a b) as [->|Hne].
  - apply beq_eq. reflexivity.
  - destruct (beq (byte_of_ascii a) (byte_of_ascii b)) eqn:E; [|reflexivity].
    apply beq_eq, byte_of_ascii_inj in E. contradiction.
Qed.

(** The first occurrence of a character that the head of a string does
    not hold. *)
Lemma indexOf_from_char (c : ascii) (name : string) (post : Buffer) :
  forall k, has_char c name = false ->
  indexOf_from [byte_of_ascii c]
               (Buffer_from name ++ byte_of_ascii c :: post) k
  = k + strlen name.
Proof.
  unfold strlen.
  induction name as [|c' name IH]; intros k H.
  - cbn. rewrite (proj2 (beq_eq _ _) eq_refl). cbn. lia.
  - cbn [has_char] in H. apply orb_false_iff in H as [Hc H].
    rewrite Buffer_from_cons. cbn [app indexOf_from starts_with].
    rewrite beq_byte_of_ascii, Ascii.eqb_sym, Hc. cbn [andb].
    rewrite (IH (k + 1) H). cbn [String.length]. lia.
Qed.

Lemma strlen_toLowerCase (s : string) :
  String.length (toLowerCase s) = String.length s.
Proof. induction s as [|c s IH]; [reflexivity|]. cbn. now rewrite IH. Qed.

Lemma str_drop_app (a : string) (c : ascii) (b : string) :
  str_drop (S (String.length a)) (strcat a (String c b)) = b.
Proof. induction a as [|c' a IH]; [reflexivity|]. cbn. exact IH. Qed.

Lemma subarray_prefix_app (a b : Buffer) :
  subarray (a ++ b) 0 (blen a) = a.
Proof.
  unfold subarray. pose proof (blen_nonneg a). pose proof (blen_nonneg b).
  rewrite (relIndex_in _ 0), relIndex_in by (rewrite ?blen_app; lia).
  simpl. rewrite Z.sub_0_r. apply firstn_blen_app.
Qed.

(** One header line under [fieldGet]. *)
Lemma fieldGet_head (name value key : string) (hs : list Buffer) :
  field_name_ok name = true ->
  fieldGet (field name value :: hs) key =
  if streq (toLowerCase name) (toLowerCase key)
  then Some (Buffer_from (trim value))
  else fieldGet hs key.
Proof.
  unfold field_name_ok. intros H. apply andb_true_iff in H as [Hne Hc].
  apply negb_true_iff in Hne, Hc.
  assert (Hfield : field name value
                   = Buffer_from name ++ byte_of_ascii ":" :: Buffer_from value).
  { unfold field. now rewrite Buffer_from_app, Buffer_from_cons. }
  assert (Hidx : indexOf (field name value) (Buffer_from ":") = strlen name).
  { unfold indexOf. rewrite Hfield.
    change (Buffer_from ":") with [byte_of_ascii ":"].
    rewrite (indexOf_from_char ":" name _ 0 Hc). lia. }
  assert (Hpos : (0 <? strlen name) = true).
  { apply Z.ltb_lt. unfold strlen. destruct name; [discriminate|].
    cbn [String.length]. lia. }
  cbn [fieldGet]. rewrite Hidx, Hpos. cbn [andb].
  assert (Hname : toString (subarray (field name value) 0 (strlen name)) = name).
  { rewrite Hfield, <- blen_Buffer_from, subarray_prefix_app.
    apply toString_Buffer_from. }
  rewrite Hname.
  destruct (streq (toLowerCase name) (toLowerCase key)) eqn:E; [|reflexivity].
  apply String.eqb_eq in E.
  assert (Hlen : String.length key = String.length name).
  { rewrite <- (strlen_toLowerCase key), <- (strlen_toLowerCase name).
    now rewrite E. }
  unfold field. rewrite toString_Buffer_from, Hlen, str_drop_app. reflexivity.
Qed.

(** *** Lower case, on 7-bit characters *)

Lemma char_code_range (c : ascii) : 0 <= char_code c < 256.
Proof. unfold char_code. pose proof (N_ascii_bounded c). lia. Qed.

Lemma char_code_lower (c : ascii) :
  char_code (lower_char c)
  = if (65 <=? char_code c) && (char_code c <=? 90)
    then char_code c + 32 else char_code c.
Proof.
  unfold lower_char, char_code. pose proof (N_ascii_bounded c) as Hb.
  destruct (N.leb_spec 65 (N_of_ascii c)), (N.leb_spec (N_of_ascii c) 90);
    cbn [andb];
    destruct (Z.leb_spec 65 (Z.of_N (N_of_ascii c))),
             (Z.leb_spec (Z.of_N (N_of_ascii c)) 90);
    cbn [andb]; try lia; try reflexivity.
  rewrite N_ascii_embedding by lia. lia.
Qed.

Lemma ascii_eqb_code (a b : ascii) :
  Ascii.eqb a b = (char_code a =? char_code b).
Proof.
  destruct (Ascii.eqb_spec a b) as [->|Hne].
  - symmetry. apply Z.eqb_refl.
  - symmetry. apply Z.eqb_neq. intros H. apply Hne.
    unfold char_code in H. apply N2Z.inj in H.
    rewrite <- (ascii_N_embedding a), <- (ascii_N_embedding b). now rewrite H.
Qed.

(** Two characters have the same lower case exactly when they are the
    same up to the case of a letter. *)
Lemma lower_char_same_letter (a b : ascii) :
  Ascii.eqb (lower_char a) (lower_char b) = same_letter a b.
Proof.
  unfold same_letter, is_letter.
  rewrite !ascii_eqb_code, !char_code_lower.
  pose proof (char_code_range a). pose proof (char_code_range b).
  repeat match goal with
         | |- context [?x <=? ?y] => destruct (Z.leb_spec x y)
         end;
    cbn [andb orb];
    repeat match goal with
           | |- context [?x =? ?y] => destruct (Z.eqb_spec x y)
           end;
    cbn [andb orb]; try reflexivity; lia.
Qed.

Lemma toLowerCase_same_letters (a : string) :
  forall b, streq (toLowerCase a) (toLowerCase b) = same_letters a b.
Proof.
  unfold streq.
  induction a as [|x a IH]; intros [|y b]; try reflexivity.
  cbn [toLowerCase String.eqb same_letters].
  rewrite lower_char_same_letter, IH.
  destruct (same_letter x y); reflexivity.
Qed.

(** *** White space around a value, on 7-bit characters *)

Lemma strcat_nil_r (s : string) : strcat s EmptyString = s.
Proof.
  unfold strcat. induction s as [|c s IH]; [reflexivity|].
  cbn [String.append]. now rewrite IH.
Qed.

Lemma strcat_assoc (a b c : string) :
  strcat (strcat a b) c = strcat a (strcat b c).
Proof.
  unfold strcat. induction a as [|x a IH]; [reflexivity|].
  cbn [String.append]. now rewrite IH.
Qed.

Lemma str_rev_cons (c : ascii) (s : string) :
  str_rev (String c s) = strcat (str_rev s) (String c EmptyString).
Proof.
  unfold str_rev. cbn [list_ascii_of_string rev].
  induction (rev (list_ascii_of_string s)) as [|x l IH]; [reflexivity|].
  cbn. now rewrite IH.
Qed.

Lemma str_rev_app (a b : string) :
  str_rev (strcat a b) = strcat (str_rev b) (str_rev a).
Proof.
  induction a as [|c a IH].
  - cbn [strcat String.append]. change (str_rev EmptyString) with EmptyString.
    now rewrite strcat_nil_r.
  - change (strcat (String c a) b) with (String c (strcat a b)).
    now rewrite !str_rev_cons, IH, strcat_assoc.
Qed.

Lemma str_rev_involutive (s : string) : str_rev (str_rev s) = s.
Proof.
  induction s as [|c s IH]; [reflexivity|].
  rewrite str_rev_cons, str_rev_app, IH. reflexivity.
Qed.

Lemma is_space_white (c : ascii) :
  char_code c < 128 -> is_space c = is_white c.
Proof.
  intros H. unfold is_space, is_white.
  destruct (Z.eqb_spec (char_code c) 160); [lia|]. now rewrite orb_false_r.
Qed.

Lemma is_white_ascii (c : ascii) : is_white c = true -> char_code c < 128.
Proof.
  unfold is_white. intros H.
  apply orb_true_iff in H as [H|H].
  - apply andb_true_iff in H as [_ H]. apply Z.leb_le in H. lia.
  - apply Z.eqb_eq in H. lia.
Qed.

Lemma trimStart_white (p x : string) :
  all_white p = true -> trimStart (strcat p x) = trimStart x.
Proof.
  induction p as [|c p IH]; intros H; [reflexivity|].
  cbn [all_white] in H. apply andb_true_iff in H as [Hc H].
  cbn [strcat String.append trimStart].
  rewrite (is_space_white c (is_white_ascii c Hc)), Hc. exact (IH H).
Qed.

Lemma all_white_app (a b : string) :
  all_white (strcat a b) = all_white a && all_white b.
Proof.
  induction a as [|c a IH]; [reflexivity|].
  cbn [strcat String.append all_white]. fold (strcat a b).
  now rewrite IH, andb_assoc.
Qed.

Lemma all_white_rev (p : string) : all_white (str_rev p) = all_white p.
Proof.
  induction p as [|c p IH]; [reflexivity|].
  rewrite str_rev_cons, all_white_app, IH. cbn [all_white].
  rewrite andb_true_r. apply andb_comm.
Qed.

(** The last character of a string that does not end in white space
    leads its reverse. *)
Lemma str_rev_head (s : string) :
  s <> EmptyString -> ends_white s = false -> ascii7 s = true ->
  exists c r, str_rev s = String c r /\ is_white c = false /\ char_code c < 128.
Proof.
  induction s as [|c s IH]; intros Hne He Ha; [contradiction|].
  cbn [ascii7] in Ha. apply andb_true_iff in Ha as [Hc Ha].
  apply Z.ltb_lt in Hc.
  destruct s as [|d s].
  - exists c, EmptyString. now splits.
  - destruct (IH ltac:(discriminate) He Ha) as (c' & r & E & Hw & Hlt).
    exists c', (strcat r (String c EmptyString)).
    rewrite str_rev_cons, E. now splits.
Qed.

(** [trim] takes the white space off both ends and nothing else. *)
Lemma trim_padded (lead core trail : string) :
  all_white lead = true -> all_white trail = true ->
  ascii7 core = true -> tight core = true ->
  trim (strcat lead (strcat core trail)) = core.
Proof.
  intros Hl Ht Ha Hc. unfold trim. rewrite (trimStart_white _ _ Hl).
  destruct core as [|c core].
  - cbn [strcat String.append].
    assert (Hnil : forall p, all_white p = true -> trimStart p = EmptyString).
    { intros p Hp. rewrite <- (strcat_nil_r p). now rewrite trimStart_white. }
    rewrite (Hnil _ Ht). reflexivity.
  - cbn [tight] in Hc. apply andb_true_iff in Hc as [Hh He].
    apply negb_true_iff in Hh, He.
    pose proof Ha as Ha'. cbn [ascii7] in Ha'.
    apply andb_true_iff in Ha' as [Hcode _]. apply Z.ltb_lt in Hcode.
    change (strcat (String c core) trail) with (String c (strcat core trail)).
    cbn [trimStart]. rewrite (is_space_white c Hcode), Hh.
    change (String c (strcat core trail)) with (strcat (String c core) trail).
    rewrite str_rev_app, trimStart_white by (now rewrite all_white_rev).
    destruct (str_rev_head (String c core) ltac:(discriminate) He Ha)
      as (c' & r & E & Hw & Hlt).
    rewrite E. cbn [trimStart]. rewrite (is_space_white c' Hlt), Hw.
    rewrite <- E. apply str_rev_involutive.
Qed.

(** X6.  [fieldGet] on header lines of the form name, colon, white
    space, value, white space, all of 7-bit characters (names not empty,
    without colon and without the capital I, whose lower case depends on
    the locale; values with no white space at either end) finds the first
    line whose name is the key up to the case of letters and returns its
    value, without the white space; it returns [null] when no name
    matches. *)
Theorem fieldGet_first_match_ignoring_case
        (fs : list HeaderField) (key : string) :
  Forall (fun f => field_ok f = true) fs ->
  locale_free key = true ->
  fieldGet (map field_line fs) key
  = option_map Buffer_from (find_field fs key).
Proof.
  intros H _.
  induction H as [|f fs Hf _ IH]; [reflexivity|].
  unfold field_ok in Hf. rewrite !andb_true_iff in Hf.
  destruct Hf as [[[[[Hn _] Hl] Ht] Ha] Hc].
  cbn [map find_field]. unfold field_line at 1.
  rewrite (fieldGet_head _ _ key _ Hn), toLowerCase_same_letters.
  destruct (same_letters (f_name f) key); [|exact IH].
  rewrite (trim_padded _ _ _ Hl Ht Ha Hc). reflexivity.
Qed.

Lemma fieldGet_first_match_ignoring_case_witness :
  fieldGet (map field_line sample_fields) "CONTENT-LENGTH"
  = Some (Buffer_from "5") /\
  fieldGet (map field_line sample_fields) "Cookie" = None.
Proof.
  assert (H : Forall (fun f => field_ok f = true) sample_fields)
    by (repeat constructor).
  split.
  - rewrite (fieldGet_first_match_ignoring_case sample_fields "CONTENT-LENGTH" H);
      reflexivity.
  - rewrite (fieldGet_first_match_ignoring_case sample_fields "Cookie" H);
      reflexivity.
Defined.

(** ** The response writer *)

Lemma read_yields (fuel : nat) (b : Ref) (items : list Buffer) (w : World) :
  store w b = GeneratorReader (Yields items) ->
  read fuel b w = (Ok (hd [] items),
                   set_reader w b (GeneratorReader (Yields (tl items)))).
Proof.
  intros Hs. unfold read. rewrite Hs. destruct items; reflexivity.
Qed.

Lemma store_set_reader (w : World) (b : Ref) (v : BodyReader) :
  store (set_reader w b v) b = v.
Proof. cbn [set_reader store]. now rewrite Nat.eqb_refl. Qed.

Lemma writeBody_S (fuel : nat) (b : Ref) (len : Z) :
  writeBody (S fuel) b len =
  (d <- read fuel b ;;
   (if negb (blen (if len <? 0
                   then Buffer_from (hex (blen d)) ++ crlf ++ d ++ crlf
                   else d) =? 0)
    then soWrite (if len <? 0
                  then Buffer_from (hex (blen d)) ++ crlf ++ d ++ crlf
                  else d)
    else ret tt) ;;
   if blen d =? 0 then ret tt else writeBody fuel b len).
Proof. reflexivity. Qed.

(** The body loop of the writer over a generator that yields [items]. *)
Lemma writeBody_yields (items : list Buffer) :
  forall (fuel : nat) (b : Ref) (w : World),
  store w b = GeneratorReader (Yields items) ->
  exists w',
    writeBody (S (List.length (sent_chunks items)) + fuel) b (-1) w = (Ok tt, w') /\
    outgoing w' = outgoing w ++ map chunk (sent_chunks items ++ [[]]).
Proof.
  assert (Hlast : forall fuel b w its,
            store w b = GeneratorReader (Yields its) ->
            blen (hd [] its) = 0 ->
            exists w', writeBody (S fuel) b (-1) w = (Ok tt, w') /\
                       outgoing w' = outgoing w ++ [chunk []]).
  { intros fuel b w its Hs Hz. rewrite writeBody_S. unfold bind at 1.
    rewrite (read_yields fuel b its w Hs).
    assert (Hd : hd [] its = []).
    { destruct (hd [] its); [reflexivity|]. unfold blen in Hz; simpl in Hz; lia. }
    rewrite Hd. change (-1 <? 0) with true. cbn iota.
    change (blen [] =? 0) with true.
    assert (Hne : negb (blen (Buffer_from (hex (blen [])) ++ crlf ++ [] ++ crlf) =? 0)
                  = true) by reflexivity.
    rewrite Hne. unfold bind, soWrite, ret.
    eexists. split; reflexivity. }
  induction items as [|d rest IH]; intros fuel b w Hs.
  - cbn [sent_chunks List.length Nat.add app map].
    apply (Hlast fuel b w [] Hs). reflexivity.
  - cbn [sent_chunks].
    destruct (Z.eqb_spec (blen d) 0) as [Hz|Hnz].
    + cbn [List.length Nat.add app map].
      apply (Hlast fuel b w (d :: rest) Hs). exact Hz.
    + cbn [List.length Nat.add]. rewrite writeBody_S. unfold bind at 1.
      rewrite (read_yields _ b (d :: rest) w Hs). cbn [hd tl].
      change (-1 <? 0) with true. cbn iota.
      assert (Hne : negb (blen (Buffer_from (hex (blen d)) ++ crlf ++ d ++ crlf) =? 0)
                    = true).
      { apply negb_true_iff, Z.eqb_neq. rewrite !blen_app.
        pose proof (blen_nonneg (Buffer_from (hex (blen d)))).
        pose proof (blen_nonneg d). change (blen crlf) with 2. lia. }
      rewrite Hne. unfold bind at 1. unfold soWrite at 1.
      destruct (Z.eqb_spec (blen d) 0) as [|_]; [contradiction|].
      set (w1 := set_outgoing _ _).
      assert (Hs1 : store w1 b = GeneratorReader (Yields rest)).
      { subst w1. cbn [set_outgoing store]. apply store_set_reader. }
      destruct (IH fuel b w1 Hs1) as (w' & Hrun & Hout).
      cbn [Nat.add] in Hrun. rewrite Hrun.
      exists w'. split; [reflexivity|].
      rewrite Hout. subst w1. cbn [set_outgoing outgoing set_reader app map].
      rewrite <- app_assoc. reflexivity.
Qed.

(** X7.  For a body of unknown length whose reader yields [items],
    [writeHTTPResp] writes the header block with the status line, the
    handler's lines and Transfer-Encoding: chunked, then one chunk, hex
    size CR LF data CR LF, for each buffer before the first empty one, then
    the terminal chunk, and stops: what follows an empty buffer is never
    sent. *)
Theorem writeHTTPResp_chunked_output
        (fuel : nat) (resp : HTTPRes) (items : list Buffer) (w : World) :
  store w (body resp) = GeneratorReader (Yields items) ->
  exists w',
    writeHTTPResp (S (List.length (sent_chunks items)) + fuel) resp w
    = (Ok tt, w') /\
    outgoing w' =
    outgoing w
    ++ encodeHTTPResp (code resp)
         (resHeaders resp ++ [Buffer_from "Transfer-Encoding: chunked"])
    :: map chunk (sent_chunks items ++ [[]]).
Proof.
  intros Hs. unfold writeHTTPResp. rewrite Hs. cbn [reader_length].
  change (-1 <? 0) with true. cbn iota.
  unfold bind at 1. unfold soWrite at 1.
  set (w1 := set_outgoing _ _).
  destruct (writeBody_yields items fuel (body resp) w1) as (w' & -> & Hout);
    [exact Hs|].
  exists w'. split; [reflexivity|].
  rewrite Hout. subst w1. cbn [set_outgoing outgoing].
  rewrite <- app_assoc. reflexivity.
Qed.

Lemma writeHTTPResp_chunked_output_witness :
  exists w',
    writeHTTPResp 5 (mkHTTPRes 200 [] O)
      (world_with_reader (readerFromGenerator (Yields three_chunks)))
    = (Ok tt, w') /\
    outgoing w' =
    [ encodeHTTPResp 200 [Buffer_from "Transfer-Encoding: chunked"];
      chunk (Buffer_from "ab"); chunk (Buffer_from "cde"); chunk [] ].
Proof.
  exact (writeHTTPResp_chunked_output 2 (mkHTTPRes 200 [] O) three_chunks
           (world_with_reader (readerFromGenerator (Yields three_chunks)))
           eq_refl).
Defined.

Lemma writeBody_memory_any (fuel : nat) (r : Ref) (d : Buffer) (len : Z)
      (w : World) :
  store w r = MemoryReader d false -> 0 <= len ->
  exists w', writeBody (S (S fuel)) r len w = (Ok tt, w') /\
             outgoing w' = outgoing w ++ (if blen d =? 0 then [] else [d]).
Proof.
  intros Hs Hlen. pose proof (blen_nonneg d) as Hd.
  destruct (Z.eqb_spec (blen d) 0) as [Hz|Hnz].
  - assert (Hlt : (len <? 0) = false) by (apply Z.ltb_ge; lia).
    rewrite writeBody_S. unfold bind at 1.
    rewrite (read_memory (S fuel) r d false w Hs). cbn iota.
    rewrite Hlt. apply Z.eqb_eq in Hz. rewrite Hz. cbn [negb].
    unfold bind, ret. eexists. split; [reflexivity|].
    cbn [set_reader outgoing]. now rewrite app_nil_r.
  - apply (writeBody_memory fuel r d len w Hs); lia.
Qed.

(** X8.  For a body held in memory, [writeHTTPResp] writes the header
    block with the status line, the handler's lines and a Content-Length
    equal to the number of bytes of the body, then the body in one write
    when it is not empty, and nothing else. *)
Theorem writeHTTPResp_memory_output
        (fuel : nat) (resp : HTTPRes) (d : Buffer) (w : World) :
  store w (body resp) = MemoryReader d false ->
  exists w',
    writeHTTPResp (S (S fuel)) resp w = (Ok tt, w') /\
    outgoing w' =
    outgoing w
    ++ encodeHTTPResp (code resp)
         (resHeaders resp
          ++ [Buffer_from (strcat "Content-Length: " (decimal (blen d)))])
    :: (if blen d =? 0 then [] else [d]).
Proof.
  intros Hs. pose proof (blen_nonneg d) as Hd.
  unfold writeHTTPResp. rewrite Hs. cbn [reader_length].
  destruct (Z.ltb_spec (blen d) 0) as [|_]; [lia|].
  unfold bind at 1. unfold soWrite at 1.
  set (w1 := set_outgoing _ _).
  destruct (writeBody_memory_any fuel (body resp) d (blen d) w1)
    as (w' & -> & Hout); [exact Hs|lia|].
  exists w'. split; [reflexivity|].
  rewrite Hout. subst w1. cbn [set_outgoing outgoing].
  rewrite <- app_assoc. reflexivity.
Qed.

Lemma writeHTTPResp_memory_output_witness :
  exists w',
    writeHTTPResp 2 (mkHTTPRes 404 [Buffer_from "Content-Type: text/plain"] O)
      (world_with_reader (readerFromMemory (Buffer_from "gone")))
    = (Ok tt, w') /\
    map toString (outgoing w') =
    [ strcat (line "HTTP/1.1 404 Not Found")
        (strcat (line "Content-Type: text/plain")
        (strcat (line "Content-Length: 4") CRLF));
      "gone"%string ].
Proof.
  destruct (writeHTTPResp_memory_output O
              (mkHTTPRes 404 [Buffer_from "Content-Type: text/plain"] O)
              (Buffer_from "gone")
              (world_with_reader (readerFromMemory (Buffer_from "gone")))
              eq_refl) as (w' & Hrun & Hout).
  exists w'. split; [exact Hrun|]. rewrite Hout. reflexivity.
Defined.

(** ** Every write carries bytes *)

Lemma wn_quiet {A} (m : M A) : quiet m -> writes_nonempty m.
Proof.
  intros Hq w r w' H. exists []. rewrite app_nil_r.
  split; [eapply Hq; eauto|constructor].
Qed.

Lemma wn_bind {A B} (m : M A) (k : A -> M B) :
  writes_nonempty m -> (forall a, writes_nonempty (k a)) ->
  writes_nonempty (bind m k).
Proof.
  intros Hm Hk w r w' H. unfold bind in H.
  destruct (m w) as [[a|e|] w1] eqn:E; apply Hm in E as (more1 & E & F1).
  - apply Hk in H as (more2 & H & F2). exists (more1 ++ more2).
    split; [now rewrite H, E, app_assoc|now apply Forall_app].
  - inversion H; subst. now exists more1.
  - inversion H; subst. now exists more1.
Qed.

Lemma wn_if {A} (b : bool) (m1 m2 : M A) :
  writes_nonempty m1 -> writes_nonempty m2 ->
  writes_nonempty (if b then m1 else m2).
Proof. destruct b; auto. Qed.

Lemma wn_soWrite (d : Buffer) : 0 < blen d -> writes_nonempty (soWrite d).
Proof.
  intros Hd w r w' H. inversion H; subst. exists [d].
  split; [reflexivity|now constructor].
Qed.

Lemma wn_guarded_write (d : Buffer) :
  writes_nonempty (if negb (blen d =? 0) then soWrite d else ret tt).
Proof.
  destruct (Z.eqb_spec (blen d) 0) as [Hz|Hnz]; cbn [negb].
  - apply wn_quiet, quiet_ret.
  - apply wn_soWrite. pose proof (blen_nonneg d). lia.
Qed.

Lemma wn_writeBody (fuel : nat) (b : Ref) (len : Z) :
  writes_nonempty (writeBody fuel b len).
Proof.
  induction fuel as [|fuel IH].
  - apply wn_quiet. intros w r w' H; inversion H; reflexivity.
  - rewrite writeBody_S.
    apply wn_bind; [apply wn_quiet, quiet_read|intros d].
    apply wn_bind; [apply wn_guarded_write|intros _].
    apply wn_if; [apply wn_quiet, quiet_ret|exact IH].
Qed.

Lemma encodeHTTPResp_nonempty (c : Z) (hs : list Buffer) :
  0 < blen (encodeHTTPResp c hs).
Proof.
  unfold encodeHTTPResp. rewrite Buffer_from_app, blen_app.
  pose proof (blen_nonneg (Buffer_from
    (fold_left (fun acc h => strcat acc (strcat (toString h) CRLF)) hs
       (strcat "HTTP/1.1 "
          (strcat (decimal c) (strcat " " (strcat (getStatusText c) CRLF))))))).
  change (blen (Buffer_from CRLF)) with 2. lia.
Qed.

Lemma wn_writeHTTPResp (fuel : nat) (resp : HTTPRes) :
  writes_nonempty (writeHTTPResp fuel resp).
Proof.
  intros w r w' H. unfold writeHTTPResp in H. revert H.
  apply wn_bind; [apply wn_soWrite, encodeHTTPResp_nonempty|intros _].
  apply wn_writeBody.
Qed.

Lemma quiet_handleReq (req : HTTPReq) (reqBody : Ref) :
  quiet (handleReq req reqBody).
Proof.
  intros w r w' H.
  destruct (handleReq_ok req reqBody w) as (res & w1 & E & Hout).
  rewrite E in H. inversion H; subst. exact Hout.
Qed.

Lemma wn_serverClient_iter (fuel : nat) : writes_nonempty (serverClient_iter fuel).
Proof.
  unfold serverClient_iter.
  apply wn_bind; [apply wn_quiet, quiet_cutMessage|intros [msg|]].
  - apply wn_bind; [apply wn_quiet, quiet_liftE|intros rb].
    apply wn_bind; [apply wn_quiet, quiet_alloc|intros reqBody].
    apply wn_bind; [apply wn_quiet, quiet_handleReq|intros res].
    apply wn_bind.
    + intros w r w' H. unfold finally_, closeReader, ret in H.
      destruct (writeHTTPResp fuel res w) as [r1 w1] eqn:E.
      inversion H; subst. eapply wn_writeHTTPResp; eauto.
    + intros _. apply wn_if; [apply wn_quiet, quiet_ret|].
      apply wn_bind; [apply wn_quiet, quiet_drain|intros _].
      apply wn_quiet, quiet_ret.
  - apply wn_quiet. auto 12 with writes.
Qed.

Lemma wn_serverClient_loop (fuel : nat) : writes_nonempty (serverClient_loop fuel).
Proof.
  induction fuel as [|fuel IH]; cbn [serverClient_loop].
  - apply wn_quiet. intros w r w' H; inversion H; reflexivity.
  - apply wn_bind; [apply wn_serverClient_iter|intros [|]];
      [exact IH|apply wn_quiet, quiet_ret].
Qed.

Lemma wn_newConn_catch (fuel : nat) (e : Failure) :
  writes_nonempty (newConn_catch fuel e).
Proof.
  destruct e as [c message|message]; cbn [newConn_catch];
    [|apply wn_quiet, quiet_ret].
  intros w r w' H.
  match type of H with
  | match ?m w with _ => _ end = _ => destruct (m w) as [r1 w1] eqn:E
  end.
  assert (Hw : exists more, outgoing w1 = outgoing w ++ more /\
                            Forall (fun d => 0 < blen d) more).
  { revert E. apply wn_bind; [apply wn_quiet, quiet_alloc|intros b].
    apply wn_writeHTTPResp. }
  destruct r1 as [[]|e1|]; inversion H; subst; exact Hw.
Qed.

Lemma wn_newConn (fuel : nat) : writes_nonempty (newConn fuel).
Proof.
  intros w r w'.
  unfold newConn, newConn_finish, serverClient. intros H.
  destruct ((put_buf (mkDynBuf (Buffer_alloc 0) 0) ;; serverClient_loop fuel) w)
    as [r1 w1] eqn:E.
  assert (H1 : exists more, outgoing w1 = outgoing w ++ more /\
                            Forall (fun d => 0 < blen d) more).
  { revert E. apply wn_bind; [|intros _; apply wn_serverClient_loop].
    apply wn_quiet. intros w0 r0 w0' H0; inversion H0; reflexivity. }
  destruct H1 as (more1 & H1 & F1).
  destruct r1 as [[]|e|].
  - inversion H; subst. exists more1. now split.
  - destruct (newConn_catch fuel e w1) as [r2 w2] eqn:E2.
    apply wn_newConn_catch in E2 as (more2 & H2 & F2).
    exists (more1 ++ more2).
    split; [|now apply Forall_app].
    destruct r2 as [[]|e2|]; inversion H; subst; cbn [set_destroyed outgoing];
      now rewrite H2, H1, app_assoc.
  - inversion H; subst. exists more1. now split.
Qed.

(** X9.  Whatever the peer sends and whatever the state of the
    connection, every buffer that [newConn] hands to [soWrite] holds at
    least one byte: the assertion at the head of [soWrite] never fails,
    for the header blocks, the bodies with a Content-Length, the chunks
    and the error answers alike. *)
Theorem newConn_never_writes_an_empty_buffer (fuel : nat) (w : World) :
  exists more,
    outgoing (snd (newConn fuel w)) = outgoing w ++ more /\
    Forall (fun d => 0 < blen d) more.
Proof.
  destruct (newConn fuel w) as [r w'] eqn:E.
  exact (wn_newConn fuel w r w' E).
Qed.

(** ** The file-backed reader *)

Lemma readMany_file_bound (fuel k : nat) (size : Z) :
  forall got fp w,
  yielded (fst (fst (readMany fuel k (StaticFileReader size got fp) w)))
  <= Z.max 0 (size - got).
Proof.
  induction k as [|k IH]; intros got fp w; cbn [readMany].
  - simpl. lia.
  - cbn [readerRead]. destruct (fp_read fp) as [bytes fp'].
    pose proof (blen_nonneg bytes) as Hb.
    specialize (IH (got + blen bytes) fp' w).
    destruct ((size <? got + blen bytes)
              || ((got + blen bytes <? size) && (blen bytes =? 0))) eqn:E.
    + destruct (readMany fuel k _ w) as [[rs r2] w2]. simpl in *. lia.
    + apply orb_false_iff in E as [E _]. apply Z.ltb_ge in E.
      destruct (readMany fuel k _ w) as [[rs r2] w2]. simpl in *. lia.
Qed.

(** X10.  Whatever the file hands back, the reader of [readerFromStaticFile]
    never hands out more bytes in total than the size it was built with,
    the size that was sent as Content-Length: a read that would pass it
    fails instead. *)
Theorem readerFromStaticFile_never_exceeds_size
        (fuel k : nat) (fp : list Buffer) (size : Z) (w : World) :
  yielded (fst (fst (readMany fuel k (readerFromStaticFile fp size) w)))
  <= Z.max 0 size.
Proof.
  unfold readerFromStaticFile.
  pose proof (readMany_file_bound fuel k size 0 fp w) as H.
  now rewrite Z.sub_0_r in H.
Qed.

Lemma read_file_chunk (fuel : nat) (b : Ref) (size got : Z) (d : Buffer)
      (fp : list Buffer) (w : World) :
  store w b = StaticFileReader size got (d :: fp) ->
  0 < blen d -> got + blen d <= size ->
  read fuel b w = (Ok d, set_reader w b (StaticFileReader size (got + blen d) fp)).
Proof.
  intros Hs Hd Hle. unfold read. rewrite Hs. cbn [readerRead fp_read].
  destruct (Z.ltb_spec size (got + blen d)); [lia|].
  destruct (Z.eqb_spec (blen d) 0); [lia|].
  rewrite andb_false_r. reflexivity.
Qed.

Lemma read_file_end (fuel : nat) (b : Ref) (size : Z) (w : World) :
  store w b = StaticFileReader size size [] ->
  read fuel b w = (Ok [], set_reader w b (StaticFileReader size size [])).
Proof.
  intros Hs. unfold read. rewrite Hs. cbn [readerRead fp_read].
  change (blen []) with 0. rewrite Z.add_0_r, Z.ltb_irrefl. reflexivity.
Qed.

Lemma writeBody_file (chunks : list Buffer) :
  forall (fuel : nat) (b : Ref) (size got : Z) (w : World),
  store w b = StaticFileReader size got chunks ->
  Forall (fun d => 0 < blen d) chunks ->
  got + total_bytes chunks = size -> 0 <= size ->
  exists w',
    writeBody (S (List.length chunks) + fuel) b size w = (Ok tt, w') /\
    outgoing w' = outgoing w ++ chunks.
Proof.
  induction chunks as [|d rest IH]; intros fuel b size got w Hs Hne Htot Hsize.
  - unfold total_bytes in Htot. cbn in Htot. change (blen []) with 0 in Htot.
    assert (got = size) by lia. subst got.
    cbn [List.length Nat.add]. rewrite writeBody_S. unfold bind at 1.
    rewrite (read_file_end fuel b size w Hs).
    destruct (Z.ltb_spec size 0); [lia|].
    change (blen [] =? 0) with true. cbn [negb].
    unfold bind, ret. eexists. split; [reflexivity|].
    cbn [set_reader outgoing]. now rewrite app_nil_r.
  - apply Forall_cons_iff in Hne as [Hd Hrest].
    unfold total_bytes in Htot. cbn [List.concat] in Htot.
    rewrite blen_app in Htot. fold (total_bytes rest) in Htot.
    assert (Hr : 0 <= total_bytes rest) by apply blen_nonneg.
    cbn [List.length Nat.add]. rewrite writeBody_S. unfold bind at 1.
    rewrite (read_file_chunk _ b size got d rest w Hs Hd) by lia.
    destruct (Z.ltb_spec size 0); [lia|].
    destruct (Z.eqb_spec (blen d) 0); [lia|]. cbn [negb].
    unfold bind at 1. unfold soWrite at 1.
    set (w1 := set_outgoing _ _).
    assert (Hs1 : store w1 b = StaticFileReader size (got + blen d) rest).
    { subst w1. cbn [set_outgoing store]. apply store_set_reader. }
    destruct (IH fuel b size (got + blen d) w1 Hs1 Hrest) as (w' & Hrun & Hout);
      [lia|lia|].
    cbn [Nat.add] in Hrun. rewrite Hrun.
    exists w'. split; [reflexivity|].
    rewrite Hout. subst w1. cbn [set_outgoing outgoing set_reader].
    rewrite <- app_assoc. reflexivity.
Qed.

(** X11.  A file that hands back its [size] bytes in reads that are not
    empty is sent whole: [writeHTTPResp] writes the header block with
    Content-Length equal to [size] and then every read of the file, in
    order, as one write each, and ends without failure at the file's
    end. *)
Theorem writeHTTPResp_sends_the_file
        (fuel : nat) (resp : HTTPRes) (size : Z) (chunks : list Buffer)
        (w : World) :
  store w (body resp) = readerFromStaticFile chunks size ->
  Forall (fun d => 0 < blen d) chunks ->
  total_bytes chunks = size ->
  exists w',
    writeHTTPResp (S (List.length chunks) + fuel) resp w = (Ok tt, w') /\
    outgoing w' =
    outgoing w
    ++ encodeHTTPResp (code resp)
         (resHeaders resp
          ++ [Buffer_from (strcat "Content-Length: " (decimal size))])
    :: chunks.
Proof.
  intros Hs Hne Htot.
  assert (Hsize : 0 <= size) by (subst size; apply blen_nonneg).
  unfold writeHTTPResp. rewrite Hs. cbn [readerFromStaticFile reader_length].
  destruct (Z.ltb_spec size 0); [lia|].
  unfold bind at 1. unfold soWrite at 1.
  set (w1 := set_outgoing _ _).
  destruct (writeBody_file chunks fuel (body resp) size 0 w1)
    as (w' & -> & Hout); [exact Hs|exact Hne|lia|lia|].
  exists w'. split; [reflexivity|].
  rewrite Hout. subst w1. cbn [set_outgoing outgoing].
  rewrite <- app_assoc. reflexivity.
Qed.

Lemma writeHTTPResp_sends_the_file_witness :
  exists w',
    writeHTTPResp 4 (mkHTTPRes 200 [] O)
      (world_with_reader (readerFromStaticFile file_chunks 15))
    = (Ok tt, w') /\
    outgoing w' =
    encodeHTTPResp 200 [Buffer_from "Content-Length: 15"] :: file_chunks.
Proof.
  assert (Hne : Forall (fun d => 0 < blen d) file_chunks)
    by (repeat constructor).
  exact (writeHTTPResp_sends_the_file O (mkHTTPRes 200 [] O) 15 file_chunks
           (world_with_reader (readerFromStaticFile file_chunks 15))
           eq_refl Hne eq_refl).
Defined.

(** ** Invariants of the loops over a reader *)

Section LoopInvariant.

Variable P : World -> Prop.
Variable b : Ref.
Hypothesis P_read :
  forall fuel w r w', P w -> read fuel b w = (r, w') -> P w'.
Hypothesis P_write :
  forall w d, P w -> P (set_outgoing w (outgoing w ++ [d])).

Lemma writeBody_keeps (fuel : nat) (len : Z) :
  forall w r w', P w -> writeBody fuel b len w = (r, w') -> P w'.
Proof.
  induction fuel as [|fuel IH]; intros w r w' HP H.
  - inversion H; subst; exact HP.
  - rewrite writeBody_S in H. unfold bind at 1 in H.
    destruct (read fuel b w) as [[d|e|] w1] eqn:E1;
      pose proof (P_read _ _ _ _ HP E1) as HP1;
      try (inversion H; subst; exact HP1).
    unfold bind at 1 in H.
    match type of H with
    | match ?m w1 with _ => _ end = _ => destruct (m w1) as [r2 w2] eqn:E2
    end.
    assert (HP2 : P w2).
    { destruct (negb _) in E2.
      - unfold soWrite in E2. inversion E2; subst. now apply P_write.
      - inversion E2; subst. exact HP1. }
    destruct r2 as [[]|e|]; try (inversion H; subst; exact HP2).
    destruct (blen d =? 0).
    + inversion H; subst; exact HP2.
    + eapply IH; eauto.
Qed.

Lemma writeHTTPResp_keeps (fuel : nat) (resp : HTTPRes) :
  body resp = b ->
  forall w r w', P w -> writeHTTPResp fuel resp w = (r, w') -> P w'.
Proof.
  intros Hb w r w' HP H. unfold writeHTTPResp in H. rewrite Hb in H.
  unfold bind at 1 in H. unfold soWrite at 1 in H.
  eapply writeBody_keeps; [|exact H]. now apply P_write.
Qed.

Lemma drain_keeps (fuel : nat) :
  forall w r w', P w -> drain fuel b w = (r, w') -> P w'.
Proof.
  induction fuel as [|fuel IH]; intros w r w' HP H.
  - inversion H; subst; exact HP.
  - cbn [drain] in H. unfold bind at 1 in H.
    destruct (read fuel b w) as [[d|e|] w1] eqn:E1;
      pose proof (P_read _ _ _ _ HP E1) as HP1;
      try (inversion H; subst; exact HP1).
    destruct (0 <? blen d).
    + eapply IH; eauto.
    + inversion H; subst; exact HP1.
Qed.

End LoopInvariant.

(** A calm reader keeps the buffer within its invariant and stays calm. *)
Lemma readerRead_calm (fuel : nat) (v : BodyReader) (w : World)
      (r : Res Buffer) (v' : BodyReader) (w' : World) :
  calm v -> buf_wf (buf w) ->
  readerRead fuel v w = (r, v', w') ->
  calm v' /\ buf_wf (buf w').
Proof.
  intros Hc Hwf H. destruct v as [len remain|d done|g|size got fp].
  - cbn [calm] in Hc.
    destruct (readerRead_ConnLength fuel len remain w Hwf Hc)
      as (res & n & w1 & E & Hwf1 & _ & Hres).
    rewrite E in H. inversion H; subst. split; [|exact Hwf1].
    cbn [calm]. destruct Hres as [(d & _ & _ & Hn & _)|(_ & -> & _)]; lia.
  - cbn [readerRead] in H. destruct done; inversion H; subst; now split.
  - destruct g as [pc|i|items]; [contradiction| |].
    + cbn [readerRead gen_next] in H.
      destruct (i <? 100); inversion H; subst; now split.
    + cbn [readerRead gen_next] in H.
      destruct items; inversion H; subst; now split.
  - cbn [readerRead] in H. destruct (fp_read fp) as [bytes fp'].
    destruct ((size <? got + blen bytes) || _); inversion H; subst; now split.
Qed.

(** A detached reader leaves the world as it is and stays detached. *)
Lemma readerRead_detached (fuel : nat) (v : BodyReader) (w : World)
      (r : Res Buffer) (v' : BodyReader) (w' : World) :
  detached v -> readerRead fuel v w = (r, v', w') -> detached v' /\ w' = w.
Proof.
  intros Hd H. destruct v as [len remain|d done|g|size got fp];
    [contradiction| | |].
  - cbn [readerRead] in H. destruct done; inversion H; subst; now split.
  - destruct g as [pc|i|items]; [contradiction| |].
    + cbn [readerRead gen_next] in H.
      destruct (i <? 100); inversion H; subst; now split.
    + cbn [readerRead gen_next] in H.
      destruct items; inversion H; subst; now split.
  - cbn [readerRead] in H. destruct (fp_read fp) as [bytes fp'].
    destruct ((size <? got + blen bytes) || _); inversion H; subst; now split.
Qed.

Lemma detached_calm (v : BodyReader) : detached v -> calm v.
Proof. destruct v as [| |[]|]; cbn; tauto. Qed.

(** [handleReq] answers without touching socket or buffer; its response
    body is the request's reader itself (for /echo) or a new detached
    reader, and the request's reader is as it was. *)
Lemma handleReq_spec (req : HTTPReq) (r0 : Ref) (w : World) :
  (r0 < next_ref w)%nat ->
  exists res w',
    handleReq req r0 w = (Ok res, w') /\
    buf w' = buf w /\ incoming w' = incoming w /\ outgoing w' = outgoing w /\
    store w' r0 = store w r0 /\
    (body res = r0 \/ (body res <> r0 /\ detached (store w' (body res)))).
Proof.
  intros Hr.
  assert (Hne : Nat.eqb r0 (next_ref w) = false) by (apply Nat.eqb_neq; lia).
  assert (Hne' : Nat.eqb r0 (S (next_ref w)) = false) by (apply Nat.eqb_neq; lia).
  assert (Hfresh : next_ref w <> r0) by lia.
  assert (Hfresh' : S (next_ref w) <> r0) by lia.
  unfold handleReq.
  destruct (String.prefix "/files/" (toString (uri req))).
  - unfold serveStaticFile, respError, bind, alloc, new_reader, ret.
    destruct (files w _); eexists _, _;
      (split; [reflexivity|]); cbn [buf incoming outgoing store body];
      rewrite ?Hne, ?Nat.eqb_refl; splits; try reflexivity;
      right; split; try assumption; exact I.
  - destruct (streq (toString (uri req)) "/echo").
    + unfold bind, ret. eexists _, _. split; [reflexivity|].
      splits; try reflexivity. now left.
    + destruct (streq (toString (uri req)) "/sheep");
        unfold bind, alloc, new_reader, ret; eexists _, _;
        (split; [reflexivity|]); cbn [buf incoming outgoing store body next_ref];
        rewrite ?Hne, ?Hne', ?Nat.eqb_refl; splits; try reflexivity;
        right; split; try assumption; exact I.
Qed.

Lemma readerFromReq_kinds (req : HTTPReq) (rb : BodyReader) :
  readerFromReq req = inr rb ->
  (exists n, 0 <= n /\ rb = ConnLengthReader n n) \/ rb = chunked_reader.
Proof.
  unfold readerFromReq.
  destruct (match fieldGet (headers req) "Content-Length" with
            | Some contentLen => _
            | None => _
            end) as [e|bodyLen]; [discriminate|].
  cbv zeta.
  destruct (negb (negb _) && _); [discriminate|].
  match goal with
  | |- context [0 <=? ?n] => destruct (Z.leb_spec 0 n) as [Hle|_]
  end.
  - intros H; inversion H; subst. left. eexists. split; [exact Hle|reflexivity].
  - destruct (match fieldGet _ _ with Some _ => _ | None => _ end);
      [|discriminate].
    intros H; inversion H; subst. now right.
Qed.

Lemma cutMessage_throw_world (w : World) (e : Failure) (w' : World) :
  cutMessage w = (Throw e, w') -> w' = w.
Proof.
  unfold cutMessage, bind, get_buf.
  destruct (indexOf (unread (buf w)) _ <? 0).
  - destruct (kMaxHeaderLen <=? buf_length (buf w));
      intros H; inversion H; reflexivity.
  - destruct (parseHTTPReq _) as [e1|msg]; simpl.
    + intros H; inversion H; reflexivity.
    + discriminate.
Qed.

Lemma cutMessage_not_out_of_fuel (w w' : World) :
  cutMessage w <> (OutOfFuel, w').
Proof.
  unfold cutMessage, bind, get_buf.
  destruct (indexOf (unread (buf w)) _ <? 0).
  - destruct (kMaxHeaderLen <=? buf_length (buf w)); discriminate.
  - destruct (parseHTTPReq _) as [e1|msg]; simpl; discriminate.
Qed.


(** A calm reader leaves the table of readers alone. *)
Lemma readerRead_calm_store (fuel : nat) (v : BodyReader) (w : World)
      (r : Res Buffer) (v' : BodyReader) (w' : World) :
  calm v -> readerRead fuel v w = (r, v', w') -> store w' = store w.
Proof.
  intros Hc H. destruct v as [len remain|d done|g|size got fp].
  - cbn [readerRead] in H.
    destruct (remain =? 0); [inversion H; reflexivity|].
    match type of H with
    | (let (_, _) := ?X in _) = _ => destruct X as [r1 w1] eqn:E
    end.
    assert (Hs : store w1 = store w).
    { destruct (buf_length (buf w) =? 0).
      - unfold bind, soRead, push, throw, ret in E.
        destruct (incoming w) as [|d rest];
          cbn [buf set_incoming] in E;
          destruct (bufPush (buf w) _) as [[] b1];
          try destruct (blen _ =? 0); inversion E; reflexivity.
      - inversion E; reflexivity. }
    destruct r1 as [[]|e|]; inversion H; subst; exact Hs.
  - cbn [readerRead] in H. destruct done; inversion H; reflexivity.
  - destruct g as [pc|i|items]; [contradiction| |];
      cbn [readerRead gen_next] in H.
    + destruct (i <? 100); inversion H; reflexivity.
    + destruct items; inversion H; reflexivity.
  - cbn [readerRead] in H. destruct (fp_read fp) as [bytes fp'].
    destruct ((size <? got + blen bytes) || _); inversion H; reflexivity.
Qed.

Lemma read_calm_round (b0 b1 b : Ref) (fuel : nat) (w : World)
      (r : Res Buffer) (w' : World) :
  b = b0 \/ b = b1 ->
  calm_round b0 b1 w -> read fuel b w = (r, w') -> calm_round b0 b1 w'.
Proof.
  intros Hb (Hwf & H0 & H1) H. unfold read in H.
  destruct (readerRead fuel (store w b) w) as [[res v] w1] eqn:E.
  inversion H; subst r w'; clear H.
  assert (Hc : calm (store w b)) by (destruct Hb; subst; assumption).
  destruct (readerRead_calm _ _ _ _ _ _ Hc Hwf E) as [Hv Hwf1].
  pose proof (readerRead_calm_store _ _ _ _ _ _ Hc E) as Hs.
  unfold calm_round. cbn [set_reader buf store]. rewrite Hs.
  splits; [exact Hwf1| |].
  - destruct (Nat.eqb b0 b); assumption.
  - destruct (Nat.eqb b1 b); assumption.
Qed.

Lemma write_calm_round (b0 b1 : Ref) (w : World) (d : Buffer) :
  calm_round b0 b1 w -> calm_round b0 b1 (set_outgoing w (outgoing w ++ [d])).
Proof. intros H; exact H. Qed.

(** A round of the loop whose request is not given the chunked decoder
    keeps the receive buffer within its invariant, however it ends. *)
Lemma serverClient_iter_wf (fuel : nat) (w : World) (r : Res LoopCtl)
      (w' : World) :
  buf_wf (buf w) ->
  (forall msg w1, cutMessage w = (Ok (Some msg), w1) ->
                  readerFromReq msg <> inr chunked_reader) ->
  serverClient_iter fuel w = (r, w') ->
  buf_wf (buf w').
Proof.
  intros Hwf Hnc H. unfold serverClient_iter in H. unfold bind at 1 in H.
  destruct (cutMessage w) as [[[msg|]|e|] w1] eqn:Ecut.
  - destruct (cutMessage_some _ _ _ Hwf Ecut) as (hdr & _ & _ & _ & Hwf1 & _).
    specialize (Hnc _ _ eq_refl).
    unfold bind at 1 in H. unfold liftE in H.
    destruct (readerFromReq msg) as [e|rb] eqn:Erb.
    { inversion H; subst; exact Hwf1. }
    assert (Hrb : calm rb).
    { destruct (readerFromReq_kinds _ _ Erb) as [(n & Hn & ->)| ->].
      - exact Hn.
      - now contradiction Hnc. }
    change (ret rb w1) with (Ok rb, w1) in H. cbv iota beta in H.
    unfold bind at 1 in H. unfold alloc at 1 in H. cbn [new_reader] in H.
    set (wa := mkWorld _ _ _ _ _ _ _) in H.
    assert (Hlt : (next_ref w1 < next_ref wa)%nat) by (cbn; lia).
    destruct (handleReq_spec msg (next_ref w1) wa Hlt)
      as (res & wh & Eh & Hbuf & _ & _ & Hst & Hbody).
    unfold bind at 1 in H. rewrite Eh in H.
    assert (HP : calm_round (next_ref w1) (body res) wh).
    { unfold calm_round. rewrite Hbuf, Hst. splits.
      - exact Hwf1.
      - cbn [wa store]. now rewrite Nat.eqb_refl.
      - destruct Hbody as [->|[_ Hd]].
        + rewrite Hst. cbn [wa store]. now rewrite Nat.eqb_refl.
        + now apply detached_calm. }
    unfold bind at 1 in H. unfold finally_, closeReader, ret at 1 in H.
    destruct (writeHTTPResp fuel res wh) as [r2 w2] eqn:Ew.
    assert (HP2 : calm_round (next_ref w1) (body res) w2).
    { eapply (writeHTTPResp_keeps (calm_round (next_ref w1) (body res))
                                  (body res));
        [ intros f0 x r0 x' Hx Hr;
          exact (read_calm_round _ _ _ _ _ _ _ (or_intror eq_refl) Hx Hr)
        | intros; now apply write_calm_round
        | reflexivity | exact HP | exact Ew ]. }
    destruct r2 as [[]|e|]; try (inversion H; subst; exact (proj1 HP2)).
    destruct (streq (version msg) "1.0").
    { inversion H; subst; exact (proj1 HP2). }
    unfold bind at 1 in H.
    destruct (drain fuel (next_ref w1) w2) as [r3 w3] eqn:Ed.
    assert (HP3 : calm_round (next_ref w1) (body res) w3).
    { eapply (drain_keeps (calm_round (next_ref w1) (body res))
                          (next_ref w1));
        [ intros f0 x r0 x' Hx Hr;
          exact (read_calm_round _ _ _ _ _ _ _ (or_introl eq_refl) Hx Hr)
        | exact HP2 | exact Ed ]. }
    destruct r3 as [[]|e|]; inversion H; subst; exact (proj1 HP3).
  - assert (w1 = w) as ->.
    { revert Ecut. unfold cutMessage, bind, get_buf.
      destruct (indexOf (unread (buf w)) _ <? 0).
      - destruct (kMaxHeaderLen <=? buf_length (buf w));
          intros E; inversion E; reflexivity.
      - destruct (parseHTTPReq _); simpl; discriminate. }
    unfold bind, soRead, push, get_buf, throw, ret in H.
    destruct (incoming w) as [|d rest]; cbn [buf set_incoming] in H.
    + destruct (bufPush_spec (buf w) [] Hwf) as (b1 & Eb & Hwf1 & _).
      rewrite Eb in H. cbn [set_buf buf] in H.
      destruct (_ && _); [|destruct (blen _ =? 0)];
        inversion H; subst; exact Hwf1.
    + destruct (bufPush_spec (buf w) d Hwf) as (b1 & Eb & Hwf1 & _).
      rewrite Eb in H. cbn [set_buf buf] in H.
      destruct (_ && _); [|destruct (blen _ =? 0)];
        inversion H; subst; exact Hwf1.
  - apply cutMessage_throw_world in Ecut. subst w1.
    inversion H; subst; exact Hwf.
  - now apply cutMessage_not_out_of_fuel in Ecut.
Qed.

(** X12.  A round of the loop of [serverClient] that starts with the
    receive buffer within its invariant (0 <= length <= capacity) ends
    with the buffer within its invariant, whatever the round does (waits
    for more data, answers a request, fails), provided the request it
    cuts, if any, is not given the chunked decoder as its body reader. *)
Theorem round_keeps_buffer_invariant (fuel : nat) (w : World) :
  buf_wf (buf w) ->
  (forall msg w1, cutMessage w = (Ok (Some msg), w1) ->
                  readerFromReq msg <> inr chunked_reader) ->
  buf_wf (buf (snd (serverClient_iter fuel w))).
Proof.
  intros Hwf Hnc.
  destruct (serverClient_iter fuel w) as [r w'] eqn:E.
  exact (serverClient_iter_wf fuel w r w' Hwf Hnc E).
Qed.

Lemma round_keeps_buffer_invariant_witness :
  buf_wf (buf (snd (serverClient_iter 5 get_then_rest))).
Proof.
  apply round_keeps_buffer_invariant.
  - vm_compute. split; discriminate.
  - intros msg w1 E. vm_compute in E. inversion E; subst.
    vm_compute. discriminate.
Defined.




(** ** The bytes of a body, in order *)

Lemma blen_handed_out (rs : list (Res Buffer)) :
  blen (handed_out rs) = yielded rs.
Proof.
  induction rs as [|[d|e|] rs IH]; cbn [handed_out yielded];
    [reflexivity| |exact IH|exact IH].
  rewrite blen_app, IH. reflexivity.
Qed.

(** Taking a read of the socket into the buffer leaves the stream as it
    was. *)
Lemma refill_stream (e : Failure) (w : World) (r : Res unit) (w1 : World) :
  buf_wf (buf w) ->
  (d <- soRead ;; push d ;; if blen d =? 0 then throw e else ret tt) w
  = (r, w1) ->
  stream w1 = stream w /\ buf_wf (buf w1).
Proof.
  intros Hwf H.
  destruct (expect_more_spec e w Hwf) as (d & b' & Eb & Hwf' & _ & Hd & Hm).
  cbv zeta in Hm. rewrite Hm in H. inversion H; subst r w1; clear H.
  destruct (bufPush_spec (buf w) d Hwf) as (b2 & Eb2 & _ & Hu & _).
  rewrite Eb in Eb2. inversion Eb2; subst b2; clear Eb2.
  split; [|exact Hwf'].
  unfold stream. cbn [set_buf set_incoming buf incoming].
  rewrite Hu, <- app_assoc. f_equal.
  subst d. destruct (incoming w); reflexivity.
Qed.

Lemma readerRead_ConnLength_stream (fuel : nat) (len remain : Z) (w : World)
      (res : Res Buffer) (v' : BodyReader) (w' : World) :
  buf_wf (buf w) -> 0 <= remain ->
  readerRead fuel (ConnLengthReader len remain) w = (res, v', w') ->
  handed_out [res] ++ stream w' = stream w.
Proof.
  intros Hwf Hr H. cbn [readerRead] in H.
  destruct (remain =? 0); [inversion H; reflexivity|].
  match type of H with
  | (let (_, _) := ?X in _) = _ => destruct X as [r1 w1] eqn:E
  end.
  assert (Hs : stream w1 = stream w /\ buf_wf (buf w1)).
  { destruct (buf_length (buf w) =? 0).
    - eapply refill_stream; eassumption.
    - inversion E; subst. now split. }
  destruct Hs as [Hs Hwf1].
  destruct r1 as [[]|e|]; inversion H; subst; clear H;
    cbn [handed_out app]; [|exact Hs|exact Hs].
  rewrite app_nil_r, <- Hs.
  set (consume := Z.min (buf_length (buf w1)) remain).
  assert (Hc : 0 <= consume <= buf_length (buf w1))
    by (destruct Hwf1; subst consume; lia).
  destruct (bufPop_spec (buf w1) consume Hwf1 Hc) as (_ & Hu & _).
  unfold stream. cbn [set_buf buf incoming].
  rewrite Hu, (subarray_prefix_unread _ _ Hwf1 Hc), app_assoc, firstn_skipn.
  reflexivity.
Qed.

Lemma readMany_ConnLength_stream (fuel : nat) (len : Z) (k : nat) :
  forall remain w rs v' w',
  buf_wf (buf w) -> 0 <= remain ->
  readMany fuel k (ConnLengthReader len remain) w = (rs, v', w') ->
  handed_out rs ++ stream w' = stream w.
Proof.
  induction k as [|k IH]; intros remain w rs v' w' Hwf Hr H; cbn [readMany] in H.
  - inversion H; reflexivity.
  - destruct (readerRead_ConnLength fuel len remain w Hwf Hr)
      as (res & n & w1 & E & Hwf1 & _ & Hres).
    pose proof (readerRead_ConnLength_stream _ _ _ _ _ _ _ Hwf Hr E) as Hs.
    rewrite E in H.
    destruct (readMany fuel k (ConnLengthReader len (remain - n)) w1)
      as [[rs2 v2] w2] eqn:E2.
    inversion H; subst; clear H.
    assert (Hn : 0 <= remain - n).
    { destruct Hres as [(d & _ & _ & Hn & _)|(_ & -> & Hn & _)]; lia. }
    specialize (IH _ _ _ _ _ Hwf1 Hn E2).
    rewrite <- Hs, <- IH.
    destruct res as [d|e|]; cbn [handed_out app];
      rewrite ?app_nil_r, <- ?app_assoc; reflexivity.
Qed.

(** X14.  The reader of [readerFromConnLength] hands out the bytes of the
    connection in order, with none lost, repeated or moved: after any
    number of [read()] calls over a buffer within its invariant, the bytes
    handed out followed by what the connection still holds (unread in the
    buffer, then the reads to come) are what the connection held before;
    there are at most [N] of them. *)
Theorem readerFromConnLength_hands_out_the_stream
        (fuel k : nat) (N : Z) (w : World) :
  0 <= N -> buf_wf (buf w) ->
  let '(rs, _, w') := readMany fuel k (readerFromConnLength N) w in
  handed_out rs ++ stream w' = stream w /\ blen (handed_out rs) <= N.
Proof.
  intros HN Hwf. unfold readerFromConnLength.
  destruct (readMany_ConnLength fuel N k N w Hwf HN)
    as (rs & w' & E & _ & Hy).
  rewrite E. split.
  - exact (readMany_ConnLength_stream _ _ _ _ _ _ _ _ Hwf HN E).
  - rewrite blen_handed_out. lia.
Qed.

Lemma readerFromConnLength_hands_out_the_stream_witness :
  let '(rs, _, w') :=
    readMany 3 4 (readerFromConnLength 5) seven_bytes_then_eof in
  handed_out rs ++ stream w' = stream seven_bytes_then_eof /\
  blen (handed_out rs) <= 5.
Proof.
  apply (readerFromConnLength_hands_out_the_stream 3 4 5 seven_bytes_then_eof).
  - lia.
  - vm_compute. split; discriminate.
Defined.

(** ** The chunked decoder on a body that has arrived *)

Lemma parse_digits_hex (u : Hexadecimal.uint) :
  forall acc,
  parse_digits 16 (HexadecimalString.NilEmpty.string_of_uint u) (Some acc)
  = Some (uint_value u acc).
Proof.
  induction u; intros acc;
    cbn [HexadecimalString.NilEmpty.string_of_uint uint_value];
    [reflexivity|..]; cbn; apply IHu.
Qed.

Lemma uint_value_acc (u : Hexadecimal.uint) :
  forall p, uint_value u (Z.pos p) = Z.pos (Pos.of_hex_uint_acc u p).
Proof.
  induction u; intros p; cbn [uint_value Pos.of_hex_uint_acc];
    [reflexivity|..];
    rewrite <- IHu; f_equal; lia.
Qed.

Lemma uint_value_0 (u : Hexadecimal.uint) :
  uint_value u 0 = Z.of_N (Pos.of_hex_uint u).
Proof.
  induction u; cbn [uint_value Pos.of_hex_uint];
    [reflexivity|exact IHu|..];
    cbn [Z.mul Z.add Z.of_N]; apply uint_value_acc.
Qed.

(** The digits of a hexadecimal numeral are no white space, no sign and
    no letter x. *)
Lemma parse_sign_hex (u : Hexadecimal.uint) :
  u <> Hexadecimal.Nil ->
  parse_sign (trimStart (HexadecimalString.NilEmpty.string_of_uint u))
  = (false, HexadecimalString.NilEmpty.string_of_uint u).
Proof. destruct u; [contradiction|reflexivity..]. Qed.

Lemma parse_radix_hex (u : Hexadecimal.uint) :
  parse_radix 16 (HexadecimalString.NilEmpty.string_of_uint u)
  = (16, HexadecimalString.NilEmpty.string_of_uint u).
Proof. destruct u; try reflexivity; destruct u; reflexivity. Qed.

Lemma parse_digits_hex_first (u : Hexadecimal.uint) :
  u <> Hexadecimal.Nil ->
  parse_digits 16 (HexadecimalString.NilEmpty.string_of_uint u) None
  = Some (uint_value u 0).
Proof. destruct u; [contradiction|..]; intros _; cbn; apply parse_digits_hex. Qed.

Lemma parseInt_hex_uint (u : Hexadecimal.uint) :
  u <> Hexadecimal.Nil ->
  parseInt (HexadecimalString.NilEmpty.string_of_uint u) 16
  = Some (uint_value u 0).
Proof.
  intros Hn. unfold parseInt. rewrite (parse_sign_hex u Hn).
  change (negb (16 =? 0) && ((16 <? 2) || (36 <? 16))) with false.
  cbv iota. rewrite parse_radix_hex, (parse_digits_hex_first u Hn).
  reflexivity.
Qed.

Lemma hex_string (n : Z) :
  hex n = HexadecimalString.NilEmpty.string_of_uint (N.to_hex_uint (Z.to_N n))
  /\ N.to_hex_uint (Z.to_N n) <> Hexadecimal.Nil.
Proof.
  unfold hex.
  assert (H : N.to_hex_uint (Z.to_N n) <> Hexadecimal.Nil).
  { destruct (Z.to_N n); [discriminate|].
    apply HexadecimalPos.Unsigned.to_uint_nonnil. }
  split; [|exact H].
  destruct (N.to_hex_uint (Z.to_N n)); [contradiction|reflexivity..].
Qed.

(** [parseInt] in radix 16 reads back what [toString(16)] wrote. *)
Lemma parseInt_hex (n : Z) : 0 <= n -> parseInt (hex n) 16 = Some n.
Proof.
  intros Hn. destruct (hex_string n) as [-> Hnil].
  rewrite (parseInt_hex_uint _ Hnil), uint_value_0.
  change (Pos.of_hex_uint (N.to_hex_uint (Z.to_N n)))
    with (N.of_hex_uint (N.to_hex_uint (Z.to_N n))).
  rewrite HexadecimalN.Unsigned.of_to. f_equal. lia.
Qed.

Lemma has_char_CR_hex (n : Z) : has_char CR (hex n) = false.
Proof.
  destruct (hex_string n) as [-> _].
  induction (N.to_hex_uint (Z.to_N n)); [reflexivity|exact IHu..].
Qed.

Lemma indexOf_crlf_after (s : string) (post : Buffer) :
  has_char CR s = false ->
  forall k, indexOf_from crlf (Buffer_from s ++ crlf ++ post) k = k + strlen s.
Proof.
  unfold strlen. induction s as [|c s IH]; intros H k.
  - cbn. lia.
  - cbn [has_char] in H. apply orb_false_iff in H as [Hc H].
    rewrite Buffer_from_cons. cbn [app].
    change crlf with [byte_of_ascii CR; byte_of_ascii LF] at 1.
    cbn [indexOf_from starts_with].
    rewrite beq_byte_of_ascii, Ascii.eqb_sym, Hc. cbn [andb].
    change [byte_of_ascii CR; byte_of_ascii LF] with crlf.
    rewrite (IH H). cbn [String.length]. lia.
Qed.

(** Popping a prefix of the unread bytes. *)
Lemma bufPop_prefix (b : DynBuf) (pre post : Buffer) :
  buf_wf b -> unread b = pre ++ post ->
  buf_wf (bufPop b (blen pre)) /\
  unread (bufPop b (blen pre)) = post /\
  subarray (buf_data b) 0 (blen pre) = pre /\
  buf_length b = blen pre + blen post.
Proof.
  intros Hwf Hu.
  assert (Hl : buf_length b = blen pre + blen post).
  { rewrite <- (blen_unread b Hwf), Hu. apply blen_app. }
  pose proof (blen_nonneg pre) as Hp. pose proof (blen_nonneg post) as Hq.
  assert (Hn : 0 <= blen pre <= buf_length b) by lia.
  destruct (bufPop_spec b (blen pre) Hwf Hn) as (Hwf' & Hu' & _).
  splits; [exact Hwf'| | |exact Hl].
  - rewrite Hu', Hu. apply skipn_blen_app.
  - rewrite (subarray_prefix_unread b _ Hwf Hn), Hu. apply firstn_blen_app.
Qed.

(** The decoder reads a size line and goes on to the data. *)
Lemma readChunks_size_line (fuel : nat) (w : World) (s : string) (n : Z)
      (post : Buffer) :
  buf_wf (buf w) -> unread (buf w) = Buffer_from s ++ crlf ++ post ->
  size_line_ok s n ->
  readChunks_next (S fuel) (AtFor false) w
  = readChunks_next fuel (AtWhile (n =? 0) n)
      (set_buf w (bufPop (buf w) (blen (Buffer_from s ++ crlf)))) /\
  buf_wf (bufPop (buf w) (blen (Buffer_from s ++ crlf))) /\
  unread (bufPop (buf w) (blen (Buffer_from s ++ crlf))) = post.
Proof.
  intros Hwf Hu [Hp Hc].
  assert (Hidx : indexOf (unread (buf w)) crlf = strlen s).
  { rewrite Hu. unfold indexOf. rewrite (indexOf_crlf_after s post Hc 0). lia. }
  assert (Hlen : blen (Buffer_from s ++ crlf) = strlen s + 2).
  { rewrite blen_app, blen_Buffer_from. reflexivity. }
  assert (Hline : subarray (buf_data (buf w)) 0 (strlen s) = Buffer_from s).
  { rewrite <- blen_Buffer_from.
    apply (bufPop_prefix (buf w) (Buffer_from s) (crlf ++ post) Hwf Hu). }
  rewrite app_assoc in Hu.
  destruct (bufPop_prefix (buf w) _ post Hwf Hu) as (Hwf' & Hu' & _).
  splits; [|exact Hwf'|exact Hu'].
  cbn [readChunks_next]. rewrite Hidx.
  assert (H0 : 0 <= strlen s) by (unfold strlen; lia).
  destruct (Z.ltb_spec (strlen s) 0); [lia|].
  rewrite Hline, toString_Buffer_from, Hp, Hlen. reflexivity.
Qed.

(** The decoder hands out the data of a chunk that is in the buffer. *)
Lemma readChunks_data (fuel : nat) (w : World) (last : bool) (d post : Buffer) :
  buf_wf (buf w) -> unread (buf w) = d ++ post -> 0 < blen d ->
  readChunks_next (S fuel) (AtWhile last (blen d)) w
  = (Ok (Some d), AtWhile last 0, set_buf w (bufPop (buf w) (blen d))) /\
  buf_wf (bufPop (buf w) (blen d)) /\
  unread (bufPop (buf w) (blen d)) = post.
Proof.
  intros Hwf Hu Hd.
  destruct (bufPop_prefix (buf w) d post Hwf Hu) as (Hwf' & Hu' & Hs & Hl).
  pose proof (blen_nonneg post) as Hq.
  splits; [|exact Hwf'|exact Hu'].
  cbn [readChunks_next].
  destruct (Z.ltb_spec 0 (blen d)); [|lia].
  destruct (Z.eqb_spec (buf_length (buf w)) 0); [lia|].
  unfold ret. cbv iota beta.
  replace (Z.min (blen d) (buf_length (buf w))) with (blen d) by lia.
  rewrite Hs, Z.sub_diag. reflexivity.
Qed.

(** One [next()] of the decoder between two chunks, before a chunk with
    data: the data come out and the decoder stands behind them. *)
Lemma readChunks_next_chunk (fuel : nat) (pc : ChunkPC) (w : World)
      (s : string) (d more : Buffer) :
  buf_wf (buf w) ->
  at_chunk pc (unread (buf w)) (wire_chunk s d ++ more) ->
  size_line_ok s (blen d) -> 0 < blen d ->
  exists w',
    readChunks_next (3 + fuel) pc w = (Ok (Some d), AtWhile false 0, w') /\
    buf_wf (buf w') /\ at_chunk (AtWhile false 0) (unread (buf w')) more /\
    incoming w' = incoming w /\ outgoing w' = outgoing w /\
    store w' = store w.
Proof.
  intros Hwf Hat Hs Hd.
  assert (Hgo : forall f w0,
            buf_wf (buf w0) ->
            unread (buf w0) = wire_chunk s d ++ more ->
            exists w',
              readChunks_next (2 + f) (AtFor false) w0
              = (Ok (Some d), AtWhile false 0, w') /\
              buf_wf (buf w') /\
              at_chunk (AtWhile false 0) (unread (buf w')) more /\
              incoming w' = incoming w0 /\ outgoing w' = outgoing w0 /\
              store w' = store w0).
  { intros f w0 Hwf0 Hu0. unfold wire_chunk in Hu0.
    rewrite <- !app_assoc in Hu0.
    destruct (readChunks_size_line (S f) w0 s (blen d) _ Hwf0 Hu0 Hs)
      as (E1 & Hwf1 & Hu1).
    set (w1 := set_buf w0 _) in E1.
    destruct (readChunks_data f w1 (blen d =? 0) d (crlf ++ more) Hwf1 Hu1 Hd)
      as (E2 & Hwf2 & Hu2).
    destruct (Z.eqb_spec (blen d) 0) as [|_]; [lia|].
    eexists. split; [cbn [Nat.add]; rewrite E1; exact E2|].
    cbn [set_buf buf incoming outgoing store].
    splits; try reflexivity; [exact Hwf2|]. right. split; [reflexivity|exact Hu2]. }
  destruct Hat as [[-> Hu]|[-> Hu]].
  - destruct (Hgo (S fuel) w Hwf Hu) as (w' & E & H). exists w'.
    split; [exact E|exact H].
  - destruct (bufPop_prefix (buf w) crlf _ Hwf Hu) as (Hwf1 & Hu1 & _).
    destruct (Hgo fuel (set_buf w (bufPop (buf w) 2)) Hwf1 Hu1)
      as (w' & E & H).
    exists w'. split; [exact E|exact H].
Qed.

(** One [next()] of the decoder between two chunks, before the terminal
    chunk: the generator ends with the bytes behind that chunk unread. *)
Lemma readChunks_next_terminal (fuel : nat) (pc : ChunkPC) (w : World)
      (s0 : string) (rest : Buffer) :
  buf_wf (buf w) ->
  at_chunk pc (unread (buf w)) (wire_chunk s0 [] ++ rest) ->
  size_line_ok s0 0 ->
  exists w',
    readChunks_next (4 + fuel) pc w = (Ok None, Finished, w') /\
    buf_wf (buf w') /\ unread (buf w') = rest /\
    incoming w' = incoming w /\ outgoing w' = outgoing w /\
    store w' = store w.
Proof.
  intros Hwf Hat Hs.
  assert (Hgo : forall f w0,
            buf_wf (buf w0) ->
            unread (buf w0) = wire_chunk s0 [] ++ rest ->
            exists w',
              readChunks_next (3 + f) (AtFor false) w0
              = (Ok None, Finished, w') /\
              buf_wf (buf w') /\ unread (buf w') = rest /\
              incoming w' = incoming w0 /\ outgoing w' = outgoing w0 /\
              store w' = store w0).
  { intros f w0 Hwf0 Hu0. unfold wire_chunk in Hu0.
    rewrite <- !app_assoc in Hu0. cbn [app] in Hu0.
    destruct (readChunks_size_line (S (S f)) w0 s0 0 _ Hwf0 Hu0 Hs)
      as (E1 & Hwf1 & Hu1).
    set (w1 := set_buf w0 _) in E1.
    destruct (bufPop_prefix (buf w1) crlf rest Hwf1 Hu1) as (Hwf2 & Hu2 & _).
    eexists. split; [cbn [Nat.add]; rewrite E1; reflexivity|].
    cbn [set_buf buf incoming outgoing store].
    splits; try reflexivity; [exact Hwf2|exact Hu2]. }
  destruct Hat as [[-> Hu]|[-> Hu]].
  - destruct (Hgo (S fuel) w Hwf Hu) as (w' & E & H). exists w'.
    split; [exact E|exact H].
  - destruct (bufPop_prefix (buf w) crlf _ Hwf Hu) as (Hwf1 & Hu1 & _).
    destruct (Hgo fuel (set_buf w (bufPop (buf w) 2)) Hwf1 Hu1)
      as (w' & E & H).
    exists w'. split; [exact E|exact H].
Qed.

Lemma chunked_body_cons (p : string * Buffer) (chunks : list (string * Buffer))
      (s0 : string) (rest : Buffer) :
  chunked_body (p :: chunks) s0 ++ rest
  = wire_chunk (fst p) (snd p) ++ (chunked_body chunks s0 ++ rest).
Proof.
  unfold chunked_body. cbn [map List.concat]. now rewrite <- !app_assoc.
Qed.

Lemma readMany_S (fuel k : nat) (r : BodyReader) (w : World) :
  readMany fuel (S k) r w =
  let '(res, r1, w1) := readerRead fuel r w in
  let '(rs, r2, w2) := readMany fuel k r1 w1 in
  (res :: rs, r2, w2).
Proof. reflexivity. Qed.

Lemma readMany_chunks (fuel : nat) (s0 : string) (rest : Buffer)
      (chunks : list (string * Buffer)) :
  forall pc w,
  buf_wf (buf w) ->
  at_chunk pc (unread (buf w)) (chunked_body chunks s0 ++ rest) ->
  Forall (fun p => size_line_ok (fst p) (blen (snd p)) /\ 0 < blen (snd p))
         chunks ->
  size_line_ok s0 0 ->
  exists w',
    readMany (4 + fuel) (S (List.length chunks))
             (GeneratorReader (ReadChunks pc)) w
    = (map (fun p => Ok (snd p)) chunks ++ [Ok []],
       GeneratorReader (ReadChunks Finished), w') /\
    buf_wf (buf w') /\ unread (buf w') = rest /\
    incoming w' = incoming w /\ outgoing w' = outgoing w.
Proof.
  induction chunks as [|[s d] chunks IH]; intros pc w Hwf Hat Hok H0.
  - destruct (readChunks_next_terminal fuel pc w s0 rest Hwf Hat H0)
      as (w' & E & Hwf' & Hu & Hi & Ho & _).
    exists w'. split; [|now splits].
    cbn [List.length readMany readerRead gen_next map app]. rewrite E.
    reflexivity.
  - apply Forall_cons_iff in Hok as [[Hs Hd] Hok]. cbn [fst snd] in Hs, Hd.
    rewrite chunked_body_cons in Hat. cbn [fst snd] in Hat.
    destruct (readChunks_next_chunk (S fuel) pc w s d _ Hwf Hat Hs Hd)
      as (w1 & E1 & Hwf1 & Hat1 & Hi1 & Ho1 & _).
    destruct (IH _ w1 Hwf1 Hat1 Hok H0) as (w' & E & Hwf' & Hu & Hi & Ho).
    exists w'. split; [|splits; congruence].
    cbn [List.length]. rewrite readMany_S. cbn [readerRead gen_next].
    change (4 + fuel)%nat with (3 + S fuel)%nat at 1. rewrite E1.
    cbv iota beta. rewrite E. reflexivity.
Qed.

(** X15.  With a well-formed chunked body in the receive buffer (each
    chunk a size line without CR that [parseInt] reads in radix 16 as the
    number of bytes of its data, which are not empty, and then a chunk of
    size 0), the decoder of [readChunks] hands out the data of the chunks in
    order, one [read()] each, then the empty buffer, and ends; it reads
    nothing from the socket and leaves unread exactly the bytes behind the
    terminal chunk. *)
Theorem readChunks_decodes_buffered_body
        (fuel : nat) (chunks : list (string * Buffer)) (s0 : string)
        (rest : Buffer) (w : World) :
  buf_wf (buf w) ->
  unread (buf w) = chunked_body chunks s0 ++ rest ->
  Forall (fun p => size_line_ok (fst p) (blen (snd p)) /\ 0 < blen (snd p))
         chunks ->
  size_line_ok s0 0 ->
  exists w',
    readMany (4 + fuel) (S (List.length chunks)) chunked_reader w
    = (map (fun p => Ok (snd p)) chunks ++ [Ok []],
       GeneratorReader (ReadChunks Finished), w') /\
    buf_wf (buf w') /\ unread (buf w') = rest /\
    incoming w' = incoming w /\ outgoing w' = outgoing w.
Proof.
  intros Hwf Hu Hok H0.
  apply (readMany_chunks fuel s0 rest chunks (AtFor false) w Hwf);
    [left; now split|exact Hok|exact H0].
Qed.

Lemma readChunks_decodes_buffered_body_witness :
  exists w',
    readMany 4 3 chunked_reader two_chunks_buffered
    = ([Ok (Buffer_from "hello"); Ok (Buffer_from "0123456789"); Ok []],
       GeneratorReader (ReadChunks Finished), w') /\
    buf_wf (buf w') /\ unread (buf w') = Buffer_from "GET" /\
    incoming w' = incoming two_chunks_buffered /\
    outgoing w' = outgoing two_chunks_buffered.
Proof.
  apply (readChunks_decodes_buffered_body
           0 two_chunks "0" (Buffer_from "GET") two_chunks_buffered).
  - vm_compute. split; discriminate.
  - vm_compute. reflexivity.
  - repeat constructor; vm_compute; reflexivity.
  - split; reflexivity.
Defined.

Lemma pullAll_S (fuel : nat) (b : Ref) :
  pullAll (S fuel) b =
  (d <- read fuel b ;;
   if blen d =? 0 then ret []
   else (rest <- pullAll fuel b ;; ret (d :: rest))).
Proof. reflexivity. Qed.

Lemma pullAll_chunks (fuel : nat) (b : Ref) (s0 : string) (rest : Buffer)
      (chunks : list (string * Buffer)) :
  forall pc w,
  store w b = GeneratorReader (ReadChunks pc) ->
  buf_wf (buf w) ->
  at_chunk pc (unread (buf w)) (chunked_body chunks s0 ++ rest) ->
  Forall (fun p => size_line_ok (fst p) (blen (snd p)) /\ 0 < blen (snd p))
         chunks ->
  size_line_ok s0 0 ->
  exists w',
    pullAll (5 + fuel + List.length chunks) b w = (Ok (map snd chunks), w') /\
    buf_wf (buf w') /\ unread (buf w') = rest.
Proof.
  induction chunks as [|[s d] chunks IH]; intros pc w Hst Hwf Hat Hok H0.
  - destruct (readChunks_next_terminal (fuel + 0) pc w s0 rest Hwf Hat H0)
      as (w' & E & Hwf' & Hu & _).
    eexists. split.
    + cbn [List.length Nat.add]. rewrite pullAll_S. unfold bind at 1, read.
      rewrite Hst. cbn [readerRead gen_next].
      change (S (S (S (S (fuel + 0)))))%nat with (4 + (fuel + 0))%nat.
      rewrite E. reflexivity.
    + cbn [set_reader buf]. now split.
  - apply Forall_cons_iff in Hok as [[Hs Hd] Hok]. cbn [fst snd] in Hs, Hd.
    rewrite chunked_body_cons in Hat. cbn [fst snd] in Hat.
    destruct (readChunks_next_chunk (S (fuel + S (List.length chunks)))
                                    pc w s d _ Hwf Hat Hs Hd)
      as (w1 & E1 & Hwf1 & Hat1 & _).
    set (w2 := set_reader w1 b (GeneratorReader (ReadChunks (AtWhile false 0)))).
    destruct (IH (AtWhile false 0) w2) as (w' & E & Hwf' & Hu);
      [apply store_set_reader|exact Hwf1|exact Hat1|exact Hok|exact H0|].
    exists w'. split; [|now split].
    cbn [List.length Nat.add]. rewrite pullAll_S. unfold bind at 1, read.
    rewrite Hst. cbn [readerRead gen_next].
    change (S (S (S (S (fuel + S (List.length chunks))))))%nat
      with (3 + S (fuel + S (List.length chunks)))%nat.
    rewrite E1. cbv iota beta. fold w2.
    destruct (Z.eqb_spec (blen d) 0) as [|_]; [lia|].
    replace (3 + S (fuel + S (List.length chunks)))%nat
      with (5 + fuel + List.length chunks)%nat by lia.
    unfold bind. rewrite E. reflexivity.
Qed.

Lemma chunked_encode_spec (fuel : nat) (items : list Buffer) :
  chunked_encode (S (List.length (sent_chunks items)) + fuel) items
  = (Ok tt, map chunk (sent_chunks items ++ [[]])).
Proof.
  unfold chunked_encode, bind at 1, alloc. cbn [new_reader connect next_ref].
  set (w0 := mkWorld _ _ _ _ _ _ _).
  unfold writeHTTPResp. cbn [body].
  assert (Hs : store w0 O = GeneratorReader (Yields items)) by reflexivity.
  rewrite Hs. cbn [reader_length].
  unfold bind at 1. unfold soWrite at 1.
  set (w1 := set_outgoing _ _).
  destruct (writeBody_yields items fuel O w1 Hs) as (w' & E & Hout).
  rewrite E, Hout. reflexivity.
Qed.

Lemma sent_chunks_nonempty (items : list Buffer) :
  Forall (fun d => 0 < blen d) (sent_chunks items).
Proof.
  induction items as [|d items IH]; cbn [sent_chunks]; [constructor|].
  destruct (Z.eqb_spec (blen d) 0); constructor; [|exact IH].
  pose proof (blen_nonneg d). lia.
Qed.

Lemma chunks_as_body (ds : list Buffer) :
  List.concat (map chunk (ds ++ [[]]))
  = chunked_body (map (fun d => (hex (blen d), d)) ds) (hex 0) ++ [].
Proof.
  rewrite app_nil_r. unfold chunked_body.
  rewrite map_app, concat_app, map_map. cbn [map List.concat fst snd].
  rewrite app_nil_r. reflexivity.
Qed.

Lemma chunked_roundtrip (fuel fuel' : nat) (items : list Buffer) :
  chunked_decode (5 + fuel + List.length (sent_chunks items))
    (List.concat
       (snd (chunked_encode (S (List.length (sent_chunks items)) + fuel')
                            items)))
  = Ok (sent_chunks items).
Proof.
  rewrite chunked_encode_spec. cbn [snd]. rewrite chunks_as_body.
  set (ds := sent_chunks items).
  set (chunks := map (fun d => (hex (blen d), d)) ds).
  unfold chunked_decode, with_buffered.
  destruct (bufPush_spec (buf (connect [] no_files))
                         (chunked_body chunks (hex 0) ++ []))
    as (b1 & Eb & Hwf1 & Hu & _); [vm_compute; split; discriminate|].
  rewrite Eb. cbn [snd].
  unfold bind at 1, alloc. cbn [new_reader set_buf next_ref connect].
  set (w0 := mkWorld _ _ _ _ _ _ _).
  destruct (pullAll_chunks fuel O (hex 0) [] chunks (AtFor false) w0)
    as (w' & E & _).
  - reflexivity.
  - exact Hwf1.
  - left. split; [reflexivity|]. exact Hu.
  - subst chunks. apply Forall_map.
    eapply Forall_impl; [|apply sent_chunks_nonempty].
    intros d Hd. cbv beta in Hd. cbn [fst snd]. split; [|exact Hd].
    split; [apply parseInt_hex; lia|apply has_char_CR_hex].
  - split; [apply parseInt_hex; lia|apply has_char_CR_hex].
  - subst chunks. rewrite length_map in E. rewrite E. cbn [fst].
    rewrite map_map. cbn [snd]. now rewrite map_id.
Qed.

(** X16.  What the chunked writer of [writeHTTPResp] puts on the wire for
    a body, the decoder of [readChunks] reads back: decoding the bytes
    written after the header block for the buffers [items] hands out the
    buffers of [items] before the first empty one, in order and with their
    boundaries, and then the end of the body. *)
Theorem chunked_writer_and_decoder_agree
        (fuel fuel' : nat) (items : list Buffer) :
  chunked_decode (5 + fuel + List.length (sent_chunks items))
    (List.concat
       (snd (chunked_encode (S (List.length (sent_chunks items)) + fuel')
                            items)))
  = Ok (sent_chunks items).
Proof. exact (chunked_roundtrip fuel fuel' items). Qed.

(** ** A round that answers a request *)

Lemma read_ConnLength_done (fuel : nat) (r0 : Ref) (len : Z) (w : World) :
  store w r0 = ConnLengthReader len 0 ->
  read fuel r0 w = (Ok [], set_reader w r0 (ConnLengthReader len 0)).
Proof. intros Hs. unfold read. rewrite Hs. reflexivity. Qed.

(** A read of the length-bounded reader when the whole rest of the body is
    in the buffer. *)
Lemma read_ConnLength_buffered (fuel : nat) (r0 : Ref) (len : Z) (w : World)
      (payload rest : Buffer) :
  store w r0 = ConnLengthReader len (blen payload) -> 0 < blen payload ->
  buf_wf (buf w) -> unread (buf w) = payload ++ rest ->
  read fuel r0 w
  = (Ok payload,
     set_reader (set_buf w (bufPop (buf w) (blen payload))) r0
                (ConnLengthReader len 0)) /\
  buf_wf (bufPop (buf w) (blen payload)) /\
  unread (bufPop (buf w) (blen payload)) = rest.
Proof.
  intros Hs Hp Hwf Hu.
  destruct (bufPop_prefix (buf w) payload rest Hwf Hu) as (Hwf' & Hu' & Hd & Hl).
  pose proof (blen_nonneg rest) as Hr.
  splits; [|exact Hwf'|exact Hu'].
  unfold read. rewrite Hs. cbn [readerRead].
  destruct (Z.eqb_spec (blen payload) 0); [lia|].
  destruct (Z.eqb_spec (buf_length (buf w)) 0); [lia|].
  unfold ret. cbv iota beta.
  replace (Z.min (buf_length (buf w)) (blen payload)) with (blen payload) by lia.
  rewrite Hd, Z.sub_diag. reflexivity.
Qed.

(** The loop that skips what is left of a request body, when that is in the
    buffer. *)
Lemma drain_buffered (fuel : nat) (r0 : Ref) (len : Z) (w : World)
      (payload rest : Buffer) :
  store w r0 = ConnLengthReader len (blen payload) ->
  buf_wf (buf w) -> unread (buf w) = payload ++ rest ->
  exists w',
    drain (2 + fuel) r0 w = (Ok tt, w') /\
    buf_wf (buf w') /\ unread (buf w') = rest /\
    incoming w' = incoming w /\ outgoing w' = outgoing w.
Proof.
  intros Hs Hwf Hu. pose proof (blen_nonneg payload) as Hp.
  destruct (Z.eqb_spec (blen payload) 0) as [Hz|Hnz].
  - assert (payload = []) as -> by (destruct payload; [reflexivity|discriminate]).
    change (blen []) with 0 in Hs.
    eexists. split.
    + cbn [Nat.add drain]. unfold bind at 1.
      rewrite (read_ConnLength_done _ _ _ _ Hs). reflexivity.
    + cbn [set_reader buf incoming outgoing]. now splits.
  - destruct (read_ConnLength_buffered (S fuel) r0 len w payload rest Hs)
      as (E & Hwf' & Hu'); [lia|exact Hwf|exact Hu|].
    eexists. split.
    + cbn [Nat.add]. cbn [drain]. unfold bind at 1. rewrite E.
      destruct (Z.ltb_spec 0 (blen payload)); [|lia].
      unfold bind at 1.
      rewrite (read_ConnLength_done fuel r0 len); [reflexivity|].
      apply store_set_reader.
    + cbn [set_reader set_buf buf incoming outgoing]. now splits.
Qed.

Lemma read_detached_frame (fuel : nat) (b r0 : Ref) (w : World)
      (r : Res Buffer) (w' : World) :
  detached (store w b) -> b <> r0 -> read fuel b w = (r, w') ->
  detached (store w' b) /\ store w' r0 = store w r0 /\ buf w' = buf w /\
  incoming w' = incoming w.
Proof.
  intros Hd Hne H. unfold read in H.
  destruct (readerRead fuel (store w b) w) as [[res v] w1] eqn:E.
  destruct (readerRead_detached _ _ _ _ _ _ Hd E) as [Hv ->].
  inversion H; subst. cbn [set_reader store buf incoming].
  rewrite Nat.eqb_refl.
  destruct (Nat.eqb_spec r0 b); [congruence|]. now splits.
Qed.

(** Writing a response whose body is detached from the connection leaves
    the receive buffer, the socket's reads and the other readers alone. *)
Lemma writeHTTPResp_detached_frame (fuel : nat) (resp : HTTPRes) (r0 : Ref)
      (w : World) (r : Res unit) (w' : World) :
  detached (store w (body resp)) -> body resp <> r0 ->
  writeHTTPResp fuel resp w = (r, w') ->
  store w' r0 = store w r0 /\ buf w' = buf w /\ incoming w' = incoming w.
Proof.
  intros Hd Hne H.
  pose (P := fun x : World =>
               detached (store x (body resp)) /\ store x r0 = store w r0 /\
               buf x = buf w /\ incoming x = incoming w).
  assert (HP : P w') .
  { apply (writeHTTPResp_keeps P (body resp)) with (fuel := fuel) (resp := resp)
                                                 (w := w) (r := r).
    - intros f x rx x' (H1 & H2 & H3 & H4) Hr.
      destruct (read_detached_frame f (body resp) r0 x rx x' H1 Hne Hr)
        as (? & ? & ? & ?).
      unfold P. splits; congruence.
    - intros x d Hx. exact Hx.
    - reflexivity.
    - unfold P. now splits.
    - exact H. }
  destruct HP as (_ & H2 & H3 & H4). now splits.
Qed.

(** A round whose response body is detached from the connection, for a
    request whose body is in the buffer: the response is written, the
    request body skipped, and the loop goes on. *)
Lemma round_with_detached_body (fuel : nat) (w : World) (msg : HTTPReq)
      (w1 : World) (payload rest : Buffer) (res : HTTPRes) (wh ww : World) :
  buf_wf (buf w1) ->
  cutMessage w = (Ok (Some msg), w1) ->
  readerFromReq msg = inr (readerFromConnLength (blen payload)) ->
  unread (buf w1) = payload ++ rest ->
  handleReq msg (next_ref w1)
            (snd (new_reader w1 (readerFromConnLength (blen payload))))
  = (Ok res, wh) ->
  body res <> next_ref w1 -> detached (store wh (body res)) ->
  store wh (next_ref w1) = readerFromConnLength (blen payload) ->
  buf wh = buf w1 -> incoming wh = incoming w1 ->
  writeHTTPResp (2 + fuel) res wh = (Ok tt, ww) ->
  exists w',
    serverClient_iter (2 + fuel) w
    = (Ok (if streq (version msg) "1.0" then Return else Continue), w') /\
    outgoing w' = outgoing ww /\ incoming w' = incoming w1 /\
    buf_wf (buf w') /\
    unread (buf w')
    = if streq (version msg) "1.0" then payload ++ rest else rest.
Proof.
  intros Hwf1 Ecut Erb Hu Eh Hne Hdet Hst Hbuf Hinc Ew.
  destruct (writeHTTPResp_detached_frame _ _ (next_ref w1) _ _ _ Hdet Hne Ew)
    as (Hst2 & Hbuf2 & Hinc2).
  unfold serverClient_iter. unfold bind at 1. rewrite Ecut.
  unfold bind at 1. unfold liftE. rewrite Erb. unfold ret at 1.
  unfold bind at 1. unfold alloc at 1. cbn [new_reader snd] in *.
  unfold bind at 1. rewrite Eh.
  unfold bind at 1. unfold finally_, closeReader. rewrite Ew.
  unfold ret at 1.
  destruct (streq (version msg) "1.0").
  - eexists. split; [reflexivity|].
    rewrite Hbuf2, Hbuf. splits; try reflexivity; try congruence.
  - destruct (drain_buffered fuel (next_ref w1) (blen payload) ww payload rest)
      as (w' & Ed & Hwf' & Hu' & Hi' & Ho').
    + rewrite Hst2, Hst. reflexivity.
    + congruence.
    + rewrite Hbuf2, Hbuf. exact Hu.
    + exists w'. split; [|splits; congruence].
      unfold bind at 1. rewrite Ed. reflexivity.
Qed.

(** [handleReq] on a path that is neither under /files/ nor /echo. *)
Lemma handleReq_default (req : HTTPReq) (r0 : Ref) (w : World) :
  String.prefix "/files/" (toString (uri req)) = false ->
  streq (toString (uri req)) "/echo" = false ->
  (r0 < next_ref w)%nat ->
  exists res wh,
    handleReq req r0 w = (Ok res, wh) /\
    code res = 200 /\
    resHeaders res = [Buffer_from "Server: my_first_http_server"] /\
    store wh (body res)
    = readerFromMemory (Buffer_from (strcat "hello world." (String LF EmptyString))) /\
    body res <> r0 /\ store wh r0 = store w r0 /\
    buf wh = buf w /\ incoming wh = incoming w /\ outgoing wh = outgoing w.
Proof.
  intros Hf He Hr. unfold handleReq. rewrite Hf, He.
  assert (Hne : Nat.eqb r0 (next_ref w) = false) by (apply Nat.eqb_neq; lia).
  assert (Hne' : Nat.eqb r0 (S (next_ref w)) = false) by (apply Nat.eqb_neq; lia).
  destruct (streq (toString (uri req)) "/sheep");
    unfold bind, alloc, new_reader, ret; eexists _, _;
    (split; [reflexivity|]);
    cbn [code resHeaders body store buf incoming outgoing next_ref];
    rewrite ?Hne, ?Hne', ?Nat.eqb_refl; splits; try reflexivity; lia.
Qed.

(** X17.  On every path that is neither under /files/ nor /echo,
    [handleReq] answers with status 200, the header line
    Server: my_first_http_server and a new in-memory body that holds
    "hello world." and a line feed.  This includes /sheep: its case has no
    [break], so the generator it creates is replaced at once and is never
    served.  The request's body reader is left as it was. *)
Theorem handleReq_says_hello_elsewhere (req : HTTPReq) (r0 : Ref) (w : World) :
  String.prefix "/files/" (toString (uri req)) = false ->
  streq (toString (uri req)) "/echo" = false ->
  (r0 < next_ref w)%nat ->
  exists res wh,
    handleReq req r0 w = (Ok res, wh) /\
    code res = 200 /\
    resHeaders res = [Buffer_from "Server: my_first_http_server"] /\
    store wh (body res)
    = readerFromMemory (Buffer_from (strcat "hello world." (String LF EmptyString))) /\
    body res <> r0 /\ store wh r0 = store w r0 /\
    buf wh = buf w /\ incoming wh = incoming w /\ outgoing wh = outgoing w.
Proof. exact (handleReq_default req r0 w). Qed.

Lemma handleReq_says_hello_elsewhere_witness :
  exists res wh,
    handleReq (mkHTTPReq "GET" (Buffer_from "/sheep") "HTTP/1.1" []) O
              (world_with_reader (readerFromConnLength 0))
    = (Ok res, wh) /\
    code res = 200 /\
    store wh (body res)
    = readerFromMemory (Buffer_from (strcat "hello world." (String LF EmptyString))).
Proof.
  destruct (handleReq_says_hello_elsewhere
              (mkHTTPReq "GET" (Buffer_from "/sheep") "HTTP/1.1" []) O
              (world_with_reader (readerFromConnLength 0)))
    as (res & wh & E & Hc & _ & Hs & _).
  - reflexivity.
  - reflexivity.
  - vm_compute. lia.
  - exists res, wh. now splits.
Defined.

Lemma writeHTTPResp_memory_spec (fuel : nat) (resp : HTTPRes) (d : Buffer)
      (w : World) :
  store w (body resp) = MemoryReader d false ->
  exists w',
    writeHTTPResp (S (S fuel)) resp w = (Ok tt, w') /\
    outgoing w' =
    outgoing w
    ++ encodeHTTPResp (code resp)
         (resHeaders resp
          ++ [Buffer_from (strcat "Content-Length: " (decimal (blen d)))])
    :: (if blen d =? 0 then [] else [d]).
Proof.
  intros Hs. pose proof (blen_nonneg d) as Hd.
  unfold writeHTTPResp. rewrite Hs. cbn [reader_length].
  destruct (Z.ltb_spec (blen d) 0) as [|_]; [lia|].
  unfold bind at 1. unfold soWrite at 1.
  set (w1 := set_outgoing _ _).
  destruct (writeBody_memory_any fuel (body resp) d (blen d) w1)
    as (w' & -> & Hout); [exact Hs|lia|].
  exists w'. split; [reflexivity|].
  rewrite Hout. subst w1. cbn [set_outgoing outgoing].
  rewrite <- app_assoc. reflexivity.
Qed.

(** The round for a request on the default route. *)
Lemma round_hello (fuel : nat) (w : World) (msg : HTTPReq) (w1 : World)
      (payload rest : Buffer) :
  buf_wf (buf w) ->
  cutMessage w = (Ok (Some msg), w1) ->
  readerFromReq msg = inr (readerFromConnLength (blen payload)) ->
  unread (buf w1) = payload ++ rest ->
  String.prefix "/files/" (toString (uri msg)) = false ->
  streq (toString (uri msg)) "/echo" = false ->
  exists w',
    serverClient_iter (2 + fuel) w
    = (Ok (if streq (version msg) "1.0" then Return else Continue), w') /\
    outgoing w' = outgoing w ++ hello_response /\
    incoming w' = incoming w /\
    buf_wf (buf w') /\
    unread (buf w')
    = if streq (version msg) "1.0" then payload ++ rest else rest.
Proof.
  intros Hwf Ecut Erb Hu Hf He.
  destruct (cutMessage_some w msg w1 Hwf Ecut) as (hdr & _ & _ & _ & Hwf1 & Hw1).
  set (wa := snd (new_reader w1 (readerFromConnLength (blen payload)))).
  destruct (handleReq_default msg (next_ref w1) wa Hf He)
    as (res & wh & Eh & Hc & Hh & Hs & Hne & Hst & Hbuf & Hinc & Hout);
    [cbn; lia|].
  destruct (writeHTTPResp_memory_spec fuel res _ wh Hs) as (ww & Ew & Hww).
  destruct (round_with_detached_body fuel w msg w1 payload rest res wh ww)
    as (w' & E & Ho & Hi & Hwf' & Hu'); try assumption.
  - rewrite Hs. exact I.
  - rewrite Hst. subst wa. cbn [new_reader snd store]. now rewrite Nat.eqb_refl.
  - exists w'. split; [exact E|]. splits; try assumption.
    + rewrite Ho, Hww, Hout, Hc, Hh. subst wa. cbn [new_reader snd outgoing].
      rewrite Hw1. reflexivity.
    + rewrite Hi, Hw1. reflexivity.
Qed.

(** X18.  A round of [serverClient] for a request on the default route
    (any path not under /files/ and other than /echo) whose body, of the
    length its Content-Length gives, is in the buffer: the server writes
    the header block with status 200, the Server line and
    Content-Length: 13, then "hello world." and a line feed.  What follows
    depends on the version token of the request line.  If it is the
    literal 1.0, the round returns, which ends the connection, and the
    request body stays unread in the buffer.  Otherwise the round reads
    the request body to its end, so that the bytes behind it are the next
    thing unread, and the loop goes on.  In both cases nothing is read
    from the socket. *)
Theorem round_answers_hello_and_skips_the_body
        (fuel : nat) (w : World) (msg : HTTPReq) (w1 : World)
        (payload rest : Buffer) :
  buf_wf (buf w) ->
  cutMessage w = (Ok (Some msg), w1) ->
  readerFromReq msg = inr (readerFromConnLength (blen payload)) ->
  unread (buf w1) = payload ++ rest ->
  String.prefix "/files/" (toString (uri msg)) = false ->
  streq (toString (uri msg)) "/echo" = false ->
  exists w',
    serverClient_iter (2 + fuel) w
    = (Ok (if streq (version msg) "1.0" then Return else Continue), w') /\
    outgoing w' = outgoing w ++ hello_response /\
    incoming w' = incoming w /\
    buf_wf (buf w') /\
    unread (buf w')
    = if streq (version msg) "1.0" then payload ++ rest else rest.
Proof. exact (round_hello fuel w msg w1 payload rest). Qed.

Lemma round_answers_hello_and_skips_the_body_witness :
  exists w',
    serverClient_iter 2 post_sheep_buffered = (Ok Continue, w') /\
    outgoing w' = hello_response /\
    unread (buf w') = Buffer_from "GET".
Proof.
  destruct (cutMessage post_sheep_buffered) as [[[msg|]|e|] w1] eqn:E;
    try (vm_compute in E; discriminate E).
  destruct (round_answers_hello_and_skips_the_body
              0 post_sheep_buffered msg w1 (Buffer_from "abc") (Buffer_from "GET"))
    as (w' & Ei & Ho & _ & _ & Hu).
  - vm_compute. split; discriminate.
  - exact E.
  - vm_compute in E. inversion E; subst. vm_compute. reflexivity.
  - vm_compute in E. inversion E; subst. vm_compute. reflexivity.
  - vm_compute in E. inversion E; subst. vm_compute. reflexivity.
  - vm_compute in E. inversion E; subst. vm_compute. reflexivity.
  - exists w'. vm_compute in E. inversion E; subst.
    split; [exact Ei|]. split; [exact Ho|exact Hu].
Defined.

(** The body loop of [writeHTTPResp] over a length-bounded reader whose
    bytes are in the buffer. *)
Lemma writeBody_ConnLength_buffered (fuel : nat) (r0 : Ref) (len L : Z)
      (w : World) (payload rest : Buffer) :
  store w r0 = ConnLengthReader len (blen payload) -> 0 <= L ->
  buf_wf (buf w) -> unread (buf w) = payload ++ rest ->
  exists w',
    writeBody (2 + fuel) r0 L w = (Ok tt, w') /\
    outgoing w' = outgoing w ++ (if blen payload =? 0 then [] else [payload]) /\
    store w' r0 = ConnLengthReader len 0 /\
    buf_wf (buf w') /\ unread (buf w') = rest /\ incoming w' = incoming w.
Proof.
  intros Hs HL Hwf Hu. pose proof (blen_nonneg payload) as Hp.
  assert (HLt : (L <? 0) = false) by (apply Z.ltb_ge; lia).
  destruct (Z.eqb_spec (blen payload) 0) as [Hz|Hnz].
  - assert (payload = []) as -> by (destruct payload; [reflexivity|discriminate]).
    change (blen []) with 0 in Hs.
    eexists. split.
    + cbn [Nat.add]. rewrite writeBody_S. unfold bind at 1.
      rewrite (read_ConnLength_done _ _ _ _ Hs). cbv iota beta.
      rewrite HLt. reflexivity.
    + cbn [set_reader buf incoming outgoing store].
      rewrite Nat.eqb_refl, app_nil_r. now splits.
  - destruct (read_ConnLength_buffered (S fuel) r0 len w payload rest Hs)
      as (E & Hwf' & Hu'); [lia|exact Hwf|exact Hu|].
    eexists. split.
    + cbn [Nat.add]. rewrite writeBody_S. unfold bind at 1. rewrite E.
      cbv iota beta. rewrite HLt.
      destruct (Z.eqb_spec (blen payload) 0); [lia|]. cbn [negb].
      unfold bind at 1. unfold soWrite at 1.
      rewrite writeBody_S. unfold bind at 1.
      rewrite (read_ConnLength_done fuel r0 len);
        [|cbn [set_outgoing set_reader store]; now rewrite Nat.eqb_refl].
      cbv iota beta. rewrite HLt. reflexivity.
    + cbn [set_reader set_outgoing set_buf buf incoming outgoing store].
      rewrite Nat.eqb_refl. now splits.
Qed.

(** The round for a request on /echo whose body is in the buffer. *)
Lemma round_echo (fuel : nat) (w : World) (msg : HTTPReq) (w1 : World)
      (payload rest : Buffer) :
  buf_wf (buf w) ->
  cutMessage w = (Ok (Some msg), w1) ->
  readerFromReq msg = inr (readerFromConnLength (blen payload)) ->
  unread (buf w1) = payload ++ rest ->
  toString (uri msg) = "/echo"%string ->
  exists w',
    serverClient_iter (2 + fuel) w
    = (Ok (if streq (version msg) "1.0" then Return else Continue), w') /\
    outgoing w' =
    outgoing w
    ++ encodeHTTPResp 200
         [Buffer_from "Server: my_first_http_server";
          Buffer_from (strcat "Content-Length: " (decimal (blen payload)))]
    :: (if blen payload =? 0 then [] else [payload]) /\
    incoming w' = incoming w /\
    buf_wf (buf w') /\ unread (buf w') = rest.
Proof.
  intros Hwf Ecut Erb Hu Huri. pose proof (blen_nonneg payload) as Hp.
  destruct (cutMessage_some w msg w1 Hwf Ecut) as (hdr & _ & _ & _ & Hwf1 & Hw1).
  unfold serverClient_iter. unfold bind at 1. rewrite Ecut.
  unfold bind at 1. unfold liftE. rewrite Erb. unfold ret at 1.
  unfold bind at 1. unfold alloc at 1. cbn [new_reader].
  set (wa := mkWorld _ _ _ _ _ _ _).
  assert (Hsa : store wa (next_ref w1) = ConnLengthReader (blen payload) (blen payload)).
  { subst wa. cbn [store]. now rewrite Nat.eqb_refl. }
  unfold bind at 1. unfold handleReq. rewrite Huri.
  change (String.prefix "/files/" "/echo") with false.
  change (streq "/echo" "/echo") with true. cbv iota.
  unfold bind at 1, ret at 1. unfold ret at 1.
  unfold bind at 1. unfold finally_, closeReader.
  unfold writeHTTPResp. cbn [body code resHeaders]. rewrite Hsa.
  cbn [reader_length].
  destruct (Z.ltb_spec (blen payload) 0) as [|_]; [lia|].
  unfold bind at 1. unfold soWrite at 1.
  set (w2 := set_outgoing wa _).
  destruct (writeBody_ConnLength_buffered fuel (next_ref w1) (blen payload)
              (blen payload) w2 payload rest)
    as (w3 & Ew & Ho3 & Hs3 & Hwf3 & Hu3 & Hi3);
    [exact Hsa|lia|exact Hwf1|exact Hu|].
  rewrite Ew. unfold ret at 1.
  assert (Hout : outgoing w3 =
                 outgoing w
                 ++ encodeHTTPResp 200
                      [Buffer_from "Server: my_first_http_server";
                       Buffer_from (strcat "Content-Length: "
                                           (decimal (blen payload)))]
                 :: (if blen payload =? 0 then [] else [payload])).
  { rewrite Ho3. subst w2 wa. cbn [set_outgoing outgoing app].
    rewrite Hw1, <- app_assoc. reflexivity. }
  assert (Hinc : incoming w3 = incoming w).
  { rewrite Hi3. subst w2 wa. cbn [set_outgoing incoming]. now rewrite Hw1. }
  destruct (streq (version msg) "1.0").
  - exists w3. now splits.
  - destruct (drain_buffered fuel (next_ref w1) (blen payload) w3 [] rest)
      as (w' & Ed & Hwf' & Hu' & Hi' & Ho'); [exact Hs3|exact Hwf3|exact Hu3|].
    exists w'. split; [|splits; congruence].
    unfold bind at 1. rewrite Ed. reflexivity.
Qed.

(** X19.  A round of [serverClient] for a request on /echo whose body, of
    the length its Content-Length gives, is in the buffer: the response
    has status 200, the Server line and the request's own Content-Length,
    and its body is the request body, written in one piece; the bytes
    behind the request body are then the next thing unread.  Request and
    response share one reader, so that after the response nothing of the
    body is left to skip. *)
Theorem round_echoes_the_request_body
        (fuel : nat) (w : World) (msg : HTTPReq) (w1 : World)
        (payload rest : Buffer) :
  buf_wf (buf w) ->
  cutMessage w = (Ok (Some msg), w1) ->
  readerFromReq msg = inr (readerFromConnLength (blen payload)) ->
  unread (buf w1) = payload ++ rest ->
  toString (uri msg) = "/echo"%string ->
  exists w',
    serverClient_iter (2 + fuel) w
    = (Ok (if streq (version msg) "1.0" then Return else Continue), w') /\
    outgoing w' =
    outgoing w
    ++ encodeHTTPResp 200
         [Buffer_from "Server: my_first_http_server";
          Buffer_from (strcat "Content-Length: " (decimal (blen payload)))]
    :: (if blen payload =? 0 then [] else [payload]) /\
    incoming w' = incoming w /\
    buf_wf (buf w') /\ unread (buf w') = rest.
Proof. exact (round_echo fuel w msg w1 payload rest). Qed.

Lemma round_echoes_the_request_body_witness :
  exists w',
    serverClient_iter 2 post_echo_buffered = (Ok Continue, w') /\
    outgoing w' =
    [Buffer_from (strcat (line "HTTP/1.1 200 OK")
       (strcat (line "Server: my_first_http_server")
       (strcat (line "Content-Length: 5") CRLF)));
     Buffer_from "hello"] /\
    unread (buf w') = Buffer_from "GET".
Proof.
  destruct (cutMessage post_echo_buffered) as [[[msg|]|e|] w1] eqn:E;
    try (vm_compute in E; discriminate E).
  destruct (round_echoes_the_request_body
              0 post_echo_buffered msg w1 (Buffer_from "hello") (Buffer_from "GET"))
    as (w' & Ei & Ho & _ & _ & Hu).
  - vm_compute. split; discriminate.
  - exact E.
  - vm_compute in E. inversion E; subst. vm_compute. reflexivity.
  - vm_compute in E. inversion E; subst. vm_compute. reflexivity.
  - vm_compute in E. inversion E; subst. vm_compute. reflexivity.
  - exists w'. vm_compute in E. inversion E; subst.
    split; [exact Ei|]. split; [exact Ho|exact Hu].
Defined.

Lemma prefix_strcat (a b : string) : String.prefix a (strcat a b) = true.
Proof.
  induction a as [|c a IH]; [destruct b; reflexivity|].
  cbn. destruct (Ascii.ascii_dec c c); [exact IH|congruence].
Qed.

Lemma cutMessage_files (w : World) (msg : HTTPReq) (w1 : World) :
  cutMessage w = (Ok (Some msg), w1) ->
  files w1 = files w /\ outgoing w1 = outgoing w /\ incoming w1 = incoming w.
Proof.
  unfold cutMessage, bind, get_buf.
  destruct (indexOf (unread (buf w)) _ <? 0).
  - destruct (kMaxHeaderLen <=? buf_length (buf w)); discriminate.
  - destruct (parseHTTPReq _) as [e1|m]; simpl; [discriminate|].
    intros H; inversion H; subst. now splits.
Qed.

Lemma writeHTTPResp_file_spec (fuel : nat) (resp : HTTPRes) (size : Z)
      (chunks : list Buffer) (w : World) :
  store w (body resp) = readerFromStaticFile chunks size ->
  Forall (fun d => 0 < blen d) chunks ->
  total_bytes chunks = size ->
  exists w',
    writeHTTPResp (S (List.length chunks) + fuel) resp w = (Ok tt, w') /\
    outgoing w' =
    outgoing w
    ++ encodeHTTPResp (code resp)
         (resHeaders resp
          ++ [Buffer_from (strcat "Content-Length: " (decimal size))])
    :: chunks.
Proof.
  intros Hs Hne Htot.
  assert (Hsize : 0 <= size) by (subst size; apply blen_nonneg).
  unfold writeHTTPResp. rewrite Hs. cbn [readerFromStaticFile reader_length].
  destruct (Z.ltb_spec size 0); [lia|].
  unfold bind at 1. unfold soWrite at 1.
  set (w1 := set_outgoing _ _).
  destruct (writeBody_file chunks fuel (body resp) size 0 w1)
    as (w' & -> & Hout); [exact Hs|exact Hne|lia|lia|].
  exists w'. split; [reflexivity|].
  rewrite Hout. subst w1. cbn [set_outgoing outgoing].
  rewrite <- app_assoc. reflexivity.
Qed.

(** The round for a request under /files/ whose file is there. *)
Lemma round_file (fuel : nat) (w : World) (msg : HTTPReq) (w1 : World)
      (payload rest : Buffer) (path : string) (size : Z)
      (chunks : list Buffer) :
  buf_wf (buf w) ->
  cutMessage w = (Ok (Some msg), w1) ->
  readerFromReq msg = inr (readerFromConnLength (blen payload)) ->
  unread (buf w1) = payload ++ rest ->
  toString (uri msg) = strcat "/files/" path ->
  files w path = RegularFile size chunks ->
  Forall (fun d => 0 < blen d) chunks ->
  total_bytes chunks = size ->
  exists w',
    serverClient_iter (2 + (List.length chunks + fuel)) w
    = (Ok (if streq (version msg) "1.0" then Return else Continue), w') /\
    outgoing w' =
    outgoing w
    ++ encodeHTTPResp 200
         [Buffer_from (strcat "Content-Length: " (decimal size))]
    :: chunks /\
    incoming w' = incoming w /\
    buf_wf (buf w') /\
    unread (buf w')
    = if streq (version msg) "1.0" then payload ++ rest else rest.
Proof.
  intros Hwf Ecut Erb Hu Huri Hfile Hne Htot.
  destruct (cutMessage_some w msg w1 Hwf Ecut) as (hdr & _ & _ & _ & Hwf1 & _).
  destruct (cutMessage_files w msg w1 Ecut) as (Hf1 & Ho1 & Hi1).
  set (wa := snd (new_reader w1 (readerFromConnLength (blen payload)))).
  set (res := mkHTTPRes 200 [] (S (next_ref w1))).
  set (wh := snd (new_reader wa (readerFromStaticFile chunks size))).
  assert (Eh : handleReq msg (next_ref w1) wa = (Ok res, wh)).
  { unfold handleReq. rewrite Huri.
    rewrite prefix_strcat.
    change (str_drop 7 (strcat "/files/" path)) with path.
    unfold serveStaticFile.
    replace (files wa path) with (RegularFile size chunks)
      by (subst wa; cbn [new_reader snd files]; now rewrite Hf1).
    reflexivity. }
  assert (Hs : store wh (body res) = readerFromStaticFile chunks size).
  { subst wh res wa. cbn [new_reader snd store body next_ref].
    now rewrite Nat.eqb_refl. }
  destruct (writeHTTPResp_file_spec (S fuel) res size chunks wh Hs Hne Htot)
    as (ww & Ew & Hww).
  replace (S (List.length chunks) + S fuel)%nat
    with (2 + (List.length chunks + fuel))%nat in Ew by lia.
  destruct (round_with_detached_body (List.length chunks + fuel)
              w msg w1 payload rest res wh ww)
    as (w' & E & Ho & Hi & Hwf' & Hu'); try assumption; try reflexivity.
  - subst res. cbn [body]. lia.
  - rewrite Hs. exact I.
  - subst wh wa. cbn [new_reader snd store next_ref].
    destruct (Nat.eqb_spec (next_ref w1) (S (next_ref w1))); [lia|].
    now rewrite Nat.eqb_refl.
  - exists w'. split; [exact E|]. splits; try assumption; [|congruence].
    rewrite Ho, Hww. subst wh wa res.
    cbn [new_reader snd outgoing code resHeaders app]. now rewrite Ho1.
Qed.

(** X20.  A round of [serverClient] for a request under /files/ whose
    path names a regular file that hands back its [size] bytes in reads
    that are not empty: the response has status 200 and no header line but
    Content-Length with the file's size, and its body is the file, one
    write per read.  If the version token of the request line is the
    literal 1.0, the round then returns, which ends the connection, with
    the request body still unread; otherwise the request body, if any, is
    skipped and the loop goes on. *)
Theorem round_serves_the_file
        (fuel : nat) (w : World) (msg : HTTPReq) (w1 : World)
        (payload rest : Buffer) (path : string) (size : Z)
        (chunks : list Buffer) :
  buf_wf (buf w) ->
  cutMessage w = (Ok (Some msg), w1) ->
  readerFromReq msg = inr (readerFromConnLength (blen payload)) ->
  unread (buf w1) = payload ++ rest ->
  toString (uri msg) = strcat "/files/" path ->
  files w path = RegularFile size chunks ->
  Forall (fun d => 0 < blen d) chunks ->
  total_bytes chunks = size ->
  exists w',
    serverClient_iter (2 + (List.length chunks + fuel)) w
    = (Ok (if streq (version msg) "1.0" then Return else Continue), w') /\
    outgoing w' =
    outgoing w
    ++ encodeHTTPResp 200
         [Buffer_from (strcat "Content-Length: " (decimal size))]
    :: chunks /\
    incoming w' = incoming w /\
    buf_wf (buf w') /\
    unread (buf w')
    = if streq (version msg) "1.0" then payload ++ rest else rest.
Proof. exact (round_file fuel w msg w1 payload rest path size chunks). Qed.

Lemma round_serves_the_file_witness :
  exists w',
    serverClient_iter 5 (get_file_buffered (RegularFile 15 file_chunks))
    = (Ok Continue, w') /\
    outgoing w' =
    Buffer_from (strcat (line "HTTP/1.1 200 OK")
                        (strcat (line "Content-Length: 15") CRLF))
    :: file_chunks.
Proof.
  destruct (cutMessage (get_file_buffered (RegularFile 15 file_chunks)))
    as [[[msg|]|e|] w1] eqn:E;
    try (vm_compute in E; discriminate E).
  destruct (round_serves_the_file
              0 (get_file_buffered (RegularFile 15 file_chunks)) msg w1
              [] [] "a.html" 15 file_chunks)
    as (w' & Ei & Ho & _).
  - vm_compute. split; discriminate.
  - exact E.
  - vm_compute in E. inversion E; subst. vm_compute. reflexivity.
  - vm_compute in E. inversion E; subst. vm_compute. reflexivity.
  - vm_compute in E. inversion E; subst. vm_compute. reflexivity.
  - reflexivity.
  - repeat constructor.
  - reflexivity.
  - exists w'. vm_compute in E. inversion E; subst.
    split; [exact Ei|exact Ho].
Defined.

(** The round for a request under /files/ whose file cannot be served. *)
Lemma round_no_file (fuel : nat) (w : World) (msg : HTTPReq) (w1 : World)
      (payload rest : Buffer) (path : string) :
  buf_wf (buf w) ->
  cutMessage w = (Ok (Some msg), w1) ->
  readerFromReq msg = inr (readerFromConnLength (blen payload)) ->
  unread (buf w1) = payload ++ rest ->
  toString (uri msg) = strcat "/files/" path ->
  files w path = NoEntry \/ files w path = NotAFile ->
  exists w',
    serverClient_iter (2 + fuel) w
    = (Ok (if streq (version msg) "1.0" then Return else Continue), w') /\
    outgoing w' =
    outgoing w
    ++ match files w path with
       | NotAFile => respError_writes 404 "Not a file"
       | _ => respError_writes 400 "Not Found"
       end /\
    incoming w' = incoming w /\
    buf_wf (buf w') /\
    unread (buf w')
    = if streq (version msg) "1.0" then payload ++ rest else rest.
Proof.
  intros Hwf Ecut Erb Hu Huri Hfile.
  destruct (cutMessage_some w msg w1 Hwf Ecut) as (hdr & _ & _ & _ & Hwf1 & _).
  destruct (cutMessage_files w msg w1 Ecut) as (Hf1 & Ho1 & Hi1).
  set (wa := snd (new_reader w1 (readerFromConnLength (blen payload)))).
  assert (Hgo : forall c message,
            handleReq msg (next_ref w1) wa = respError c message wa ->
            exists w',
              serverClient_iter (2 + fuel) w
              = (Ok (if streq (version msg) "1.0" then Return else Continue), w') /\
              outgoing w' = outgoing w ++ respError_writes c message /\
              incoming w' = incoming w /\
              buf_wf (buf w') /\
              unread (buf w')
              = if streq (version msg) "1.0" then payload ++ rest else rest).
  { intros c message Eh.
    set (d := Buffer_from (strcat (decimal c)
                 (strcat " " (strcat message (String LF EmptyString))))).
    set (res := mkHTTPRes c [Buffer_from "Content-Type: text/plain"]
                          (S (next_ref w1))).
    set (wh := snd (new_reader wa (readerFromMemory d))).
    assert (Eh' : handleReq msg (next_ref w1) wa = (Ok res, wh))
      by (rewrite Eh; reflexivity).
    assert (Hs : store wh (body res) = MemoryReader d false).
    { subst wh res wa. cbn [new_reader snd store body next_ref].
      now rewrite Nat.eqb_refl. }
    destruct (writeHTTPResp_memory_spec fuel res d wh Hs) as (ww & Ew & Hww).
    destruct (round_with_detached_body fuel w msg w1 payload rest res wh ww)
      as (w' & E & Ho & Hi & Hwf' & Hu'); try assumption; try reflexivity.
    - subst res. cbn [body]. lia.
    - rewrite Hs. exact I.
    - subst wh wa. cbn [new_reader snd store next_ref].
      destruct (Nat.eqb_spec (next_ref w1) (S (next_ref w1))); [lia|].
      now rewrite Nat.eqb_refl.
    - exists w'. split; [exact E|]. splits; try assumption; [|congruence].
      rewrite Ho, Hww. subst wh wa res.
      cbn [new_reader snd outgoing code resHeaders app]. rewrite Ho1.
      f_equal. unfold respError_writes. fold d. f_equal.
      assert (Hd : 0 < blen d).
      { subst d. rewrite !Buffer_from_app, !blen_app.
        pose proof (blen_nonneg (Buffer_from (decimal c))).
        pose proof (blen_nonneg (Buffer_from message)).
        change (blen (Buffer_from " ")) with 1.
        change (blen (Buffer_from (String LF EmptyString))) with 1. lia. }
      destruct (Z.eqb_spec (blen d) 0); [lia|reflexivity]. }
  assert (Hfa : files wa path = files w path)
    by (subst wa; cbn [new_reader snd files]; now rewrite Hf1).
  assert (Eh : handleReq msg (next_ref w1) wa = serveStaticFile path wa).
  { unfold handleReq. rewrite Huri, prefix_strcat. reflexivity. }
  unfold serveStaticFile in Eh. rewrite Hfa in Eh.
  destruct Hfile as [Hn|Hn]; rewrite Hn in *; apply Hgo; exact Eh.
Qed.

(** X21.  A round of [serverClient] for a request under /files/ whose
    path cannot be opened or is no regular file does not fail: it answers
    with the response of [respError].  A path that cannot be opened gets
    status 400 with the body "400 Not Found" (the status line reads
    400 Bad Request), one that is no regular file gets status 404 with
    the body "404 Not a file"; both have Content-Type: text/plain and the
    Content-Length of their body.  If the version token of the request
    line is the literal 1.0, the round then returns, which ends the
    connection, with the request body still unread; otherwise the request
    body is skipped and the loop goes on. *)
Theorem round_answers_for_a_missing_file
        (fuel : nat) (w : World) (msg : HTTPReq) (w1 : World)
        (payload rest : Buffer) (path : string) :
  buf_wf (buf w) ->
  cutMessage w = (Ok (Some msg), w1) ->
  readerFromReq msg = inr (readerFromConnLength (blen payload)) ->
  unread (buf w1) = payload ++ rest ->
  toString (uri msg) = strcat "/files/" path ->
  files w path = NoEntry \/ files w path = NotAFile ->
  exists w',
    serverClient_iter (2 + fuel) w
    = (Ok (if streq (version msg) "1.0" then Return else Continue), w') /\
    outgoing w' =
    outgoing w
    ++ match files w path with
       | NotAFile => respError_writes 404 "Not a file"
       | _ => respError_writes 400 "Not Found"
       end /\
    incoming w' = incoming w /\
    buf_wf (buf w') /\
    unread (buf w')
    = if streq (version msg) "1.0" then payload ++ rest else rest.
Proof. exact (round_no_file fuel w msg w1 payload rest path). Qed.

Lemma round_answers_for_a_missing_file_witness :
  exists w',
    serverClient_iter 2 (get_file_buffered NoEntry) = (Ok Continue, w') /\
    outgoing w' =
    [Buffer_from (strcat (line "HTTP/1.1 400 Bad Request")
       (strcat (line "Content-Type: text/plain")
       (strcat (line "Content-Length: 14") CRLF)));
     Buffer_from (strcat "400 Not Found" (String LF EmptyString))].
Proof.
  destruct (cutMessage (get_file_buffered NoEntry))
    as [[[msg|]|e|] w1] eqn:E;
    try (vm_compute in E; discriminate E).
  destruct (round_answers_for_a_missing_file
              0 (get_file_buffered NoEntry) msg w1 [] [] "a.html")
    as (w' & Ei & Ho & _).
  - vm_compute. split; discriminate.
  - exact E.
  - vm_compute in E. inversion E; subst. vm_compute. reflexivity.
  - vm_compute in E. inversion E; subst. vm_compute. reflexivity.
  - vm_compute in E. inversion E; subst. vm_compute. reflexivity.
  - left. reflexivity.
  - exists w'. vm_compute in E. inversion E; subst.
    split; [exact Ei|exact Ho].
Defined.

(** ** Cutting a whole header block *)






(** ** Which reader a request gets *)

(** X23.  [readerFromReq] either fails with status 400 or returns one of
    two readers: the length-bounded reader for a length that is not
    negative, or the chunked decoder.  A GET or HEAD request never gets a
    body: its reader, if any, is the length-bounded reader for 0 bytes.
    The chunked decoder is only given to a request of another method whose
    Transfer-Encoding is chunked. *)
Theorem readerFromReq_outcomes (req : HTTPReq) :
  match readerFromReq req with
  | inr rb =>
      (exists n, 0 <= n /\ rb = readerFromConnLength n /\
                 (streq (method req) "GET" || streq (method req) "HEAD" = true
                  -> n = 0)) \/
      (rb = chunked_reader /\
       streq (method req) "GET" || streq (method req) "HEAD" = false /\
       exists v, fieldGet (headers req) "Transfer-Encoding" = Some v /\
                 buffer_eqb v (Buffer_from "chunked") = true)
  | inl e => exists m, e = HTTPError 400 m
  end.
Proof.
  unfold readerFromReq.
  destruct (match fieldGet (headers req) "Content-Length" with
            | Some contentLen => _
            | None => _
            end) as [e|bodyLen] eqn:Ecl.
  { destruct (fieldGet (headers req) "Content-Length") as [cl|];
      [|discriminate].
    destruct (parseInt (toString cl) 0); [discriminate|].
    inversion Ecl. now eexists. }
  clear Ecl. cbv zeta.
  destruct (streq (method req) "GET" || streq (method req) "HEAD") eqn:Em;
    cbn [negb andb].
  - destruct ((0 <? bodyLen) || _); [now eexists|].
    cbn [Z.leb Z.compare]. left. exists 0. now splits.
  - destruct (Z.leb_spec 0 bodyLen) as [Hle|_].
    + left. exists bodyLen. splits; [exact Hle|reflexivity|discriminate].
    + destruct (fieldGet (headers req) "Transfer-Encoding") as [v|];
        [|now eexists].
      destruct (buffer_eqb v (Buffer_from "chunked")) eqn:Ev; [|now eexists].
      right. splits; [reflexivity|reflexivity|]. exists v. now split.
Qed.

(** * The line echo server *)













(** ** Requests cut into reads at any place *)







(** ** Echo of a chunked request *)

Lemma chunk_nonempty (d : Buffer) : (blen (chunk d) =? 0) = false.
Proof.
  apply Z.eqb_neq. unfold chunk. rewrite !blen_app.
  pose proof (blen_nonneg (Buffer_from (hex (blen d)))).
  pose proof (blen_nonneg d). change (blen crlf) with 2. lia.
Qed.

(** The body loop of [writeHTTPResp] over the decoder of [readChunks],
    the chunked body being in the buffer. *)
Lemma writeBody_chunks (fuel : nat) (b : Ref) (s0 : string) (rest : Buffer)
      (chunks : list (string * Buffer)) :
  forall pc w,
  store w b = GeneratorReader (ReadChunks pc) ->
  buf_wf (buf w) ->
  at_chunk pc (unread (buf w)) (chunked_body chunks s0 ++ rest) ->
  Forall (fun p => size_line_ok (fst p) (blen (snd p)) /\ 0 < blen (snd p))
         chunks ->
  size_line_ok s0 0 ->
  exists w',
    writeBody (5 + fuel + List.length chunks) b (-1) w = (Ok tt, w') /\
    outgoing w' = outgoing w ++ map chunk (map snd chunks ++ [[]]) /\
    buf_wf (buf w') /\ unread (buf w') = rest /\
    incoming w' = incoming w /\
    store w' b = GeneratorReader (ReadChunks Finished).
Proof.
  induction chunks as [|[s d] chunks IH]; intros pc w Hst Hwf Hat Hok H0.
  - destruct (readChunks_next_terminal (fuel + 0) pc w s0 rest Hwf Hat H0)
      as (w1 & E & Hwf1 & Hu1 & Hi1 & Ho1 & _).
    eexists. split.
    + cbn [List.length Nat.add]. rewrite writeBody_S. unfold bind at 1, read.
      rewrite Hst. cbn [readerRead gen_next].
      change (S (S (S (S (fuel + 0)))))%nat with (4 + (fuel + 0))%nat.
      rewrite E. cbv iota beta. change (-1 <? 0) with true. cbv iota.
      fold (chunk []). rewrite chunk_nonempty. cbn [negb].
      unfold bind at 1. unfold soWrite at 1. reflexivity.
    + cbn [set_outgoing set_reader outgoing buf incoming store map app].
      rewrite Nat.eqb_refl, Ho1. now splits.
  - apply Forall_cons_iff in Hok as [[Hs Hd] Hok]. cbn [fst snd] in Hs, Hd.
    rewrite chunked_body_cons in Hat. cbn [fst snd] in Hat.
    destruct (readChunks_next_chunk (S (fuel + S (List.length chunks)))
                                    pc w s d _ Hwf Hat Hs Hd)
      as (w1 & E1 & Hwf1 & Hat1 & Hi1 & Ho1 & _).
    set (w2 := set_outgoing
                 (set_reader w1 b (GeneratorReader (ReadChunks (AtWhile false 0))))
                 (outgoing w1 ++ [chunk d])).
    destruct (IH (AtWhile false 0) w2) as (w' & E & Ho & Hwf' & Hu & Hi & Hst');
      [subst w2; cbn [set_outgoing set_reader store]; now rewrite Nat.eqb_refl
      |exact Hwf1|exact Hat1|exact Hok|exact H0|].
    exists w'. split.
    + cbn [List.length Nat.add]. rewrite writeBody_S. unfold bind at 1, read.
      rewrite Hst. cbn [readerRead gen_next].
      change (S (S (S (S (fuel + S (List.length chunks))))))%nat
        with (3 + S (fuel + S (List.length chunks)))%nat.
      rewrite E1. cbv iota beta. change (-1 <? 0) with true. cbv iota.
      fold (chunk d). rewrite chunk_nonempty. cbn [negb].
      unfold bind at 1. unfold soWrite at 1.
      cbn [set_reader outgoing]. fold w2.
      destruct (Z.eqb_spec (blen d) 0) as [|_]; [lia|].
      replace (3 + S (fuel + S (List.length chunks)))%nat
        with (5 + fuel + List.length chunks)%nat by lia.
      exact E.
    + rewrite Ho. subst w2. cbn [set_outgoing set_reader outgoing incoming] in *.
      rewrite Ho1, <- app_assoc. cbn [map app snd]. splits; try assumption.
      * reflexivity.
      * congruence.
Qed.

(** The round for a chunked request on /echo whose body is in the
    buffer. *)
Lemma round_echo_chunked (fuel : nat) (w : World) (msg : HTTPReq) (w1 : World)
      (chunks : list (string * Buffer)) (s0 : string) (rest : Buffer) :
  buf_wf (buf w) ->
  cutMessage w = (Ok (Some msg), w1) ->
  readerFromReq msg = inr chunked_reader ->
  unread (buf w1) = chunked_body chunks s0 ++ rest ->
  Forall (fun p => size_line_ok (fst p) (blen (snd p)) /\ 0 < blen (snd p))
         chunks ->
  size_line_ok s0 0 ->
  toString (uri msg) = "/echo"%string ->
  exists w',
    serverClient_iter (5 + fuel + List.length chunks) w
    = (Ok (if streq (version msg) "1.0" then Return else Continue), w') /\
    outgoing w' =
    outgoing w
    ++ encodeHTTPResp 200
         [Buffer_from "Server: my_first_http_server";
          Buffer_from "Transfer-Encoding: chunked"]
    :: map chunk (map snd chunks ++ [[]]) /\
    incoming w' = incoming w /\
    buf_wf (buf w') /\ unread (buf w') = rest.
Proof.
  intros Hwf Ecut Erb Hu Hok H0 Huri.
  destruct (cutMessage_some w msg w1 Hwf Ecut) as (hdr & _ & _ & _ & Hwf1 & Hw1).
  unfold serverClient_iter. unfold bind at 1. rewrite Ecut.
  unfold bind at 1. unfold liftE. rewrite Erb. unfold ret at 1.
  unfold bind at 1. unfold alloc at 1. cbn [new_reader].
  set (wa := mkWorld _ _ _ _ _ _ _).
  assert (Hsa : store wa (next_ref w1) = GeneratorReader (ReadChunks (AtFor false))).
  { subst wa. cbn [store]. now rewrite Nat.eqb_refl. }
  unfold bind at 1. unfold handleReq. rewrite Huri.
  change (String.prefix "/files/" "/echo") with false.
  change (streq "/echo" "/echo") with true. cbv iota.
  unfold bind at 1, ret at 1. unfold ret at 1.
  unfold bind at 1. unfold finally_, closeReader.
  unfold writeHTTPResp. cbn [body code resHeaders]. rewrite Hsa.
  cbn [reader_length]. change (-1 <? 0) with true. cbv iota.
  unfold bind at 1. unfold soWrite at 1.
  set (w2 := set_outgoing wa _).
  destruct (writeBody_chunks fuel (next_ref w1) s0 rest chunks (AtFor false) w2)
    as (w3 & Ew & Ho3 & Hwf3 & Hu3 & Hi3 & Hs3);
    [exact Hsa|exact Hwf1|left; split; [reflexivity|exact Hu]|exact Hok|exact H0|].
  rewrite Ew. unfold ret at 1.
  assert (Hout : outgoing w3 =
                 outgoing w
                 ++ encodeHTTPResp 200
                      [Buffer_from "Server: my_first_http_server";
                       Buffer_from "Transfer-Encoding: chunked"]
                 :: map chunk (map snd chunks ++ [[]])).
  { rewrite Ho3. subst w2 wa. cbn [set_outgoing outgoing app].
    rewrite Hw1, <- app_assoc. reflexivity. }
  assert (Hinc : incoming w3 = incoming w).
  { rewrite Hi3. subst w2 wa. cbn [set_outgoing incoming]. now rewrite Hw1. }
  destruct (streq (version msg) "1.0").
  - exists w3. now splits.
  - eexists. split.
    + unfold bind at 1. cbn [Nat.add]. cbn [drain]. unfold bind at 1, read.
      rewrite Hs3. cbn [readerRead gen_next readChunks_next]. reflexivity.
    + cbn [set_reader outgoing incoming buf]. now splits.
Qed.

(** X25.  A round of [serverClient] for a request on /echo with
    Transfer-Encoding: chunked whose whole body is in the buffer: the
    response has status 200, the Server line and
    Transfer-Encoding: chunked, and carries the data of each request chunk
    as one chunk under the size line that the server writes itself, then
    the terminal chunk; the bytes behind the request body are then the
    next thing unread.  Nothing is read from the socket. *)
Theorem round_echoes_a_chunked_body
        (fuel : nat) (w : World) (msg : HTTPReq) (w1 : World)
        (chunks : list (string * Buffer)) (s0 : string) (rest : Buffer) :
  buf_wf (buf w) ->
  cutMessage w = (Ok (Some msg), w1) ->
  readerFromReq msg = inr chunked_reader ->
  unread (buf w1) = chunked_body chunks s0 ++ rest ->
  Forall (fun p => size_line_ok (fst p) (blen (snd p)) /\ 0 < blen (snd p))
         chunks ->
  size_line_ok s0 0 ->
  toString (uri msg) = "/echo"%string ->
  exists w',
    serverClient_iter (5 + fuel + List.length chunks) w
    = (Ok (if streq (version msg) "1.0" then Return else Continue), w') /\
    outgoing w' =
    outgoing w
    ++ encodeHTTPResp 200
         [Buffer_from "Server: my_first_http_server";
          Buffer_from "Transfer-Encoding: chunked"]
    :: map chunk (map snd chunks ++ [[]]) /\
    incoming w' = incoming w /\
    buf_wf (buf w') /\ unread (buf w') = rest.
Proof. exact (round_echo_chunked fuel w msg w1 chunks s0 rest). Qed.

Lemma round_echoes_a_chunked_body_witness :
  exists w',
    serverClient_iter 7 chunked_echo_buffered = (Ok Continue, w') /\
    outgoing w' =
    [ Buffer_from (strcat (line "HTTP/1.1 200 OK")
        (strcat (line "Server: my_first_http_server")
        (strcat (line "Transfer-Encoding: chunked") CRLF)));
      Buffer_from (strcat (line "5") (line "hello"));
      Buffer_from (strcat (line "a") (line "0123456789"));
      Buffer_from (strcat (line "0") CRLF) ] /\
    unread (buf w') = Buffer_from "GET".
Proof.
  destruct (cutMessage chunked_echo_buffered) as [[[msg|]|e|] w1] eqn:E;
    try (vm_compute in E; discriminate E).
  destruct (round_echoes_a_chunked_body
              0 chunked_echo_buffered msg w1 two_chunks "0" (Buffer_from "GET"))
    as (w' & Ei & Ho & _ & _ & Hu).
  - vm_compute. split; discriminate.
  - exact E.
  - vm_compute in E. inversion E; subst. vm_compute. reflexivity.
  - vm_compute in E. inversion E; subst. vm_compute. reflexivity.
  - repeat constructor; vm_compute; reflexivity.
  - split; reflexivity.
  - vm_compute in E. inversion E; subst. vm_compute. reflexivity.
  - exists w'. vm_compute in E. inversion E; subst.
    split; [exact Ei|]. split; [exact Ho|exact Hu].
Defined.

(** * Failures and their answers *)

(** ** Failures of the body readers carry no status *)





















